(** * AirSS model layer: a shallow embedding and its verified properties

    The development follows the layout of the sources:
    - [IDB]    the persistent object store the model layer talks to;
    - [Items]  items.js: the item schema, the cursor store and the three
               format normalizers;
    - [Feeds]  the feed registry used by the scheduler;
    - [Model]  airss_model.js: the promise chain and the scheduler;
    - [Model2] the second variant of the model layer (load candidates and
               feed updates driven by an external loader).
    - [Persist] what the store holds, for statements about pushes and
               restarts;
    - [Subscribe] cb_subscribe, over the outcomes of the registry calls.

    JavaScript numbers that hold indices, counts and timestamps are
    modelled as [Z]; strings as [string]; a settled promise as [settled]. *)

From Stdlib Require Import ZArith List String Ascii Bool Lia Permutation.
From Stdlib Require Import DecimalString.
Import ListNotations.
Open Scope Z_scope.

(* ------------------------------------------------------------------ *)
(** ** JavaScript outcomes *)

(** What a [throw] carries.  The model layer only ever discriminates
    [e instanceof DOMException]. *)
Inductive error : Type :=
| DOMException (name : string)
| TypeError (msg : string)
| ThrownNull
| OtherError (msg : string).

Definition is_DOMException (e : error) : bool :=
  match e with DOMException _ => true | _ => false end.

(** A settled promise (or the outcome of a call that may throw). *)
Inductive settled (A : Type) : Type :=
| Fulfilled (a : A)
| Rejected (e : error).
Arguments Fulfilled {A} a.
Arguments Rejected {A} e.

Definition is_rejected {A} (p : settled A) : bool :=
  match p with Rejected _ => true | Fulfilled _ => false end.

(** [new Date()] reads the clock, [new Date(s)] parses a string. *)
Inductive jsdate : Type :=
| DateNow (ms : Z)
| DateOf (src : option string).

(* ------------------------------------------------------------------ *)
(** ** The item and feed schemas *)

Module Item.
(** SampleItem of items.js.  A property that may be missing is an
    [option]; [read] is only ever tested for truthiness, so a missing
    flag is [false]. *)
Record t : Type := mk {
  id : option Z;
  read : bool;
  feedTitle : option string;
  feedId : option Z;
  datePublished : option jsdate;
  contentHtml : string;
  url : string;
  imageUrl : option string;
  title : option string;
  tags : list string
}.

Definition set_id (k : Z) (it : t) : t :=
  mk (Some k) (read it) (feedTitle it) (feedId it) (datePublished it)
     (contentHtml it) (url it) (imageUrl it) (title it) (tags it).

Definition set_read (b : bool) (it : t) : t :=
  mk (id it) b (feedTitle it) (feedId it) (datePublished it)
     (contentHtml it) (url it) (imageUrl it) (title it) (tags it).
End Item.

Module Feed.
(** A feed record: what the scheduler reads of it, and the [error] the
    loader attaches to a feed whose fetch failed. *)
Record t : Type := mk {
  id : Z;
  feedUrl : string;
  title : string;
  lastLoadTime : Z;
  error : option string
}.

Definition set_lastLoadTime (now : Z) (f : t) : t :=
  mk (id f) (feedUrl f) (title f) now (error f).

Definition delete_error (f : t) : t :=
  mk (id f) (feedUrl f) (title f) (lastLoadTime f) None.
End Feed.

(** The events posted to the document. *)
Inductive event : Type :=
| AirSSModelAlert (type text : string)
| AirSSModelItemsLoaded (length cursor : Z)
| AirSSModelInitDone
| AirSSModelShutDown.

(* ------------------------------------------------------------------ *)
(** ** The persistent store capability

    The object store "items" of the IndexedDB database, as the model layer
    uses it: records keyed by [id] with a key generator
    ([keyPath: "id", autoIncrement: true]), a unique index on [url], and a
    forward cursor over the keys in ascending order.  The records are kept
    as an association list in ascending key order, which is the order the
    cursor of [load] walks. *)

Module IDB.

Record objectStore : Type := mkStore {
  records : list (Z * Item.t);
  keyGen : Z
}.

Definition keys (s : objectStore) : list Z := map fst (records s).

(** The value a record has in the [url] index. *)
Definition url_of (r : Z * Item.t) : string := Item.url (snd r).

Definition has_key (k : Z) (rs : list (Z * Item.t)) : bool :=
  existsb (fun r => fst r =? k) rs.

(** Is [u] taken in the unique index by a record other than [k]? *)
Definition url_taken (u : string) (except : option Z)
           (rs : list (Z * Item.t)) : bool :=
  existsb (fun r =>
             String.eqb (Item.url (snd r)) u &&
             match except with
             | Some k => negb (fst r =? k)
             | None => true
             end) rs.

Fixpoint find_key (k : Z) (rs : list (Z * Item.t)) : option Item.t :=
  match rs with
  | [] => None
  | (k', v) :: rest => if k' =? k then Some v else find_key k rest
  end.

Fixpoint remove_key (k : Z) (rs : list (Z * Item.t)) : list (Z * Item.t) :=
  match rs with
  | [] => []
  | (k', v) :: rest =>
      if k' =? k then remove_key k rest else (k', v) :: remove_key k rest
  end.

(** Insertion at the position the key order asks for. *)
Fixpoint insert_key (k : Z) (v : Item.t) (rs : list (Z * Item.t))
  : list (Z * Item.t) :=
  match rs with
  | [] => [(k, v)]
  | (k', v') :: rest =>
      if k <? k' then (k, v) :: (k', v') :: rest
      else (k', v') :: insert_key k v rest
  end.

(** The key an item is stored under: its own [id] when it has one, the
    next generated key otherwise. *)
Definition key_for (s : objectStore) (it : Item.t) : Z :=
  match Item.id it with
  | Some k => k
  | None => keyGen s
  end.

(** Adding a record: fails with a ConstraintError when the key or the url
    is already present, and then leaves the store as it was. *)
Definition store_add (s : objectStore) (it : Item.t) : settled Z * objectStore :=
  let k := key_for s it in
  if has_key k (records s) || url_taken (Item.url it) None (records s)
  then (Rejected (DOMException "ConstraintError"), s)
  else (Fulfilled k,
        mkStore (insert_key k (Item.set_id k it) (records s))
                (Z.max (keyGen s) (k + 1))).

(** Putting a record: insert or overwrite by key; the unique index still
    rejects a url held by another record. *)
Definition store_put (s : objectStore) (it : Item.t) : settled Z * objectStore :=
  let k := key_for s it in
  if url_taken (Item.url it) (Some k) (records s)
  then (Rejected (DOMException "ConstraintError"), s)
  else (Fulfilled k,
        mkStore (insert_key k (Item.set_id k it) (remove_key k (records s)))
                (Z.max (keyGen s) (k + 1))).

(** Deleting a key succeeds whether or not the key is there. *)
Definition store_delete (s : objectStore) (k : Z) : objectStore :=
  mkStore (remove_key k (records s)) (keyGen s).

(** The handle [db] of the model layer: the open database, or null once
    [cb_shutdown] has closed it.  Any use of a null handle is a
    TypeError. *)
Definition handle : Type := option objectStore.

Definition null_db : error := TypeError "db is null".

(** [db.get(Store, key)]: the record, or undefined (here [None]). *)
Definition get (db : handle) (k : Z) : settled (option Item.t) :=
  match db with
  | Some s => Fulfilled (find_key k (records s))
  | None => Rejected null_db
  end.

(** [db.add(Store, item)] *)
Definition add (db : handle) (it : Item.t) : settled Z * handle :=
  match db with
  | Some s => let '(r, s') := store_add s it in (r, Some s')
  | None => (Rejected null_db, None)
  end.

(** [db.put(Store, item)] *)
Definition put (db : handle) (it : Item.t) : settled Z * handle :=
  match db with
  | Some s => let '(r, s') := store_put s it in (r, Some s')
  | None => (Rejected null_db, None)
  end.

(** [db.delete(Store, key)] *)
Definition delete (db : handle) (k : Z) : settled unit * handle :=
  match db with
  | Some s => (Fulfilled tt, Some (store_delete s k))
  | None => (Rejected null_db, None)
  end.

(** [db.transaction(Store).store.openCursor()] followed to the end: the
    records in ascending key order. *)
Definition scan (db : handle) : settled (list (Z * Item.t)) :=
  match db with
  | Some s => Fulfilled (records s)
  | None => Rejected null_db
  end.

(** How many stored items carry the url [u]. *)
Definition count_url (u : string) (s : objectStore) : nat :=
  count_occ string_dec (map url_of (records s)) u.

Fixpoint ascending (ks : list Z) : Prop :=
  match ks with
  | [] => True
  | k :: rest => Forall (fun k' => k < k') rest /\ ascending rest
  end.

(** What the store guarantees by itself: keys in ascending order and
    below the key generator, and no url held twice. *)
Record wf (s : objectStore) : Prop := mkWf {
  wf_ascending : ascending (keys s);
  wf_keygen : Forall (fun k => k < keyGen s) (keys s);
  wf_urls : NoDup (map url_of (records s))
}.

End IDB.

(* ------------------------------------------------------------------ *)
(** ** items.js: the cursor store *)

Module Items.

(** The module state: [let items = []; let reading = -1; let known = -1;] *)
Record state : Type := mkState {
  items : list Z;
  reading : Z;
  known : Z
}.

Definition init : state := mkState [] (-1) (-1).

Definition readingCursor (st : state) : Z := reading st.
Definition knownCursor (st : state) : Z := known st.
Definition length (st : state) : Z := Z.of_nat (List.length (items st)).

Definition unreadCount (st : state) : Z :=
  Z.of_nat (List.length (items st)) - known st - 1.

Definition forwardCursor (st : state) : bool * state :=
  if reading st >=? Z.of_nat (List.length (items st)) - 1 then (false, st)
  else
    let reading' := reading st + 1 in
    let known' := if known st <? reading' then reading' else known st in
    (true, mkState (items st) reading' known').

Definition backwardCursor (st : state) : bool * state :=
  if reading st <=? 0 then (false, st)
  else (true, mkState (items st) (reading st - 1) (known st)).

(** [arr[i]]: undefined outside the array. *)
Definition index {A} (l : list A) (i : Z) : option A :=
  if i <? 0 then None else nth_error l (Z.to_nat i).

(** [Array.prototype.slice(begin, end)], with its treatment of negative
    and oversized indices. *)
Definition rel_index (len i : Z) : Z :=
  if i <? 0 then Z.max (len + i) 0 else Z.min i len.

Definition slice {A} (l : list A) (b e : Z) : list A :=
  let len := Z.of_nat (List.length l) in
  let b' := rel_index len b in
  let e' := rel_index len e in
  firstn (Z.to_nat (e' - b')) (skipn (Z.to_nat b') l).

Definition slice_from {A} (l : list A) (b : Z) : list A :=
  slice l b (Z.of_nat (List.length l)).

(** [markRead(db, item)]: nothing to do for an item already read;
    otherwise the flag is set on the item and the item is put back. *)
Definition markRead (db : IDB.handle) (it : Item.t)
  : settled unit * IDB.handle :=
  if Item.read it then (Fulfilled tt, db)
  else
    match IDB.put db (Item.set_read true it) with
    | (Fulfilled _, db') => (Fulfilled tt, db')
    | (Rejected e, db') => (Rejected e, db')
    end.

(** A key that is undefined ([items[reading]] outside the list) is
    refused by the store with a DataError; a null handle fails first. *)
Definition bad_key (db : IDB.handle) : error :=
  match db with
  | Some _ => DOMException "DataError"
  | None => IDB.null_db
  end.

(** [getCurrentItem(db)]: null when nothing is under the cursor (here
    [None], as is the undefined of a key that is not stored). *)
Definition getCurrentItem (db : IDB.handle) (st : state)
  : settled (option Item.t) :=
  if reading st >=? 0 then
    match index (items st) (reading st) with
    | Some k => IDB.get db k
    | None => Rejected (bad_key db)
    end
  else Fulfilled None.

Definition deleteCurrentItem (db : IDB.handle) (st : state)
  : settled bool * IDB.handle * state :=
  if reading st <? 0 then (Fulfilled false, db, st)
  else
    match index (items st) (reading st) with
    | None => (Rejected (bad_key db), db, st)
    | Some k =>
        match IDB.delete db k with
        | (Rejected e, db') => (Rejected e, db', st)
        | (Fulfilled _, db') =>
            let items' := slice (items st) 0 (reading st)
                          ++ slice_from (items st) (reading st + 1) in
            (Fulfilled true, db',
             mkState items' (reading st - 1) (known st - 1))
        end
    end.

(** [pushItem(db, item)]: the id is appended only when the add went
    through; a failed add throws before [items.push]. *)
Definition pushItem (db : IDB.handle) (it : Item.t) (st : state)
  : settled unit * IDB.handle * state :=
  match IDB.add db it with
  | (Fulfilled k, db') =>
      (Fulfilled tt, db', mkState (items st ++ [k]) (reading st) (known st))
  | (Rejected e, db') => (Rejected e, db', st)
  end.

(** The cursor loop of [load]: every record pushes its key, and a record
    whose [read] flag is set bumps [known]. *)
Fixpoint load_scan (rs : list (Z * Item.t)) (its : list Z) (kn : Z)
  : list Z * Z :=
  match rs with
  | [] => (its, kn)
  | (k, v) :: rest =>
      load_scan rest (its ++ [k]) (if Item.read v then kn + 1 else kn)
  end.

(** [load(db)]: the module state is rewritten only once the cursor is
    open, so a failure to open it leaves the state as it was. *)
Definition load (db : IDB.handle) (st : state) : settled unit * state :=
  match IDB.scan db with
  | Rejected e => (Rejected e, st)
  | Fulfilled rs =>
      let '(its, kn) := load_scan rs [] (-1) in
      (Fulfilled tt, mkState its kn kn)
  end.

(** *** The format normalizers *)

(** The outcome of a normalizer: an item, null (here [Fulfilled None]), or
    a thrown value. *)
Definition parsed : Type := settled (option Item.t).

(** [if (s)] on a string that may be null or undefined. *)
Definition truthy (s : option string) : bool :=
  match s with
  | Some s' => negb (String.eqb s' "")
  | None => false
  end.

Definition paragraph (s : string) : string :=
  String.append "<p>" (String.append s "</p>").

(** One entry of a JSON feed, with the properties [parseJSONItem] reads. *)
Record json_entry : Type := mkJson {
  date_published : option string;
  content_html : option string;
  content_text : option string;
  json_url : option string;
  image : option string;
  json_title : option string;
  json_tags : option (list string)
}.

Definition parseJSONItem (json : json_entry) : parsed :=
  let datePublished := Some (DateOf (date_published json)) in
  match
    match content_html json with
    | Some html => Some html
    | None =>
        match content_text json with
        | Some text => Some (paragraph text)
        | None => None
        end
    end
  with
  | None => Fulfilled None
  | Some contentHtml =>
      if truthy (json_url json) then
        Fulfilled (Some (Item.mk None false None None datePublished contentHtml
                           (match json_url json with Some u => u | None => "" end)
                           (image json) (json_title json)
                           (match json_tags json with
                            | Some ts => ts
                            | None => []
                            end)))
      else Fulfilled None
  end.

(** An element of the parsed XML document: local name, attributes and
    text content.  An entry is the list of the elements below it, in
    document order, which is the order [querySelector] searches. *)
Record xml_node : Type := mkNode {
  localName : string;
  attributes : list (string * string);
  textContent : string
}.

Definition xml_elem : Type := list xml_node.

(** The selectors the normalizers use: a type selector ("link", and
    "*|encoded" for any namespace), or one with an attribute test
    ("link[rel=alternate]"). *)
Inductive selector : Type :=
| Tag (name : string)
| TagRel (name rel : string).

Fixpoint getAttribute (attrs : list (string * string)) (a : string)
  : option string :=
  match attrs with
  | [] => None
  | (n, v) :: rest => if String.eqb n a then Some v else getAttribute rest a
  end.

Definition matches (sel : selector) (n : xml_node) : bool :=
  match sel with
  | Tag name => String.eqb (localName n) name
  | TagRel name rel =>
      String.eqb (localName n) name &&
      match getAttribute (attributes n) "rel" with
      | Some r => String.eqb r rel
      | None => false
      end
  end.

Definition querySelector (elem : xml_elem) (sel : selector) : option xml_node :=
  find (matches sel) elem.

Definition querySelectorAll (elem : xml_elem) (sel : selector) : list xml_node :=
  filter (matches sel) elem.

(** Text is held as its UTF-8 bytes.  [bytes] writes a character down by
    the numbers of its bytes. *)
Definition bytes (l : list nat) : string :=
  string_of_list_ascii (map ascii_of_nat l).

(** The characters [String.prototype.trim] strips, WhiteSpace and
    LineTerminator of the language: U+0009 to U+000D, U+0020, U+00A0,
    U+1680, U+2000 to U+200A, U+2028, U+2029, U+202F, U+205F, U+3000 and
    U+FEFF. *)
Definition white_space : list string :=
  map bytes
      [[9]; [10]; [11]; [12]; [13]; [32];
       [194; 160];
       [225; 154; 128];
       [226; 128; 128]; [226; 128; 129]; [226; 128; 130]; [226; 128; 131];
       [226; 128; 132]; [226; 128; 133]; [226; 128; 134]; [226; 128; 135];
       [226; 128; 136]; [226; 128; 137]; [226; 128; 138];
       [226; 128; 168]; [226; 128; 169];
       [226; 128; 175];
       [226; 129; 159];
       [227; 128; 128];
       [239; 187; 191]]%nat.

Fixpoint drop (n : nat) (s : string) : string :=
  match n, s with
  | S n', String _ rest => drop n' rest
  | _, _ => s
  end.

Fixpoint starts_with (w s : string) : bool :=
  match w with
  | EmptyString => true
  | String a w' =>
      match s with
      | String b s' => Ascii.eqb a b && starts_with w' s'
      | EmptyString => false
      end
  end.

(** One character of [ws] taken off the front of [s], if [s] starts with
    one. *)
Fixpoint strip_one (ws : list string) (s : string) : option string :=
  match ws with
  | [] => None
  | w :: rest =>
      if starts_with w s then Some (drop (String.length w) s)
      else strip_one rest s
  end.

(** Characters of [ws] taken off the front of [s] for as long as there is
    one, at most [fuel] times. *)
Fixpoint strip_all (fuel : nat) (ws : list string) (s : string) : string :=
  match fuel with
  | O => s
  | S fuel' =>
      match strip_one ws s with
      | Some rest => strip_all fuel' ws rest
      | None => s
      end
  end.

Definition reverse (s : string) : string :=
  string_of_list_ascii (rev (list_ascii_of_string s)).

(** A string has no more characters than bytes, so its length is fuel
    enough. *)
Definition trim_start (s : string) : string :=
  strip_all (String.length s) white_space s.

Definition trim_end (s : string) : string :=
  reverse (strip_all (String.length s) (map reverse white_space) (reverse s)).

Definition trim (s : string) : string := trim_end (trim_start s).

(** A text of white space only. *)
Inductive blank : string -> Prop :=
| blank_empty : blank EmptyString
| blank_more (w s : string) :
    In w white_space -> blank s -> blank (String.append w s).

Definition getXMLTextContent (elem : xml_elem) (sel : selector) : option string :=
  match querySelector elem sel with
  | Some sub => Some (trim (textContent sub))
  | None => None
  end.

Definition getXMLTextAttribute (elem : xml_elem) (sel : selector) (attr : string)
  : option string :=
  match querySelector elem sel with
  | Some sub => getAttribute (attributes sub) attr
  | None => None
  end.

(** [s.split('/')[0]] *)
Fixpoint before_slash (s : string) : string :=
  match s with
  | String c rest =>
      if Ascii.eqb c "/" then EmptyString else String c (before_slash rest)
  | EmptyString => EmptyString
  end.

(** [if (enclosure_type) { if (tokens[0] == 'image') item.imageUrl = enclosure; }] *)
Definition image_of (enclosure enclosure_type : option string) : option string :=
  match enclosure_type with
  | Some ty =>
      if truthy enclosure_type && String.eqb (before_slash ty) "image"
      then enclosure else None
  | None => None
  end.

Definition date_of (s : option string) : option jsdate :=
  if truthy s then Some (DateOf s) else None.

Definition text_of (s : option string) : string :=
  match s with Some s' => s' | None => "" end.

Definition title_of (s : option string) : option string :=
  if truthy s then s else None.

Definition parseRSS2Item (elem : xml_elem) : parsed :=
  let pubDate := getXMLTextContent elem (Tag "pubDate") in
  let description := getXMLTextContent elem (Tag "description") in
  let content := getXMLTextContent elem (Tag "encoded") in
  let link := getXMLTextContent elem (Tag "link") in
  let title := getXMLTextContent elem (Tag "title") in
  let enclosure := getXMLTextAttribute elem (Tag "enclosure") "url" in
  let enclosure_type := getXMLTextAttribute elem (Tag "enclosure") "type" in
  let tags := map textContent (querySelectorAll elem (Tag "category")) in
  match
    if truthy content then Some (text_of content)
    else if truthy description then Some (text_of description)
    else None
  with
  | None => Fulfilled None
  | Some contentHtml =>
      if truthy link then
        Fulfilled (Some (Item.mk None false None None (date_of pubDate)
                           contentHtml (text_of link)
                           (image_of enclosure enclosure_type)
                           (title_of title) tags))
      else Fulfilled None
  end.

Definition parseATOMItem (elem : xml_elem) : parsed :=
  let published := getXMLTextContent elem (Tag "published") in
  let updated := getXMLTextContent elem (Tag "updated") in
  let content := getXMLTextContent elem (Tag "content") in
  let summary := getXMLTextContent elem (Tag "summary") in
  let link := getXMLTextAttribute elem (Tag "link") "href" in
  let alternate := getXMLTextAttribute elem (TagRel "link" "alternate") "href" in
  let enclosure := getXMLTextAttribute elem (TagRel "link" "enclosure") "href" in
  let enclosure_type :=
    getXMLTextAttribute elem (TagRel "link" "enclosure") "type" in
  let title := getXMLTextContent elem (Tag "title") in
  let tags := map textContent (querySelectorAll elem (Tag "category")) in
  let datePublished :=
    if truthy published then date_of published else date_of updated in
  match
    if truthy content then Some (text_of content)
    else if truthy summary then Some (paragraph (text_of summary))
    else None
  with
  | None => Rejected ThrownNull
  | Some contentHtml =>
      match
        if truthy alternate then Some (text_of alternate)
        else if truthy link then Some (text_of link)
        else None
      with
      | None => Fulfilled None
      | Some url =>
          Fulfilled (Some (Item.mk None false None None datePublished
                             contentHtml url
                             (image_of enclosure enclosure_type)
                             (title_of title) tags))
      end
  end.

(** [oopsItem()] of items.js; [rnd] is what
    [Math.random().toString(36).substring(2, 15)] comes to. *)
Definition oopsItem (now : Z) (rnd : string) : Item.t :=
  Item.mk None false None None (Some (DateNow now))
          "If you see this, this feed failed loading" rnd None
          (Some "Oops..."%string) [].

End Items.


(* ------------------------------------------------------------------ *)
(** ** The push loop of the loaders

    [for (let i = newItems.length - 1; i >= 0; i--) { try { await
    Items.pushItem(db, newItems[i]); } catch (e) { ... } }], as written in
    both [loadFeed] and [cb_updateFeed]: a DOMException is swallowed, any
    other error is rethrown and ends the loop. *)

Fixpoint push_each (l : list Item.t) (db : IDB.handle) (st : Items.state)
  : settled unit * IDB.handle * Items.state :=
  match l with
  | [] => (Fulfilled tt, db, st)
  | it :: rest =>
      match Items.pushItem db it st with
      | (Fulfilled _, db', st') => push_each rest db' st'
      | (Rejected e, db', st') =>
          if is_DOMException e then push_each rest db' st'
          else (Rejected e, db', st')
      end
  end.

Definition push_reverse (newItems : list Item.t) (db : IDB.handle)
           (st : Items.state)
  : settled unit * IDB.handle * Items.state :=
  push_each (rev newItems) db st.

(* ------------------------------------------------------------------ *)
(** ** The cursor store next to its object store

    The operations of items.js as transitions of the pair (object store,
    module state).  A state is reachable when the operations lead to it
    from the freshly loaded module over a well-formed store. *)

Module Cursor.

Record world : Type := mkWorld {
  db : IDB.handle;
  cur : Items.state
}.

Inductive op : Type :=
| Load
| PushItem (it : Item.t)
| ForwardCursor
| BackwardCursor
| MarkRead (it : Item.t)
| DeleteCurrentItem.

Definition run (o : op) (w : world) : world :=
  match o with
  | Load => mkWorld (db w) (snd (Items.load (db w) (cur w)))
  | PushItem it =>
      let '(_, db', st') := Items.pushItem (db w) it (cur w) in mkWorld db' st'
  | ForwardCursor => mkWorld (db w) (snd (Items.forwardCursor (cur w)))
  | BackwardCursor => mkWorld (db w) (snd (Items.backwardCursor (cur w)))
  | MarkRead it => mkWorld (snd (Items.markRead (db w) it)) (cur w)
  | DeleteCurrentItem =>
      let '(_, db', st') := Items.deleteCurrentItem (db w) (cur w) in
      mkWorld db' st'
  end.

Inductive reachable : world -> Prop :=
| reachable_start (d : IDB.objectStore) :
    IDB.wf d -> reachable (mkWorld (Some d) Items.init)
| reachable_step (o : op) (w : world) :
    reachable w -> reachable (run o w).

(** The two cursor moves, for sequences of them. *)
Inductive move : Type := Forward | Backward.

Definition do_move (m : move) (st : Items.state) : Items.state :=
  match m with
  | Forward => snd (Items.forwardCursor st)
  | Backward => snd (Items.backwardCursor st)
  end.

Definition do_moves (ms : list move) (st : Items.state) : Items.state :=
  fold_left (fun s m => do_move m s) ms st.

(** The invariant of the cursors. *)
Definition cursors_ok (st : Items.state) : Prop :=
  -1 <= Items.reading st /\
  Items.reading st <= Items.known st /\
  Items.known st <= Items.length st - 1.

(** The in-memory list holds each id once, and only ids of stored items. *)
Definition ids_ok (d : IDB.objectStore) (st : Items.state) : Prop :=
  NoDup (Items.items st) /\
  (forall k, In k (Items.items st) -> In k (IDB.keys d)).

(** The state after [load] on an open database. *)
Definition loaded (d : IDB.objectStore) : Items.state :=
  snd (Items.load (Some d) Items.init).

(** What holds of every reachable state: the database is open and
    well-formed, the id list is in step with it, the cursors are in
    range. *)
Definition world_ok (w : world) : Prop :=
  exists d : IDB.objectStore,
    db w = Some d
    /\ IDB.wf d
    /\ ids_ok d (cur w)
    /\ cursors_ok (cur w).

(** How many of the records are flagged read, and how long the run of
    read records at the start is. *)
Definition count_read (rs : list (Z * Item.t)) : nat :=
  List.length (filter (fun r => Item.read (snd r)) rs).


(** The read records come first. *)
Fixpoint read_first (rs : list (Z * Item.t)) : Prop :=
  match rs with
  | [] => True
  | r :: rest =>
      (if Item.read (snd r) then True else count_read rest = O)
      /\ read_first rest
  end.

End Cursor.

(* ------------------------------------------------------------------ *)
(** ** The feed registry

    feeds.js is not among the sources at hand; the registry is written
    down from section 4.3 of the specification: the feeds in round-robin
    order, and the feed records as persisted. *)

Module Feeds.

(** Modelled from the spec: the state of the registry, missing from the
    sources: the ids of the feeds in round-robin order, front first, and
    the persisted feed records by id. *)
Record registry : Type := mkRegistry {
  order : list Z;
  stored : list (Z * Feed.t)
}.

(** Modelled from the spec: lookup of a persisted feed record by id. *)
Fixpoint find_feed (id : Z) (fs : list (Z * Feed.t)) : option Feed.t :=
  match fs with
  | [] => None
  | (k, f) :: rest => if k =? id then Some f else find_feed id rest
  end.

(** Modelled from the spec: rewriting the persisted record of one feed. *)
Fixpoint replace_feed (id : Z) (g : Feed.t -> Feed.t) (fs : list (Z * Feed.t))
  : list (Z * Feed.t) :=
  match fs with
  | [] => []
  | (k, f) :: rest =>
      if k =? id then (k, g f) :: rest else (k, f) :: replace_feed id g rest
  end.

(** Modelled from the spec: [Feeds.first()], missing from the sources:
    "peek the feed at the front of round-robin order, or nothing if no
    feeds". *)
Definition first (r : registry) : option Z := hd_error (order r).

(** Modelled from the spec: [Feeds.rotate()], missing from the sources:
    "move the feed just polled to the back of the order". *)
Definition rotate (r : registry) : registry :=
  match order r with
  | [] => r
  | front :: rest => mkRegistry (rest ++ [front]) (stored r)
  end.

(** Modelled from the spec: [Feeds.get(db, id)], missing from the sources:
    the stored feed record, or undefined. *)
Definition get (db : IDB.handle) (r : registry) (id : Z)
  : settled (option Feed.t) :=
  match db with
  | Some _ => Fulfilled (find_feed id (stored r))
  | None => Rejected IDB.null_db
  end.

(** Modelled from the spec: [Feeds.updateFeed(db, feed)], missing from the
    sources: "persist full record". *)
Definition updateFeed (db : IDB.handle) (r : registry) (feed : Feed.t)
  : settled unit * registry :=
  match db with
  | Some _ =>
      (Fulfilled tt,
       mkRegistry (order r)
                  (replace_feed (Feed.id feed) (fun _ => feed) (stored r)))
  | None => (Rejected IDB.null_db, r)
  end.

(** Modelled from the spec: [Feeds.touchFeed(db, feed)], missing from the
    sources: "persist only lastLoadTime". *)
Definition touchFeed (db : IDB.handle) (r : registry) (feed : Feed.t)
  : settled unit * registry :=
  match db with
  | Some _ =>
      (Fulfilled tt,
       mkRegistry (order r)
                  (replace_feed (Feed.id feed)
                     (Feed.set_lastLoadTime (Feed.lastLoadTime feed))
                     (stored r)))
  | None => (Rejected IDB.null_db, r)
  end.

(** Modelled from the spec: [Feeds.loadItems(db, feed)], missing from the
    sources: "fetch and normalize its entries", and "always update
    lastLoadTime".  [fetch] stands for the network and the normalizer
    together: the items a poll of the feed yields. *)
Definition loadItems (fetch : Feed.t -> list Item.t) (now : Z)
           (db : IDB.handle) (r : registry) (feed : Feed.t)
  : settled (list Item.t) * registry :=
  match touchFeed db r (Feed.set_lastLoadTime now feed) with
  | (Fulfilled _, r') => (Fulfilled (fetch feed), r')
  | (Rejected e, r') => (Rejected e, r')
  end.

(** Modelled from the spec: [Feeds.removeFeed(db, id)], missing from the
    sources: "signals not-found as expected", that is, with the store's
    own exception. *)
Definition removeFeed (db : IDB.handle) (r : registry) (id : Z)
  : settled unit * registry :=
  match db with
  | None => (Rejected IDB.null_db, r)
  | Some _ =>
      match find_feed id (stored r) with
      | None => (Rejected (DOMException "NotFoundError"), r)
      | Some _ =>
          (Fulfilled tt,
           mkRegistry (filter (fun k => negb (k =? id)) (order r))
                      (filter (fun kf => negb (fst kf =? id)) (stored r)))
      end
  end.

End Feeds.

(* ------------------------------------------------------------------ *)
(** ** airss_model.js: the promise chain and the scheduler

    Every client function replaces the module variable [state] by the
    promise of a callback that first awaits the previous [state].  The
    callbacks therefore run one after the other, each from the outcome of
    its predecessor, and each is modelled as a function of that outcome and
    of the state of the model layer.  [await prev] on a rejected promise
    throws the rejection inside the callback; no callback catches it, so
    the callback's own promise is rejected with the same error before any
    of its statements has run. *)

Module Model.

Definition WaterMark : Z := 10.

Definition MinReloadWait : Z := 3600 * 1000.

(** The callback side: [db], the module state of items.js, the feed
    registry, and the events posted so far (oldest first). *)
Record model : Type := mkModel {
  db : IDB.handle;
  cursor : Items.state;
  feeds : Feeds.registry;
  events : list event
}.

Definition emit (ev : event) (m : model) : model :=
  mkModel (db m) (cursor m) (feeds m) (events m ++ [ev]).

Definition emitModelAlert (type text : string) (m : model) : model :=
  emit (AirSSModelAlert type text) m.

Definition emitModelWarning (text : string) : model -> model :=
  emitModelAlert "warning" text.

Definition emitModelError (text : string) : model -> model :=
  emitModelAlert "error" text.

Definition emitModelInfo (text : string) : model -> model :=
  emitModelAlert "info" text.

Definition emitItemsLoaded (m : model) : model :=
  emit (AirSSModelItemsLoaded (Items.length (cursor m))
                              (Items.readingCursor (cursor m))) m.

Definition emitShutDown : model -> model := emit AirSSModelShutDown.

Definition cb_shutdown {A} (prev : settled A) (m : model)
  : settled unit * model :=
  match prev with
  | Rejected e => (Rejected e, m)
  | Fulfilled _ =>
      match db m with
      | None => (Rejected IDB.null_db, m)
      | Some _ =>
          (Fulfilled tt,
           emitShutDown (mkModel None (cursor m) (feeds m) (events m)))
      end
  end.

Definition cb_currentItem {A} (prev : settled A) (m : model)
  : settled (option Item.t) * model :=
  match prev with
  | Rejected e => (Rejected e, m)
  | Fulfilled _ => (Items.getCurrentItem (db m) (cursor m), m)
  end.

Definition cb_forwardItem {A} (prev : settled A) (m : model)
  : settled (option Item.t) * model :=
  match prev with
  | Rejected e => (Rejected e, m)
  | Fulfilled _ =>
      match Items.forwardCursor (cursor m) with
      | (false, _) => (Fulfilled None, emitModelWarning "Already at the end" m)
      | (true, st') =>
          (Items.getCurrentItem (db m) st',
           mkModel (db m) st' (feeds m) (events m))
      end
  end.

Definition cb_backwardItem {A} (prev : settled A) (m : model)
  : settled (option Item.t) * model :=
  match prev with
  | Rejected e => (Rejected e, m)
  | Fulfilled _ =>
      match Items.backwardCursor (cursor m) with
      | (false, _) =>
          (Fulfilled None, emitModelWarning "Already at the beginning" m)
      | (true, st') =>
          (Items.getCurrentItem (db m) st',
           mkModel (db m) st' (feeds m) (events m))
      end
  end.

Definition cb_deleteItem {A} (prev : settled A) (m : model)
  : settled bool * model :=
  match prev with
  | Rejected e => (Rejected e, m)
  | Fulfilled _ =>
      let '(r, db', st') := Items.deleteCurrentItem (db m) (cursor m) in
      (r, mkModel db' st' (feeds m) (events m))
  end.

(** [cb_markRead] is the one callback that uses what its predecessor
    resolved to: the item [cb_forwardItem] returned, or null. *)
Definition cb_markRead (prev : settled (option Item.t)) (m : model)
  : settled unit * model :=
  match prev with
  | Rejected e => (Rejected e, m)
  | Fulfilled None => (Fulfilled tt, m)
  | Fulfilled (Some item) =>
      let '(r, db') := Items.markRead (db m) item in
      (r, mkModel db' (cursor m) (feeds m) (events m))
  end.

Definition cb_unsubscribe {A} (prev : settled A) (id : Z) (m : model)
  : settled unit * model :=
  match prev with
  | Rejected e => (Rejected e, m)
  | Fulfilled _ =>
      match Feeds.removeFeed (db m) (feeds m) id with
      | (Fulfilled _, r') =>
          (Fulfilled tt,
           emitModelInfo "Feed unsubscribed"
             (mkModel (db m) (cursor m) r' (events m)))
      | (Rejected e, r') =>
          if is_DOMException e
          then (Fulfilled tt,
                emitModelError "Feed not found"
                  (mkModel (db m) (cursor m) r' (events m)))
          else (Rejected e, mkModel (db m) (cursor m) r' (events m))
      end
  end.

Definition shouldLoadMore (m : model) : bool :=
  Items.unreadCount (cursor m) <? WaterMark.

(** What [num] is when [Feeds.first()] has no feed to offer. *)
Definition no_candidate : Z := -1.

(** What [loadFeed] returns when the feed is still within its wait. *)
Definition not_loaded : Z := -1.

(** [loadFeed(feedId)]; [now] is what [new Date()] reads, [fetch] what a
    poll of a feed yields. *)
Definition loadFeed (fetch : Feed.t -> list Item.t) (now : Z) (feedId : Z)
           (m : model) : settled Z * model :=
  match Feeds.get (db m) (feeds m) feedId with
  | Rejected e => (Rejected e, m)
  | Fulfilled None => (Rejected (TypeError "feed is undefined"), m)
  | Fulfilled (Some feed) =>
      if Feed.lastLoadTime feed <=? now - MinReloadWait then
        match Feeds.loadItems fetch now (db m) (feeds m) feed with
        | (Rejected e, r') =>
            (Rejected e, mkModel (db m) (cursor m) r' (events m))
        | (Fulfilled newItems, r') =>
            let oldCount := Items.length (cursor m) in
            match push_reverse newItems (db m) (cursor m) with
            | (Rejected e, db', st') =>
                (Rejected e, mkModel db' st' r' (events m))
            | (Fulfilled _, db', st') =>
                let num := Items.length st' - oldCount in
                let m' := mkModel db' st' (Feeds.rotate r') (events m) in
                (Fulfilled num, if num >? 0 then emitItemsLoaded m' else m')
            end
        end
      else (Fulfilled not_loaded, m)
  end.

(** [if (feedId)] on what [Feeds.first()] returned. *)
Definition is_feedId (f : option Z) : bool :=
  match f with
  | Some id => negb (id =? 0)
  | None => false
  end.

(** [loadMore()]: the do-while loop, one unit of [fuel] per round; [None]
    when the fuel runs out.  [clock k] is the time at the k-th coming
    round. *)
Fixpoint loadMore (fuel : nat) (fetch : Feed.t -> list Item.t)
         (clock : nat -> Z) (m : model) : option (settled unit * model) :=
  match fuel with
  | O => None
  | S fuel' =>
      let '(num, m') :=
        match Feeds.first (feeds m) with
        | Some feedId =>
            if is_feedId (Some feedId)
            then loadFeed fetch (clock O) feedId m
            else (Fulfilled no_candidate, m)
        | None => (Fulfilled no_candidate, m)
        end in
      match num with
      | Rejected e => Some (Rejected e, m')
      | Fulfilled n =>
          if (n >=? 0) && shouldLoadMore m'
          then loadMore fuel' fetch (fun k => clock (S k)) m'
          else Some (Fulfilled tt, m')
      end
  end.

Definition cb_loadMore {A} (fuel : nat) (fetch : Feed.t -> list Item.t)
           (clock : nat -> Z) (prev : settled A) (m : model)
  : option (settled unit * model) :=
  match prev with
  | Rejected e => Some (Rejected e, m)
  | Fulfilled _ =>
      if shouldLoadMore m then loadMore fuel fetch clock m
      else Some (Fulfilled tt, m)
  end.

(** [init()] on the database as persisted: the handle is opened, the
    cursor store loaded, and the two events posted.  The registry is taken
    as [Feeds.load] leaves it. *)
Definition init (d : IDB.objectStore) (r : Feeds.registry) : model :=
  let m := mkModel (Some d) (snd (Items.load (Some d) Items.init)) r [] in
  emit AirSSModelInitDone (emitItemsLoaded m).

(** *** The client side *)

(** The client side: the module variable [state], of which only the
    outcome matters to the callbacks chained behind it, next to the
    callback side. *)
Record client : Type := mkClient {
  state : settled unit;
  world : model
}.

Definition settle {A} (p : settled A) : settled unit :=
  match p with
  | Fulfilled _ => Fulfilled tt
  | Rejected e => Rejected e
  end.

(** The environment of a run: fuel for the loops, the polls and the clock. *)
Record env : Type := mkEnv {
  fuel : nat;
  fetch : Feed.t -> list Item.t;
  clock : nat -> Z
}.

Definition forwardItem (E : env) (c : client)
  : option (settled (option Item.t) * client) :=
  let '(value, m1) := cb_forwardItem (state c) (world c) in
  let '(s2, m2) := cb_markRead value m1 in
  match cb_loadMore (fuel E) (fetch E) (clock E) s2 m2 with
  | Some (s3, m3) => Some (value, mkClient s3 m3)
  | None => None
  end.

Definition backwardItem (c : client) : settled (option Item.t) * client :=
  let '(value, m1) := cb_backwardItem (state c) (world c) in
  (value, mkClient (settle value) m1).

Definition deleteItem (c : client) : settled bool * client :=
  let '(value, m1) := cb_deleteItem (state c) (world c) in
  (value, mkClient (settle value) m1).

Definition currentItem (E : env) (c : client)
  : option (settled (option Item.t) * client) :=
  let '(value, m1) := cb_currentItem (state c) (world c) in
  match cb_loadMore (fuel E) (fetch E) (clock E) value m1 with
  | Some (s2, m2) => Some (value, mkClient s2 m2)
  | None => None
  end.

Definition unsubscribe (id : Z) (c : client) : client :=
  let '(s1, m1) := cb_unsubscribe (state c) id (world c) in
  mkClient s1 m1.

Definition shutdown (c : client) : settled unit * client :=
  let '(s1, m1) := cb_shutdown (state c) (world c) in
  (s1, mkClient s1 m1).

(** A call of the client side, and the outcome of the promise it hands
    back (for [unsubscribe], which hands back nothing, of the promise it
    leaves in [state]). *)
Inductive call : Type :=
| ForwardItem
| BackwardItem
| DeleteItem
| CurrentItem
| Unsubscribe (id : Z)
| Shutdown.

Definition do_call (E : env) (k : call) (c : client)
  : option (settled unit * client) :=
  match k with
  | ForwardItem =>
      match forwardItem E c with
      | Some (v, c') => Some (settle v, c')
      | None => None
      end
  | BackwardItem => let '(v, c') := backwardItem c in Some (settle v, c')
  | DeleteItem => let '(v, c') := deleteItem c in Some (settle v, c')
  | CurrentItem =>
      match currentItem E c with
      | Some (v, c') => Some (settle v, c')
      | None => None
      end
  | Unsubscribe id => let c' := unsubscribe id c in Some (state c', c')
  | Shutdown => let '(v, c') := shutdown c in Some (v, c')
  end.

(** A sequence of calls, with the outcomes in the order of the calls. *)
Fixpoint do_calls (E : env) (ks : list call) (c : client)
  : option (list (settled unit) * client) :=
  match ks with
  | [] => Some ([], c)
  | k :: rest =>
      match do_call E k c with
      | None => None
      | Some (v, c') =>
          match do_calls E rest c' with
          | None => None
          | Some (vs, c'') => Some (v :: vs, c'')
          end
      end
  end.

End Model.

(* ------------------------------------------------------------------ *)
(** ** The second variant of the model layer

    Here the polling is driven from outside: a loader asks for a feed to
    load ([cb_getLoadCandidate]), fetches it, and hands the feed and its
    items back ([cb_updateFeed]).  Both callbacks are chained like all the
    others.  The state of the callback side is the one of [Model]. *)

Module Model2.

(** The three settings read from localStorage, with their defaults:
    items, hours, days. *)
Record config : Type := mkConfig {
  WaterMark : Z;
  MinReloadWait : Z;
  MaxKeptPeriod : Z
}.

Definition default_config : config := mkConfig 10 12 180.

Definition emitModelError (text : string) : Model.model -> Model.model :=
  Model.emit (AirSSModelAlert "error" text).

Definition emitModelItemsLoaded (m : Model.model) : Model.model :=
  Model.emit (AirSSModelItemsLoaded (Items.length (Model.cursor m))
                                    (Items.readingCursor (Model.cursor m))) m.

Definition with_items (db : IDB.handle) (st : Items.state) (m : Model.model)
  : Model.model :=
  Model.mkModel db st (Model.feeds m) (Model.events m).

Definition with_feeds (r : Feeds.registry) (m : Model.model) : Model.model :=
  Model.mkModel (Model.db m) (Model.cursor m) r (Model.events m).

(** [oopsItem(feed)]; [now] is what its own [new Date()] reads and [rnd]
    what [Math.random().toString(36).substring(2, 15)] comes to. *)
Definition oopsItem (now : Z) (rnd : string) (feed : Feed.t) : Item.t :=
  Item.mk None false (Some (Feed.title feed)) (Some (Feed.id feed))
          (Some (DateNow now))
          (String.append "If you see this, this feed '"
             (String.append (Feed.feedUrl feed)
                (String.append "' failed loading:"
                               "Check the console for the detail error.")))
          rnd None (Some "Oops..."%string) ["_error"%string].

Definition dummyItem (cfg : config) (now : Z) (rnd : string) (feed : Feed.t)
  : Item.t :=
  Item.mk None false (Some (Feed.title feed)) (Some (Feed.id feed))
          (Some (DateNow now))
          (String.append "If you see this, this feed '"
             (String.append (Feed.feedUrl feed)
                (String.append "' hasn't been updated for "
                   (String.append
                      (NilZero.string_of_int (Z.to_int (MaxKeptPeriod cfg)))
                      " days. There is nothing wrong, just too quiet."))))
          rnd None (Some "Errrr..."%string) ["_error"%string].

(** The last statements of [cb_updateFeed]: the time stamp, and the feed
    persisted in full when something was pushed, touched otherwise. *)
Definition stamp_feed (now : Z) (feed : Feed.t) (num : Z) (m : Model.model)
  : settled unit * Model.model :=
  let feed' := Feed.set_lastLoadTime now feed in
  if num >? 0 then
    match Feeds.updateFeed (Model.db m) (Model.feeds m) feed' with
    | (Fulfilled _, r') => (Fulfilled tt, emitModelItemsLoaded (with_feeds r' m))
    | (Rejected e, r') => (Rejected e, with_feeds r' m)
    end
  else
    match Feeds.touchFeed (Model.db m) (Model.feeds m) feed' with
    | (Fulfilled _, r') => (Fulfilled tt, with_feeds r' m)
    | (Rejected e, r') => (Rejected e, with_feeds r' m)
    end.

(** [cb_updateFeed(prev, feed, items)]; [now] is the time read at its
    start, [later] the time read when a placeholder item is made.  The
    closing [Loader.load()] only queues further callbacks behind this one
    and is left out. *)
Definition cb_updateFeed {A} (cfg : config) (now later : Z) (rnd : string)
           (prev : settled A) (feed : Feed.t) (items : list Item.t)
           (m : Model.model) : settled unit * Model.model :=
  match prev with
  | Rejected e => (Rejected e, m)
  | Fulfilled _ =>
      let oldCount := Items.length (Model.cursor m) in
      match push_reverse items (Model.db m) (Model.cursor m) with
      | (Rejected e, db', st') => (Rejected e, with_items db' st' m)
      | (Fulfilled _, db', st') =>
          let num := Items.length st' - oldCount in
          let m1 := with_items db' st' m in
          if Items.truthy (Feed.error feed) then
            let m2 :=
              emitModelError
                (String.append "The feed '"
                   (String.append (Feed.feedUrl feed) "' faild to load")) m1 in
            match Items.pushItem (Model.db m2) (oopsItem later rnd feed)
                                 (Model.cursor m2) with
            | (Rejected e, db2, st2) => (Rejected e, with_items db2 st2 m2)
            | (Fulfilled _, db2, st2) =>
                stamp_feed now (Feed.delete_error feed) (num + 1)
                           (with_items db2 st2 m2)
            end
          else if (num =? 0)
                  && (Feed.lastLoadTime feed
                      <? now - MaxKeptPeriod cfg * 24 * 3600 * 1000) then
            match Items.pushItem (Model.db m1) (dummyItem cfg later rnd feed)
                                 (Model.cursor m1) with
            | (Rejected e, db2, st2) => (Rejected e, with_items db2 st2 m1)
            | (Fulfilled _, db2, st2) =>
                stamp_feed now feed (num + 1) (with_items db2 st2 m1)
            end
          else stamp_feed now feed num m1
      end
  end.

(** [cb_getLoadCandidate(prev)]: the feed to load, or null (here [None]). *)
Definition cb_getLoadCandidate {A} (cfg : config) (now : Z)
           (prev : settled A) (m : Model.model)
  : settled (option Feed.t) * Model.model :=
  match prev with
  | Rejected e => (Rejected e, m)
  | Fulfilled _ =>
      if Items.unreadCount (Model.cursor m) >=? WaterMark cfg
      then (Fulfilled None, m)
      else
        match Feeds.first (Model.feeds m) with
        | None => (Fulfilled None, m)
        | Some feedId =>
            if negb (Model.is_feedId (Some feedId)) then (Fulfilled None, m)
            else
              match Feeds.get (Model.db m) (Model.feeds m) feedId with
              | Rejected e => (Rejected e, m)
              | Fulfilled None =>
                  (Rejected (TypeError "feed is undefined"), m)
              | Fulfilled (Some feed) =>
                  if Feed.lastLoadTime feed
                     >? now - MinReloadWait cfg * 3600 * 1000
                  then (Fulfilled None, m)
                  else (Fulfilled (Some feed),
                        with_feeds (Feeds.rotate (Model.feeds m)) m)
              end
        end
  end.

End Model2.

(* ------------------------------------------------------------------ *)
(** ** Text search, for statements about what a text carries *)

Fixpoint contains (needle hay : string) : bool :=
  if String.prefix needle hay then true
  else
    match hay with
    | EmptyString => false
    | String _ rest => contains needle rest
    end.

(* ------------------------------------------------------------------ *)
(** ** Sample data *)

Module Sample.

Definition stored (k : Z) (rd : bool) (u : string) : Item.t :=
  Item.mk (Some k) rd (Some "Feed"%string) (Some 1) None "<p>text</p>" u None None [].

Definition fresh (u : string) : Item.t :=
  Item.mk None false (Some "Feed"%string) (Some 1) None "<p>text</p>" u None None [].

(** The same entry fetched again, its text edited in between. *)
Definition refetched (u : string) : Item.t :=
  Item.mk None false (Some "Feed"%string) (Some 1) None "<p>edited</p>" u None None [].

(** Two stored items, the first one read. *)
Definition db_two : IDB.objectStore :=
  IDB.mkStore [(1, stored 1 true "http://a/1"); (2, stored 2 false "http://a/2")] 3.

(** Two stored items, only the second one flagged read. *)
Definition db_gap : IDB.objectStore :=
  IDB.mkStore [(1, stored 1 false "http://a/1"); (2, stored 2 true "http://a/2")] 3.

Definition w_two : Cursor.world :=
  Cursor.run Cursor.ForwardCursor
    (Cursor.run Cursor.Load (Cursor.mkWorld (Some db_two) Items.init)).

(** A JSON feed entry with plain text only, and one with no body. *)
Definition json_text : Items.json_entry :=
  Items.mkJson (Some "2020-05-01T10:00:00Z"%string) None
               (Some "hello"%string) (Some "http://a/9"%string) None
               (Some "Nine"%string) None.

Definition json_bare : Items.json_entry :=
  Items.mkJson None None None (Some "http://a/9"%string) None
               (Some "Nine"%string) None.

(** An RSS item and an Atom entry with a link and a title but neither
    body nor summary. *)
Definition rss_bare : Items.xml_elem :=
  [Items.mkNode "title" [] "Nine"; Items.mkNode "link" [] "http://a/9"].

Definition atom_bare : Items.xml_elem :=
  [Items.mkNode "title" [] "Nine";
   Items.mkNode "link" [("href", "http://a/9")]%string "";
   Items.mkNode "updated" [] "2020-05-01T10:00:00Z"].

(** An RSS item whose content:encoded holds only white space, with a
    description and an enclosure. *)
Definition rss_blank_content : Items.xml_elem :=
  [Items.mkNode "title" [] "Nine";
   Items.mkNode "link" [] "http://a/9";
   Items.mkNode "encoded" [] "  ";
   Items.mkNode "description" [] " plain words ";
   Items.mkNode "enclosure"
                [("url", "http://a/9.png"); ("type", "image/png")]%string ""].

(** A JSON feed entry with both bodies, the rich one empty. *)
Definition json_both : Items.json_entry :=
  Items.mkJson None (Some ""%string) (Some "hello"%string)
               (Some "http://a/9"%string) None None None.

(** An Atom entry with content, a plain link and an alternate link. *)
Definition atom_two_links : Items.xml_elem :=
  [Items.mkNode "link" [("href", "http://a/self")]%string "";
   Items.mkNode "link" [("rel", "alternate"); ("href", "http://a/page")]%string "";
   Items.mkNode "content" [] "<b>body</b>"].

(** The no-break space U+00A0. *)
Definition nbsp : string := Items.bytes [194; 160]%nat.

(** The bare Atom entry with a summary edged by no-break spaces, and with
    a content of one no-break space. *)
Definition atom_nbsp_summary : Items.xml_elem :=
  atom_bare
  ++ [Items.mkNode "summary" []
                   (String.append nbsp (String.append "hello" nbsp))].

Definition atom_nbsp_content : Items.xml_elem :=
  atom_bare ++ [Items.mkNode "content" [] nbsp].

(** The same Atom entry with a summary. *)
Definition atom_summary : Items.xml_elem :=
  atom_bare ++ [Items.mkNode "summary" [] " hello "].

(** Two feeds: A was never loaded, B was loaded a little while ago. *)
Definition feedA : Feed.t := Feed.mk 1 "http://a/feed" "A" 0 None.
Definition feedB : Feed.t := Feed.mk 2 "http://b/feed" "B" 9000000 None.

Definition reg_AB : Feeds.registry :=
  Feeds.mkRegistry [1; 2] [(1, feedA); (2, feedB)].

Definition reg_BA : Feeds.registry :=
  Feeds.mkRegistry [2; 1] [(1, feedA); (2, feedB)].

(** A poll of either feed yields one new entry. *)
Definition one_entry (f : Feed.t) : list Item.t :=
  [fresh (String.append (Feed.feedUrl f) "/new")].

Definition at_ten_million : nat -> Z := fun _ => 10000000.

Definition E : Model.env := Model.mkEnv 5 one_entry at_ten_million.

(** The client right after [init] over [db_two]. *)
Definition c0 (r : Feeds.registry) : Model.client :=
  Model.mkClient (Fulfilled tt) (Model.init db_two r).

(** The client after [shutdown()] and a [currentItem()] that found the
    handle gone. *)
Definition c_faulted : Model.client :=
  Model.mkClient
    (Rejected IDB.null_db)
    (Model.emit AirSSModelShutDown
       (Model.mkModel None (Cursor.loaded db_two) reg_AB
                      (Model.events (Model.init db_two reg_AB)))).

(** The callback side right after [init] over [db_two], feed B in front. *)
Definition m_BA : Model.model := Model.init db_two reg_BA.

(** The same with no feed subscribed. *)
Definition m_none : Model.model :=
  Model.init db_two (Feeds.mkRegistry [] []).

(** Feed A as the loader hands it back after a failed fetch. *)
Definition feedA_failed : Feed.t :=
  Feed.mk 1 "http://a/feed" "A" 0
          (Some "NetworkError when attempting to fetch resource."%string).

End Sample.

(* ------------------------------------------------------------------ *)
(** ** What is persisted, for statements about pushes and restarts *)

Module Persist.

(** The records the store makes of a run of new items when the key
    generator stands at [g]: one key after the other, each written into
    the item it is given to. *)
Fixpoint stamped (g : Z) (l : list Item.t) : list (Z * Item.t) :=
  match l with
  | [] => []
  | it :: rest => (g, Item.set_id g it) :: stamped (g + 1) rest
  end.

(** Every stored item carries its key as [id], as a store with
    [keyPath: "id"] has it. *)
Definition keyed (s : IDB.objectStore) : Prop :=
  Forall (fun r => Item.id (snd r) = Some (fst r)) (IDB.records s).

(** The [read] flags in key order. *)
Definition flags (s : IDB.objectStore) : list bool :=
  map (fun r => Item.read (snd r)) (IDB.records s).

(** An item as the normalizers make it: no id, not read. *)
Definition brand_new (it : Item.t) : Prop :=
  Item.id it = None /\ Item.read it = false.

(** The module state mirrors the store: the id list is the list of
    stored keys, the cursors are in order, and the items flagged read are
    exactly those up to [known]. *)
Definition mirrors (d : IDB.objectStore) (st : Items.state) : Prop :=
  IDB.wf d
  /\ keyed d
  /\ Items.items st = IDB.keys d
  /\ Cursor.cursors_ok st
  /\ flags d
     = repeat true (Z.to_nat (Items.known st + 1))
       ++ repeat false (Z.to_nat (Items.length st - Items.known st - 1)).

(** The same of the callback side, database open. *)
Definition model_mirrors (m : Model.model) : Prop :=
  exists d : IDB.objectStore,
    Model.db m = Some d /\ mirrors d (Model.cursor m).

End Persist.

(* ------------------------------------------------------------------ *)
(** ** airss_model.js: subscribing

    [cb_subscribe] calls [Feeds.sanitize] and [Feeds.addFeed], which are
    not among the sources at hand; what they do is taken as given, and
    [cb_subscribe] is written over their outcomes. *)

Module Subscribe.

(** How [Feeds.sanitize(url)] can end: with a feed, or by throwing a
    string or an error object. *)
Inductive sanitized : Type :=
| Sanitized (feed : Feed.t)
| ThrewString (s : string)
| Threw (e : error).

(** ["" + e] for a TypeError. *)
Definition type_error_text (msg : string) : string :=
  if String.eqb msg "" then "TypeError"%string
  else String.append "TypeError: " msg.

Definition quoted (url rest : string) : string :=
  String.append "The feed '" (String.append url rest).

Definition with_feeds (r : Feeds.registry) (m : Model.model) : Model.model :=
  Model.mkModel (Model.db m) (Model.cursor m) r (Model.events m).

Definition cb_subscribe {A}
           (sanitize : string -> sanitized)
           (addFeed : IDB.handle -> Feeds.registry -> Feed.t
                      -> settled Z * Feeds.registry)
           (prev : settled A) (url : string) (m : Model.model)
  : settled unit * Model.model :=
  match prev with
  | Rejected e => (Rejected e, m)
  | Fulfilled _ =>
      match sanitize url with
      | ThrewString s =>
          (Fulfilled tt,
           Model.emitModelError
             (quoted url (String.append "' is not valid: " s)) m)
      | Threw (TypeError msg) =>
          (Fulfilled tt,
           Model.emitModelError
             (quoted url (String.append "' is not valid: "
                                        (type_error_text msg))) m)
      | Threw e => (Rejected e, m)
      | Sanitized feed =>
          match addFeed (Model.db m) (Model.feeds m) feed with
          | (Fulfilled _, r') =>
              (Fulfilled tt,
               Model.emitModelInfo (quoted url "' is now subscribed")
                                   (with_feeds r' m))
          | (Rejected e, r') =>
              if is_DOMException e
              then (Fulfilled tt,
                    Model.emitModelInfo (quoted url "' is now subscribed")
                      (Model.emitModelError
                         (quoted url "' is already subscribed")
                         (with_feeds r' m)))
              else (Rejected e, with_feeds r' m)
          end
      end
  end.

End Subscribe.

(** A subscription that the registry refuses: the url is fine, the feed
    is there already. *)
Module SampleSubscribe.

Definition sanitize_fine (url : string) : Subscribe.sanitized :=
  Subscribe.Sanitized (Feed.mk 0 url "A" 0 None).

Definition addFeed_taken (db : IDB.handle) (r : Feeds.registry) (feed : Feed.t)
  : settled Z * Feeds.registry :=
  (Rejected (DOMException "ConstraintError"), r).

End SampleSubscribe.

(* ================================================================== *)
(** * Verified properties *)

(** ** Lists and slices *)

Lemma rel_index_in_range (len i : Z) :
  0 <= i <= len -> Items.rel_index len i = i.
Proof.
  intros H. unfold Items.rel_index.
  destruct (i <? 0) eqn:E; [apply Z.ltb_lt in E; lia | lia].
Qed.

Lemma slice_upto {A} (l : list A) (r : Z) :
  0 <= r <= Z.of_nat (List.length l) ->
  Items.slice l 0 r = firstn (Z.to_nat r) l.
Proof.
  intros H. unfold Items.slice.
  rewrite !rel_index_in_range by lia.
  simpl. now rewrite Z.sub_0_r.
Qed.

Lemma slice_from_at {A} (l : list A) (b : Z) :
  0 <= b <= Z.of_nat (List.length l) ->
  Items.slice_from l b = skipn (Z.to_nat b) l.
Proof.
  intros H. unfold Items.slice_from, Items.slice.
  rewrite !rel_index_in_range by lia.
  apply firstn_all2. rewrite length_skipn. lia.
Qed.

Lemma index_some {A} (l : list A) (i : Z) :
  0 <= i < Z.of_nat (List.length l) -> exists x, Items.index l i = Some x.
Proof.
  intros H. unfold Items.index.
  destruct (i <? 0) eqn:E; [apply Z.ltb_lt in E; lia |].
  destruct (nth_error l (Z.to_nat i)) eqn:N; [eauto |].
  apply nth_error_None in N. lia.
Qed.

Lemma index_split {A} (l : list A) (i : Z) (x : A) :
  Items.index l i = Some x ->
  0 <= i < Z.of_nat (List.length l) /\
  l = firstn (Z.to_nat i) l ++ x :: skipn (Z.to_nat (i + 1)) l.
Proof.
  unfold Items.index. destruct (i <? 0) eqn:E; [discriminate |].
  apply Z.ltb_ge in E. intros N.
  assert (L : (Z.to_nat i < List.length l)%nat)
    by (apply nth_error_Some; congruence).
  split; [lia |].
  replace (Z.to_nat (i + 1)) with (S (Z.to_nat i)) by lia.
  rewrite <- (firstn_skipn (Z.to_nat i) l) at 1. f_equal.
  revert N. generalize (Z.to_nat i) as n. clear.
  induction l as [| a l IH]; intros [| n] N; simpl in *; try discriminate.
  - now inversion N.
  - now apply IH.
Qed.

Lemma length_without {A} (l : list A) (i : Z) (x : A) :
  Items.index l i = Some x ->
  Z.of_nat (List.length (firstn (Z.to_nat i) l ++ skipn (Z.to_nat (i + 1)) l))
  = Z.of_nat (List.length l) - 1.
Proof.
  intros H. destruct (index_split _ _ _ H) as [Hr _].
  rewrite length_app, length_firstn, length_skipn. lia.
Qed.

Lemma NoDup_without {A} (l : list A) (i : Z) (x : A) :
  NoDup l -> Items.index l i = Some x ->
  NoDup (firstn (Z.to_nat i) l ++ skipn (Z.to_nat (i + 1)) l)
  /\ ~ In x (firstn (Z.to_nat i) l ++ skipn (Z.to_nat (i + 1)) l)
  /\ (forall y, In y (firstn (Z.to_nat i) l ++ skipn (Z.to_nat (i + 1)) l) ->
                In y l).
Proof.
  intros Hn Hx. destruct (index_split _ _ _ Hx) as [_ E].
  set (a := firstn (Z.to_nat i) l) in *.
  set (b := skipn (Z.to_nat (i + 1)) l) in *.
  rewrite E in Hn. split; [| split].
  - now apply NoDup_remove_1 in Hn.
  - now apply NoDup_remove_2 in Hn.
  - intros y Hy. rewrite E. apply in_app_or in Hy. apply in_or_app.
    simpl. tauto.
Qed.

(** ** The cursors after [load] and after each operation *)

Lemma load_scan_spec (rs : list (Z * Item.t)) (its : list Z) (kn : Z) :
  Items.load_scan rs its kn
  = (its ++ map fst rs, kn + Z.of_nat (Cursor.count_read rs)).
Proof.
  revert its kn. induction rs as [| [k v] rs IH]; intros its kn; simpl.
  - now rewrite app_nil_r, Z.add_0_r.
  - rewrite IH, <- app_assoc. simpl. unfold Cursor.count_read. simpl.
    destruct (Item.read v); simpl; f_equal; lia.
Qed.

Lemma load_open (d : IDB.objectStore) (st : Items.state) :
  Items.load (Some d) st
  = (Fulfilled tt,
     Items.mkState (IDB.keys d)
                   (Z.of_nat (Cursor.count_read (IDB.records d)) - 1)
                   (Z.of_nat (Cursor.count_read (IDB.records d)) - 1)).
Proof.
  unfold Items.load. cbn [IDB.scan]. rewrite load_scan_spec. cbn [app].
  unfold IDB.keys. do 2 f_equal; lia.
Qed.

Lemma count_read_le (rs : list (Z * Item.t)) :
  (Cursor.count_read rs <= List.length rs)%nat.
Proof. apply filter_length_le. Qed.




Lemma cursors_ok_init : Cursor.cursors_ok Items.init.
Proof. unfold Cursor.cursors_ok, Items.length. simpl. lia. Qed.

Lemma cursors_ok_load (db : IDB.handle) (st : Items.state) :
  Cursor.cursors_ok st -> Cursor.cursors_ok (snd (Items.load db st)).
Proof.
  intros H. destruct db as [d |]; [| exact H].
  rewrite load_open. unfold Cursor.cursors_ok, Items.length, IDB.keys. simpl.
  rewrite length_map. pose proof (count_read_le (IDB.records d)). lia.
Qed.

Lemma forwardCursor_spec (st : Items.state) :
  Items.forwardCursor st
  = if Items.reading st >=? Items.length st - 1 then (false, st)
    else (true, Items.mkState (Items.items st) (Items.reading st + 1)
                  (Z.max (Items.known st) (Items.reading st + 1))).
Proof.
  unfold Items.forwardCursor, Items.length.
  destruct (Items.reading st >=? _); [reflexivity |].
  destruct (Items.known st <? Items.reading st + 1) eqn:E; do 2 f_equal.
  - apply Z.ltb_lt in E. lia.
  - apply Z.ltb_ge in E. lia.
Qed.

Lemma cursors_ok_forward (st : Items.state) :
  Cursor.cursors_ok st -> Cursor.cursors_ok (snd (Items.forwardCursor st)).
Proof.
  rewrite forwardCursor_spec. unfold Cursor.cursors_ok, Items.length.
  destruct (Items.reading st >=? _) eqn:E; simpl; [tauto |].
  rewrite Z.geb_leb in E. apply Z.leb_gt in E. lia.
Qed.

Lemma cursors_ok_backward (st : Items.state) :
  Cursor.cursors_ok st -> Cursor.cursors_ok (snd (Items.backwardCursor st)).
Proof.
  unfold Items.backwardCursor, Cursor.cursors_ok, Items.length.
  destruct (Items.reading st <=? 0) eqn:E; simpl; [tauto |].
  apply Z.leb_gt in E. lia.
Qed.

Lemma cursors_ok_push (db : IDB.handle) (it : Item.t) (st : Items.state) :
  Cursor.cursors_ok st ->
  Cursor.cursors_ok (snd (Items.pushItem db it st)).
Proof.
  unfold Items.pushItem. destruct (IDB.add db it) as [[k | e] db']; simpl;
    [| tauto].
  unfold Cursor.cursors_ok, Items.length. simpl. rewrite length_app. simpl. lia.
Qed.

(** What [deleteCurrentItem] does on an open database when an item is
    under the cursor. *)
Lemma deleteCurrentItem_at (d : IDB.objectStore) (st : Items.state) (k : Z) :
  0 <= Items.reading st ->
  Items.index (Items.items st) (Items.reading st) = Some k ->
  Items.deleteCurrentItem (Some d) st
  = (Fulfilled true, Some (IDB.store_delete d k),
     Items.mkState
       (firstn (Z.to_nat (Items.reading st)) (Items.items st)
        ++ skipn (Z.to_nat (Items.reading st + 1)) (Items.items st))
       (Items.reading st - 1) (Items.known st - 1)).
Proof.
  intros H0 Hk. unfold Items.deleteCurrentItem.
  destruct (Items.reading st <? 0) eqn:E; [apply Z.ltb_lt in E; lia |].
  rewrite Hk. destruct (index_split _ _ _ Hk) as [Hr _]. cbn [IDB.delete].
  rewrite slice_upto, slice_from_at by lia. reflexivity.
Qed.

Lemma cursors_ok_delete (db : IDB.handle) (st : Items.state) :
  Cursor.cursors_ok st ->
  Cursor.cursors_ok (snd (Items.deleteCurrentItem db st)).
Proof.
  intros H. unfold Items.deleteCurrentItem.
  destruct (Items.reading st <? 0) eqn:E; [exact H |].
  apply Z.ltb_ge in E.
  destruct (Items.index _ _) as [k |] eqn:Hk; [| exact H].
  destruct (IDB.delete db k) as [[[] | e] db']; [| exact H].
  destruct (index_split _ _ _ Hk) as [Hr _].
  rewrite slice_upto, slice_from_at by lia.
  unfold Cursor.cursors_ok, Items.length in *. simpl.
  rewrite (length_without _ _ _ Hk). lia.
Qed.

Lemma cursors_ok_run (o : Cursor.op) (w : Cursor.world) :
  Cursor.cursors_ok (Cursor.cur w) ->
  Cursor.cursors_ok (Cursor.cur (Cursor.run o w)).
Proof.
  intros H. destruct o; simpl.
  - now apply cursors_ok_load.
  - pose proof (cursors_ok_push (Cursor.db w) it _ H) as P.
    destruct (Items.pushItem (Cursor.db w) it (Cursor.cur w)) as [[r d'] st'].
    exact P.
  - now apply cursors_ok_forward.
  - now apply cursors_ok_backward.
  - exact H.
  - pose proof (cursors_ok_delete (Cursor.db w) _ H) as P.
    destruct (Items.deleteCurrentItem (Cursor.db w) (Cursor.cur w))
      as [[r d'] st'].
    exact P.
Qed.

Lemma reachable_cursors_ok (w : Cursor.world) :
  Cursor.reachable w -> Cursor.cursors_ok (Cursor.cur w).
Proof.
  induction 1 as [d Hd | o w Hw IH].
  - apply cursors_ok_init.
  - now apply cursors_ok_run.
Qed.

Lemma cursors_ok_moves (ms : list Cursor.move) (st : Items.state) :
  Cursor.cursors_ok st -> Cursor.cursors_ok (Cursor.do_moves ms st).
Proof.
  revert st. induction ms as [| m ms IH]; intros st H; simpl; [exact H |].
  apply IH. destruct m; simpl.
  - now apply cursors_ok_forward.
  - now apply cursors_ok_backward.
Qed.

(** ** The object store keeps its guarantees *)

Lemma has_key_In (k : Z) (rs : list (Z * Item.t)) :
  IDB.has_key k rs = true <-> In k (map fst rs).
Proof.
  unfold IDB.has_key. rewrite existsb_exists, in_map_iff. split.
  - intros (r & Hr & E). apply Z.eqb_eq in E. eauto.
  - intros (r & E & Hr). exists r. split; [exact Hr | now apply Z.eqb_eq].
Qed.

Lemma url_taken_In (u : string) (rs : list (Z * Item.t)) :
  IDB.url_taken u None rs = true <-> In u (map IDB.url_of rs).
Proof.
  unfold IDB.url_taken. rewrite existsb_exists, in_map_iff. split.
  - intros (r & Hr & E). rewrite andb_true_r in E.
    apply String.eqb_eq in E. eauto.
  - intros (r & E & Hr). exists r. split; [exact Hr |].
    rewrite andb_true_r. now apply String.eqb_eq.
Qed.

Lemma url_taken_except (u : string) (k : Z) (rs : list (Z * Item.t)) :
  IDB.url_taken u (Some k) rs = false ->
  forall r, In r rs -> IDB.url_of r = u -> fst r = k.
Proof.
  unfold IDB.url_taken. intros H r Hr E.
  destruct (Z.eq_dec (fst r) k) as [Ek | Nk]; [exact Ek | exfalso].
  assert (T : existsb
                (fun r0 => (Item.url (snd r0) =? u)%string
                           && negb (fst r0 =? k)) rs = true).
  { apply existsb_exists. exists r. split; [exact Hr |].
    apply andb_true_iff. split; [now apply String.eqb_eq |].
    apply negb_true_iff. now apply Z.eqb_neq. }
  congruence.
Qed.

Lemma insert_key_perm (k : Z) (v : Item.t) (rs : list (Z * Item.t)) :
  Permutation ((k, v) :: rs) (IDB.insert_key k v rs).
Proof.
  induction rs as [| [k' v'] rs IH]; simpl; [reflexivity |].
  destruct (k <? k'); [reflexivity |].
  rewrite perm_swap. now constructor.
Qed.

Lemma remove_key_filter (k : Z) (rs : list (Z * Item.t)) :
  IDB.remove_key k rs = filter (fun r => negb (fst r =? k)) rs.
Proof.
  induction rs as [| [k' v'] rs IH]; simpl; [reflexivity |].
  destruct (k' =? k); simpl; now rewrite IH.
Qed.

Lemma In_remove_key (k : Z) (rs : list (Z * Item.t)) (r : Z * Item.t) :
  In r (IDB.remove_key k rs) <-> In r rs /\ fst r <> k.
Proof.
  rewrite remove_key_filter, filter_In, negb_true_iff, Z.eqb_neq. tauto.
Qed.

Lemma keys_remove_key (k k' : Z) (rs : list (Z * Item.t)) :
  In k' (map fst (IDB.remove_key k rs)) <-> In k' (map fst rs) /\ k' <> k.
Proof.
  rewrite !in_map_iff. split.
  - intros (r & E & Hr). apply In_remove_key in Hr. subst k'.
    split; [exists r |]; tauto.
  - intros ((r & E & Hr) & N). exists r. split; [exact E |].
    apply In_remove_key. subst k'. tauto.
Qed.

Lemma keys_insert_key (k k' : Z) (v : Item.t) (rs : list (Z * Item.t)) :
  In k' (map fst (IDB.insert_key k v rs)) <-> k' = k \/ In k' (map fst rs).
Proof.
  pose proof (Permutation_map fst (insert_key_perm k v rs)) as P. simpl in P.
  split; intros H.
  - apply (Permutation_in _ (Permutation_sym P)) in H. simpl in H.
    destruct H; auto.
  - apply (Permutation_in _ P). simpl. destruct H; auto.
Qed.

Lemma ascending_NoDup (ks : list Z) : IDB.ascending ks -> NoDup ks.
Proof.
  induction ks as [| k ks IH]; simpl; [constructor |].
  intros [H1 H2]. constructor; [| now apply IH].
  intros Hin. rewrite Forall_forall in H1. specialize (H1 _ Hin). lia.
Qed.

Lemma ascending_insert_key (k : Z) (v : Item.t) (rs : list (Z * Item.t)) :
  IDB.ascending (map fst rs) -> ~ In k (map fst rs) ->
  IDB.ascending (map fst (IDB.insert_key k v rs)).
Proof.
  induction rs as [| [k' v'] rs IH]; simpl; intros H N.
  - split; constructor.
  - destruct H as [H1 H2]. destruct (k <? k') eqn:E; simpl.
    + apply Z.ltb_lt in E. repeat split; auto.
      constructor; [exact E |].
      eapply Forall_impl; [| exact H1]. simpl. intros; lia.
    + apply Z.ltb_ge in E. split; [| apply IH; tauto].
      apply Forall_forall. intros x Hx. apply keys_insert_key in Hx.
      destruct Hx as [-> | Hx]; [lia |].
      rewrite Forall_forall in H1. now apply H1.
Qed.

Lemma ascending_remove_key (k : Z) (rs : list (Z * Item.t)) :
  IDB.ascending (map fst rs) ->
  IDB.ascending (map fst (IDB.remove_key k rs)).
Proof.
  induction rs as [| [k' v'] rs IH]; simpl; [tauto |].
  intros [H1 H2]. destruct (k' =? k); simpl; [now apply IH |].
  split; [| now apply IH].
  apply Forall_forall. intros x Hx. apply keys_remove_key in Hx.
  rewrite Forall_forall in H1. apply H1. tauto.
Qed.

Lemma NoDup_urls_remove_key (k : Z) (rs : list (Z * Item.t)) :
  NoDup (map IDB.url_of rs) -> NoDup (map IDB.url_of (IDB.remove_key k rs)).
Proof.
  induction rs as [| [k' v'] rs IH]; simpl; [tauto |].
  intros H. inversion H as [| u us Hn Hd]; subst.
  destruct (k' =? k); simpl; [now apply IH |].
  constructor; [| now apply IH].
  intros Hin. apply Hn. apply in_map_iff in Hin.
  destruct Hin as (r & E & Hr). apply In_remove_key in Hr.
  apply in_map_iff. exists r. tauto.
Qed.

Lemma find_key_remove_key (k : Z) (rs : list (Z * Item.t)) :
  IDB.find_key k (IDB.remove_key k rs) = None.
Proof.
  induction rs as [| [k' v'] rs IH]; simpl; [reflexivity |].
  destruct (k' =? k) eqn:E; simpl; [exact IH | now rewrite E].
Qed.

Lemma wf_store_add (s : IDB.objectStore) (it : Item.t) :
  IDB.wf s -> IDB.wf (snd (IDB.store_add s it)).
Proof.
  intros [Ha Hk Hu]. unfold IDB.store_add.
  destruct (IDB.has_key _ _ || IDB.url_taken _ _ _) eqn:E; simpl;
    [now constructor |].
  apply orb_false_iff in E. destruct E as [E1 E2].
  assert (N1 : ~ In (IDB.key_for s it) (map fst (IDB.records s)))
    by (rewrite <- has_key_In; congruence).
  assert (N2 : ~ In (Item.url it) (map IDB.url_of (IDB.records s)))
    by (rewrite <- url_taken_In; congruence).
  constructor; unfold IDB.keys in *; simpl.
  - now apply ascending_insert_key.
  - apply Forall_forall. intros x Hx. apply keys_insert_key in Hx.
    destruct Hx as [-> | Hx]; [lia |].
    rewrite Forall_forall in Hk. specialize (Hk _ Hx). lia.
  - eapply Permutation_NoDup.
    + apply (Permutation_map IDB.url_of), insert_key_perm.
    + simpl. constructor; assumption.
Qed.

Lemma wf_store_put (s : IDB.objectStore) (it : Item.t) :
  IDB.wf s -> IDB.wf (snd (IDB.store_put s it)).
Proof.
  intros [Ha Hk Hu]. unfold IDB.store_put.
  destruct (IDB.url_taken _ _ _) eqn:E; simpl; [now constructor |].
  pose proof (url_taken_except _ _ _ E) as X.
  constructor; unfold IDB.keys in *; simpl.
  - apply ascending_insert_key; [now apply ascending_remove_key |].
    rewrite keys_remove_key. tauto.
  - apply Forall_forall. intros x Hx. apply keys_insert_key in Hx.
    destruct Hx as [-> | Hx]; [lia |].
    apply keys_remove_key in Hx. rewrite Forall_forall in Hk.
    destruct Hx as [Hx _]. specialize (Hk _ Hx). lia.
  - eapply Permutation_NoDup.
    + apply (Permutation_map IDB.url_of), insert_key_perm.
    + simpl. constructor; [| now apply NoDup_urls_remove_key].
      intros Hin. apply in_map_iff in Hin. destruct Hin as (r & Er & Hr).
      apply In_remove_key in Hr. destruct Hr as [Hr Nr].
      apply Nr. now apply X.
Qed.

Lemma wf_store_delete (s : IDB.objectStore) (k : Z) :
  IDB.wf s -> IDB.wf (IDB.store_delete s k).
Proof.
  intros [Ha Hk Hu]. constructor; unfold IDB.keys in *; simpl.
  - now apply ascending_remove_key.
  - apply Forall_forall. intros x Hx. apply keys_remove_key in Hx.
    rewrite Forall_forall in Hk. apply Hk. tauto.
  - now apply NoDup_urls_remove_key.
Qed.

Lemma wf_fresh_key (s : IDB.objectStore) :
  IDB.wf s -> IDB.has_key (IDB.keyGen s) (IDB.records s) = false.
Proof.
  intros [_ Hk _]. destruct (IDB.has_key _ _) eqn:E; [| reflexivity].
  apply has_key_In in E. rewrite Forall_forall in Hk.
  specialize (Hk _ E). lia.
Qed.

Lemma count_url_stored (d : IDB.objectStore) (u : string) :
  IDB.wf d -> In u (map IDB.url_of (IDB.records d)) ->
  IDB.count_url u d = 1%nat.
Proof.
  intros [_ _ Hu] Hin. unfold IDB.count_url.
  pose proof (proj1 (NoDup_count_occ string_dec _) Hu u).
  pose proof (proj1 (count_occ_In string_dec _ u) Hin). lia.
Qed.

(** ** The operations on an open database *)

Lemma pushItem_open (d : IDB.objectStore) (it : Item.t) (st : Items.state) :
  Items.pushItem (Some d) it st
  = match IDB.store_add d it with
    | (Fulfilled k, d') =>
        (Fulfilled tt, Some d',
         Items.mkState (Items.items st ++ [k]) (Items.reading st)
                       (Items.known st))
    | (Rejected e, d') => (Rejected e, Some d', st)
    end.
Proof.
  unfold Items.pushItem, IDB.add.
  now destruct (IDB.store_add d it) as [[k | e] d'].
Qed.

Lemma markRead_open (d : IDB.objectStore) (it : Item.t) :
  snd (Items.markRead (Some d) it)
  = Some (if Item.read it then d
          else snd (IDB.store_put d (Item.set_read true it))).
Proof.
  unfold Items.markRead, IDB.put. destruct (Item.read it); [reflexivity |].
  now destruct (IDB.store_put d _) as [[k | e] d'].
Qed.

Lemma store_add_url_taken (s : IDB.objectStore) (it : Item.t) :
  In (Item.url it) (map IDB.url_of (IDB.records s)) ->
  IDB.store_add s it = (Rejected (DOMException "ConstraintError"), s).
Proof.
  intros H. apply url_taken_In in H. unfold IDB.store_add.
  now rewrite H, orb_true_r.
Qed.

Lemma pushItem_url_taken (d : IDB.objectStore) (it : Item.t) (st : Items.state) :
  In (Item.url it) (map IDB.url_of (IDB.records d)) ->
  Items.pushItem (Some d) it st
  = (Rejected (DOMException "ConstraintError"), Some d, st).
Proof. intros H. now rewrite pushItem_open, store_add_url_taken. Qed.

Lemma store_add_stores_url (d : IDB.objectStore) (it : Item.t) :
  IDB.wf d -> Item.id it = None ->
  In (Item.url it) (map IDB.url_of (IDB.records (snd (IDB.store_add d it)))).
Proof.
  intros Hd Hid. unfold IDB.store_add, IDB.key_for. rewrite Hid.
  rewrite (wf_fresh_key d Hd). simpl.
  destruct (IDB.url_taken _ _ _) eqn:E; simpl.
  - now apply url_taken_In.
  - apply (Permutation_in _
             (Permutation_map IDB.url_of (insert_key_perm _ _ _))).
    now left.
Qed.

(** ** The id list stays in step with the store *)

Lemma ids_ok_store_add (d : IDB.objectStore) (it : Item.t) (st : Items.state) :
  Cursor.ids_ok d st ->
  match IDB.store_add d it with
  | (Fulfilled k, d') =>
      Cursor.ids_ok d' (Items.mkState (Items.items st ++ [k])
                                      (Items.reading st) (Items.known st))
  | (Rejected _, d') => Cursor.ids_ok d' st
  end.
Proof.
  intros [Hn Hi]. unfold IDB.store_add.
  destruct (IDB.has_key _ _ || IDB.url_taken _ _ _) eqn:E; [now split |].
  apply orb_false_iff in E. destruct E as [E1 _].
  assert (N1 : ~ In (IDB.key_for d it) (map fst (IDB.records d)))
    by (rewrite <- has_key_In; congruence).
  split; simpl.
  - apply NoDup_app; [exact Hn | repeat constructor; simpl; tauto |].
    intros x Hx [<- | []]. apply N1. now apply Hi.
  - intros k Hk. unfold IDB.keys. simpl. apply keys_insert_key.
    apply in_app_or in Hk. destruct Hk as [Hk | [<- | []]]; [right | now left].
    now apply Hi.
Qed.

Lemma ids_ok_store_put (d : IDB.objectStore) (it : Item.t) (st : Items.state) :
  Cursor.ids_ok d st -> Cursor.ids_ok (snd (IDB.store_put d it)) st.
Proof.
  intros [Hn Hi]. unfold IDB.store_put.
  destruct (IDB.url_taken _ _ _); simpl; [now split |].
  split; [exact Hn |]. intros k Hk. unfold IDB.keys. simpl.
  apply keys_insert_key.
  destruct (Z.eq_dec k (IDB.key_for d it)); [now left | right].
  apply keys_remove_key. split; [now apply Hi | assumption].
Qed.

Lemma world_ok_run (o : Cursor.op) (w : Cursor.world) :
  Cursor.world_ok w -> Cursor.world_ok (Cursor.run o w).
Proof.
  intros (d & Hd & Hw & Hi & Hc).
  pose proof (cursors_ok_run o w Hc) as Hc'.
  destruct w as [db st]. simpl in Hd, Hi, Hc. subst db.
  destruct o; simpl in *.
  - exists d. rewrite load_open in *.
    split; [reflexivity |]. split; [exact Hw |]. split; [| exact Hc'].
    split; simpl; [| auto]. apply ascending_NoDup. now destruct Hw.
  - rewrite pushItem_open in *.
    pose proof (wf_store_add d it Hw) as P.
    pose proof (ids_ok_store_add d it st Hi) as Q.
    destruct (IDB.store_add d it) as [[k | e] d']; exists d'; auto.
  - exists d.
    split; [reflexivity |]. split; [exact Hw |]. split; [| exact Hc'].
    unfold Cursor.ids_ok, Items.forwardCursor in *.
    destruct (_ >=? _); exact Hi.
  - exists d.
    split; [reflexivity |]. split; [exact Hw |]. split; [| exact Hc'].
    unfold Cursor.ids_ok, Items.backwardCursor in *.
    destruct (_ <=? _); exact Hi.
  - rewrite markRead_open. eexists. split; [reflexivity |].
    destruct (Item.read it); [auto |].
    split; [now apply wf_store_put |].
    split; [now apply ids_ok_store_put | exact Hc].
  - unfold Items.deleteCurrentItem in *.
    destruct (Items.reading st <? 0) eqn:E; [exists d; auto |].
    apply Z.ltb_ge in E.
    destruct (Items.index _ _) as [k |] eqn:Hk; [| exists d; auto].
    simpl in *. exists (IDB.store_delete d k).
    split; [reflexivity |]. split; [now apply wf_store_delete |].
    split; [| exact Hc'].
    destruct (index_split _ _ _ Hk) as [Hr _].
    rewrite slice_upto, slice_from_at by lia.
    destruct Hi as [Hn Hi].
    destruct (NoDup_without _ _ _ Hn Hk) as (H1 & H2 & H3).
    split; simpl; [exact H1 |].
    intros y Hy. unfold IDB.keys. simpl. apply keys_remove_key. split.
    + apply Hi. now apply H3.
    + intros ->. contradiction.
Qed.

Lemma reachable_world_ok (w : Cursor.world) :
  Cursor.reachable w -> Cursor.world_ok w.
Proof.
  induction 1 as [d Hd | o w Hw IH].
  - exists d. split; [reflexivity |]. split; [exact Hd |].
    split; [| apply cursors_ok_init].
    split; simpl; [constructor | tauto].
  - now apply world_ok_run.
Qed.

Lemma db_two_wf : IDB.wf Sample.db_two.
Proof.
  constructor; simpl.
  - repeat constructor; lia.
  - repeat constructor; lia.
  - repeat constructor; simpl; intuition discriminate.
Qed.

Lemma w_two_reachable : Cursor.reachable Sample.w_two.
Proof. do 2 apply Cursor.reachable_step. constructor. apply db_two_wf. Qed.

(** ** The cursor store: the claims *)

(** C2: in every reachable state of the cursor store, and so after each of
    load, pushItem, forwardCursor, backwardCursor, markRead and
    deleteCurrentItem, unreadCount() is length() - knownCursor() - 1 and is
    not negative. *)
Theorem unreadCount_reachable (w : Cursor.world) :
  Cursor.reachable w ->
  (Items.unreadCount (Cursor.cur w)
   = Items.length (Cursor.cur w) - Items.knownCursor (Cursor.cur w) - 1
   /\ 0 <= Items.unreadCount (Cursor.cur w))
  /\ forall o : Cursor.op,
      Items.unreadCount (Cursor.cur (Cursor.run o w))
      = Items.length (Cursor.cur (Cursor.run o w))
        - Items.knownCursor (Cursor.cur (Cursor.run o w)) - 1
      /\ 0 <= Items.unreadCount (Cursor.cur (Cursor.run o w)).
Proof.
  assert (G : forall w', Cursor.reachable w' ->
              Items.unreadCount (Cursor.cur w')
              = Items.length (Cursor.cur w')
                - Items.knownCursor (Cursor.cur w') - 1
              /\ 0 <= Items.unreadCount (Cursor.cur w')).
  { intros w' Hw'. apply reachable_cursors_ok in Hw'.
    unfold Cursor.cursors_ok, Items.length in Hw'.
    unfold Items.unreadCount, Items.length, Items.knownCursor. lia. }
  intros Hw. split; [now apply G |].
  intros o. apply G. now constructor.
Qed.

Lemma unreadCount_reachable_witness :
  Items.unreadCount (Cursor.cur Sample.w_two) = 0
  /\ 0 <= Items.unreadCount
            (Cursor.cur (Cursor.run (Cursor.PushItem (Sample.fresh "http://a/3"))
                                    Sample.w_two)).
Proof.
  split.
  - reflexivity.
  - apply (unreadCount_reachable Sample.w_two w_two_reachable).
Defined.

(** C10: in every reachable state of the cursor store the reading cursor
    is at or before the known cursor; load leaves the two equal, and
    pushItem moves neither. *)
Theorem reading_le_known (w : Cursor.world) :
  Cursor.reachable w ->
  Items.readingCursor (Cursor.cur w) <= Items.knownCursor (Cursor.cur w)
  /\ Items.readingCursor (Cursor.cur (Cursor.run Cursor.Load w))
     = Items.knownCursor (Cursor.cur (Cursor.run Cursor.Load w))
  /\ forall it : Item.t,
      Items.readingCursor (Cursor.cur (Cursor.run (Cursor.PushItem it) w))
      = Items.readingCursor (Cursor.cur w)
      /\ Items.knownCursor (Cursor.cur (Cursor.run (Cursor.PushItem it) w))
         = Items.knownCursor (Cursor.cur w).
Proof.
  intros Hw. apply reachable_world_ok in Hw.
  destruct Hw as (d & Hd & _ & _ & _ & H & _). split; [exact H |]. split.
  - simpl. rewrite Hd. now rewrite load_open.
  - intros it. simpl. unfold Items.pushItem.
    destruct (IDB.add (Cursor.db w) it) as [[k | e] d']; simpl; auto.
Qed.

Lemma reading_le_known_witness :
  Items.readingCursor (Cursor.cur Sample.w_two)
  <= Items.knownCursor (Cursor.cur Sample.w_two).
Proof. apply (reading_le_known Sample.w_two w_two_reachable). Defined.

(** C3: after any sequence of forwardCursor and backwardCursor calls on a
    loaded cursor store, reading lies in [-1, length-1]; forwardCursor at
    the last index and backwardCursor at reading <= 0 change nothing and
    return false; otherwise forwardCursor returns true, adds one to
    reading and raises known to reading when it was below, and
    backwardCursor returns true and takes one from reading. *)
Theorem cursor_moves_in_range (d : IDB.objectStore) (ms : list Cursor.move) :
  let st := Cursor.do_moves ms (Cursor.loaded d) in
  (-1 <= Items.reading st <= Items.length st - 1)
  /\ (Items.reading st = Items.length st - 1 ->
      Items.forwardCursor st = (false, st))
  /\ (Items.reading st <= 0 -> Items.backwardCursor st = (false, st))
  /\ (Items.reading st < Items.length st - 1 ->
      Items.forwardCursor st
      = (true, Items.mkState (Items.items st) (Items.reading st + 1)
                 (if Items.known st <? Items.reading st + 1
                  then Items.reading st + 1 else Items.known st)))
  /\ (0 < Items.reading st ->
      Items.backwardCursor st
      = (true, Items.mkState (Items.items st) (Items.reading st - 1)
                 (Items.known st))).
Proof.
  intros st.
  assert (H : Cursor.cursors_ok st)
    by (apply cursors_ok_moves, cursors_ok_load, cursors_ok_init).
  unfold Cursor.cursors_ok in H. unfold Items.length in *.
  split; [lia |].
  unfold Items.forwardCursor, Items.backwardCursor.
  repeat split; intros E.
  - destruct (Items.reading st >=? _) eqn:G; [reflexivity |].
    rewrite Z.geb_leb in G. apply Z.leb_gt in G. lia.
  - destruct (Items.reading st <=? 0) eqn:G; [reflexivity |].
    apply Z.leb_gt in G. lia.
  - destruct (Items.reading st >=? _) eqn:G; [| reflexivity].
    rewrite Z.geb_leb in G. apply Z.leb_le in G. lia.
  - destruct (Items.reading st <=? 0) eqn:G; [| reflexivity].
    apply Z.leb_le in G. lia.
Qed.

Lemma cursor_moves_in_range_witness :
  Items.forwardCursor
    (Cursor.do_moves [Cursor.Forward; Cursor.Backward] (Cursor.loaded Sample.db_gap))
  = (true, Items.mkState [1; 2] 1 1)
  /\ Items.forwardCursor
       (Cursor.do_moves [Cursor.Forward] (Cursor.loaded Sample.db_gap))
     = (false, Items.mkState [1; 2] 1 1).
Proof.
  split.
  - apply (cursor_moves_in_range Sample.db_gap [Cursor.Forward; Cursor.Backward]).
    vm_compute. reflexivity.
  - apply (cursor_moves_in_range Sample.db_gap [Cursor.Forward]).
    vm_compute. reflexivity.
Defined.



(** The store with a read item behind an unread one is the other case:
    its read items do not come first. *)
Example db_gap_not_read_first :
  ~ Cursor.read_first (IDB.records Sample.db_gap).
Proof. simpl. intros [H _]. discriminate. Qed.


(** C6: deleteCurrentItem returns false and changes nothing when
    reading < 0; in a reachable state with reading >= 0 it deletes the
    item at items[reading] from the store, closes the gap in the list,
    takes one from both reading and known and returns true; the deleted id
    is no longer in the list, and a cursor that was at the last index is
    at the last index of the shorter list. *)
Theorem deleteCurrentItem_spec (w : Cursor.world) :
  Cursor.reachable w ->
  let db := Cursor.db w in
  let st := Cursor.cur w in
  (Items.reading st < 0 ->
   Items.deleteCurrentItem db st = (Fulfilled false, db, st))
  /\ (0 <= Items.reading st ->
      exists k st',
        Items.index (Items.items st) (Items.reading st) = Some k
        /\ Items.deleteCurrentItem db st
           = (Fulfilled true, snd (IDB.delete db k), st')
        /\ IDB.get (snd (IDB.delete db k)) k = Fulfilled None
        /\ Items.items st'
           = firstn (Z.to_nat (Items.reading st)) (Items.items st)
             ++ skipn (Z.to_nat (Items.reading st + 1)) (Items.items st)
        /\ Items.length st' = Items.length st - 1
        /\ Items.reading st' = Items.reading st - 1
        /\ Items.known st' = Items.known st - 1
        /\ ~ In k (Items.items st')
        /\ (Items.reading st = Items.length st - 1 ->
            Items.reading st' = Items.length st' - 1)).
Proof.
  intros Hw db st. apply reachable_world_ok in Hw.
  destruct Hw as (d & Hd & Hwf & [Hn Hi] & Hc).
  fold db in Hd. fold st in Hn, Hi, Hc. rewrite Hd.
  split.
  - intros Hneg. unfold Items.deleteCurrentItem.
    destruct (Items.reading st <? 0) eqn:E; [reflexivity |].
    apply Z.ltb_ge in E. lia.
  - intros Hpos. unfold Cursor.cursors_ok, Items.length in Hc.
    destruct (index_some (Items.items st) (Items.reading st)) as [k Hk];
      [lia |].
    eexists k, _. split; [exact Hk |].
    split; [apply (deleteCurrentItem_at d st k Hpos Hk) |].
    destruct (NoDup_without _ _ _ Hn Hk) as (H1 & H2 & H3).
    unfold Items.length. simpl. rewrite (length_without _ _ _ Hk).
    repeat split; try lia; try assumption.
    f_equal. apply find_key_remove_key.
Qed.

Lemma deleteCurrentItem_spec_witness :
  0 <= Items.reading (Cursor.cur Sample.w_two)
  /\ exists k st',
      Items.deleteCurrentItem (Cursor.db Sample.w_two) (Cursor.cur Sample.w_two)
      = (Fulfilled true, snd (IDB.delete (Cursor.db Sample.w_two) k), st')
      /\ Items.reading st' = Items.reading (Cursor.cur Sample.w_two) - 1
      /\ ~ In k (Items.items st').
Proof.
  split; [vm_compute; discriminate |].
  destruct (deleteCurrentItem_spec Sample.w_two w_two_reachable) as [_ H].
  destruct H as (k & st' & Hk & Hd & _ & _ & _ & Hr & _ & Hn & _);
    [vm_compute; discriminate |].
  exists k, st'. repeat split; assumption.
Defined.

(** C5: over a well-formed store, pushing two items with the same url
    (neither carrying an id: the store assigns it) leaves exactly one
    stored item with that url; the second pushItem is rejected with the
    store's constraint error, a DOMException, which the push loop of the
    loaders swallows; and the rejected push leaves the store, the id list
    and both cursors as the first push left them. *)
Theorem pushItem_same_url_once
        (d : IDB.objectStore) (st : Items.state) (i1 i2 : Item.t) :
  IDB.wf d ->
  Item.id i1 = None -> Item.id i2 = None ->
  Item.url i2 = Item.url i1 ->
  exists (d1 : IDB.objectStore) (st1 : Items.state),
    snd (fst (Items.pushItem (Some d) i1 st)) = Some d1
    /\ snd (Items.pushItem (Some d) i1 st) = st1
    /\ Items.pushItem (Some d1) i2 st1
       = (Rejected (DOMException "ConstraintError"), Some d1, st1)
    /\ is_DOMException (DOMException "ConstraintError") = true
    /\ IDB.count_url (Item.url i1) d1 = 1%nat
    /\ push_reverse [i2] (Some d1) st1 = (Fulfilled tt, Some d1, st1)
    /\ push_reverse [i2; i1] (Some d) st = (Fulfilled tt, Some d1, st1).
Proof.
  intros Hd H1 H2 Hu.
  pose proof (wf_store_add d i1 Hd) as Hwf.
  pose proof (store_add_stores_url d i1 Hd H1) as Hin.
  assert (He : forall e d', IDB.store_add d i1 = (Rejected e, d') ->
                            is_DOMException e = true).
  { intros e d' A. unfold IDB.store_add in A.
    destruct (_ || _); inversion A; reflexivity. }
  rewrite pushItem_open.
  destruct (IDB.store_add d i1) as [r d1] eqn:A. simpl in Hwf, Hin.
  assert (Hp : forall s, Items.pushItem (Some d1) i2 s
                         = (Rejected (DOMException "ConstraintError"),
                            Some d1, s))
    by (intros s; apply pushItem_url_taken; now rewrite Hu).
  assert (Hl : forall s, push_reverse [i2] (Some d1) s
                         = (Fulfilled tt, Some d1, s))
    by (intros s; unfold push_reverse; simpl; now rewrite Hp).
  assert (Hc : IDB.count_url (Item.url i1) d1 = 1%nat)
    by now apply count_url_stored.
  destruct r as [k | e]; eexists d1, _; simpl;
    (split; [reflexivity |]); (split; [reflexivity |]);
    repeat split; auto.
  - unfold push_reverse in *. simpl in *. rewrite pushItem_open, A.
    apply Hl.
  - unfold push_reverse in *. simpl in *. rewrite pushItem_open, A.
    rewrite (He _ _ eq_refl). apply Hl.
Qed.

Lemma pushItem_same_url_once_witness :
  exists (d1 : IDB.objectStore) (st1 : Items.state),
    snd (fst (Items.pushItem (Some Sample.db_two) (Sample.fresh "http://a/3")
                             (Cursor.loaded Sample.db_two))) = Some d1
    /\ snd (Items.pushItem (Some Sample.db_two) (Sample.fresh "http://a/3")
                           (Cursor.loaded Sample.db_two)) = st1
    /\ Items.pushItem (Some d1) (Sample.refetched "http://a/3") st1
       = (Rejected (DOMException "ConstraintError"), Some d1, st1)
    /\ IDB.count_url "http://a/3" d1 = 1%nat.
Proof.
  destruct (pushItem_same_url_once Sample.db_two (Cursor.loaded Sample.db_two)
              (Sample.fresh "http://a/3") (Sample.refetched "http://a/3")
              db_two_wf eq_refl eq_refl eq_refl)
    as (d1 & st1 & E1 & E2 & E3 & _ & E4 & _).
  exists d1, st1. repeat split; assumption.
Defined.

(** ** The promise chain *)

Lemma cb_loadMore_rejected {A} (n : nat) (f : Feed.t -> list Item.t)
      (clk : nat -> Z) (e : error) (m : Model.model) :
  Model.cb_loadMore n f clk (@Rejected A e) m = Some (Rejected e, m).
Proof. reflexivity. Qed.

Lemma do_call_rejected (E : Model.env) (k : Model.call) (e : error)
      (m : Model.model) :
  Model.do_call E k (Model.mkClient (Rejected e) m)
  = Some (Rejected e, Model.mkClient (Rejected e) m).
Proof. destruct k; reflexivity. Qed.

(** C1, as the code has it: once a chained step has been rejected, every
    operation chained behind it is rejected with the same error without
    doing any of its own work: whatever calls follow, each hands back a
    promise rejected with that error, and the store, the cursors, the
    registry and the posted events stay as they were. *)
Theorem rejection_runs_down_the_chain
        (E : Model.env) (ks : list Model.call) (e : error) (c : Model.client) :
  Model.state c = Rejected e ->
  Model.do_calls E ks c = Some (map (fun _ => Rejected e) ks, c).
Proof.
  intros H. destruct c as [s m]. simpl in H. subst s.
  induction ks as [| k ks IH]; simpl; [reflexivity |].
  now rewrite do_call_rejected, IH.
Qed.

Lemma rejection_runs_down_the_chain_witness :
  Model.do_calls Sample.E
    [Model.BackwardItem; Model.ForwardItem; Model.DeleteItem] Sample.c_faulted
  = Some ([Rejected IDB.null_db; Rejected IDB.null_db; Rejected IDB.null_db],
          Sample.c_faulted).
Proof.
  apply (rejection_runs_down_the_chain Sample.E
           [Model.BackwardItem; Model.ForwardItem; Model.DeleteItem]
           IDB.null_db Sample.c_faulted).
  reflexivity.
Defined.

(** C1, as stated, fails.  After shutdown() the handle is null, so
    currentItem() is rejected with a TypeError; the backwardItem() chained
    behind it is rejected with that same error.  Its own work, which does
    not touch the database (the cursor is at index 0, so it would post
    "Already at the beginning" and resolve to null), is not done. *)
Lemma chain_poisoned_after_fault :
  Model.do_calls Sample.E [Model.Shutdown; Model.CurrentItem]
                 (Sample.c0 Sample.reg_AB)
  = Some ([Fulfilled tt; Rejected IDB.null_db], Sample.c_faulted)
  /\ Model.backwardItem Sample.c_faulted
     = (Rejected IDB.null_db, Sample.c_faulted)
  /\ Model.cb_backwardItem (Fulfilled tt) (Model.world Sample.c_faulted)
     = (Fulfilled None,
        Model.emitModelWarning "Already at the beginning"
                               (Model.world Sample.c_faulted))
  /\ Model.backwardItem Sample.c_faulted
     <> (let '(v, m) := Model.cb_backwardItem (Fulfilled tt)
                          (Model.world Sample.c_faulted) in
         (v, Model.mkClient (Model.settle v) m)).
Proof.
  repeat split; try reflexivity.
  vm_compute. discriminate.
Qed.

(** ** The format normalizers *)

(** C7, on the code: a JSON-Feed entry with only content_text (and a url)
    yields an item whose contentHtml is the text inside a paragraph tag;
    a JSON-Feed entry and an RSS item without any body return null; an
    Atom entry without content and summary does not return null:
    parseATOMItem throws. *)
Theorem normalizers_without_body :
  (forall json : Items.json_entry,
      Items.content_html json = None ->
      forall text : string,
        Items.content_text json = Some text ->
        Items.truthy (Items.json_url json) = true ->
        exists it,
          Items.parseJSONItem json = Fulfilled (Some it)
          /\ Item.contentHtml it
             = String.append "<p>" (String.append text "</p>"))
  /\ (forall json : Items.json_entry,
         Items.content_html json = None ->
         Items.content_text json = None ->
         Items.parseJSONItem json = Fulfilled None)
  /\ (forall elem : Items.xml_elem,
         Items.truthy (Items.getXMLTextContent elem (Items.Tag "encoded"))
         = false ->
         Items.truthy (Items.getXMLTextContent elem (Items.Tag "description"))
         = false ->
         Items.parseRSS2Item elem = Fulfilled None)
  /\ (forall elem : Items.xml_elem,
         Items.truthy (Items.getXMLTextContent elem (Items.Tag "content"))
         = false ->
         Items.truthy (Items.getXMLTextContent elem (Items.Tag "summary"))
         = false ->
         Items.parseATOMItem elem = Rejected ThrownNull
         /\ Items.parseATOMItem elem <> Fulfilled None).
Proof.
  split; [| split; [| split]].
  - intros json Hh text Ht Hu. unfold Items.parseJSONItem.
    rewrite Hh, Ht, Hu. eexists. split; reflexivity.
  - intros json Hh Ht. unfold Items.parseJSONItem. now rewrite Hh, Ht.
  - intros elem Hc Hd. unfold Items.parseRSS2Item. now rewrite Hc, Hd.
  - intros elem Hc Hs. unfold Items.parseATOMItem. rewrite Hc, Hs.
    split; [reflexivity | discriminate].
Qed.

Lemma normalizers_without_body_witness :
  (exists it,
      Items.parseJSONItem Sample.json_text = Fulfilled (Some it)
      /\ Item.contentHtml it = "<p>hello</p>"%string)
  /\ Items.parseJSONItem Sample.json_bare = Fulfilled None
  /\ Items.parseRSS2Item Sample.rss_bare = Fulfilled None
  /\ Items.parseATOMItem Sample.atom_bare = Rejected ThrownNull.
Proof.
  destruct normalizers_without_body as (H1 & H2 & H3 & H4).
  split; [| split; [| split]].
  - apply (H1 Sample.json_text eq_refl "hello"%string eq_refl eq_refl).
  - apply (H2 Sample.json_bare eq_refl eq_refl).
  - apply (H3 Sample.rss_bare eq_refl eq_refl).
  - apply (H4 Sample.atom_bare eq_refl eq_refl).
Defined.

(** With a summary the same Atom entry is normalized, the summary trimmed
    and wrapped in a paragraph tag. *)
Example parseATOMItem_summary :
  Items.parseATOMItem Sample.atom_summary
  = Fulfilled
      (Some (Item.mk None false None None
               (Some (DateOf (Some "2020-05-01T10:00:00Z"%string)))
               "<p>hello</p>" "http://a/9" None (Some "Nine"%string) [])).
Proof. reflexivity. Qed.

(** ** The push loop on an open database *)

Lemma store_add_rejected (d d' : IDB.objectStore) (it : Item.t) (e : error) :
  IDB.store_add d it = (Rejected e, d') -> is_DOMException e = true /\ d' = d.
Proof.
  unfold IDB.store_add. destruct (_ || _); intros H; inversion H; auto.
Qed.

Lemma urls_store_add (d : IDB.objectStore) (it : Item.t) (u : string) :
  In u (map IDB.url_of (IDB.records (snd (IDB.store_add d it)))) ->
  u = Item.url it \/ In u (map IDB.url_of (IDB.records d)).
Proof.
  unfold IDB.store_add. destruct (_ || _); simpl; [auto |].
  intros H.
  apply (Permutation_in _ (Permutation_sym
           (Permutation_map IDB.url_of (insert_key_perm _ _ _)))) in H.
  simpl in H. destruct H as [<- | H]; auto.
Qed.

Lemma push_each_open (l : list Item.t) (d : IDB.objectStore) (st : Items.state) :
  IDB.wf d ->
  exists d' st',
    push_each l (Some d) st = (Fulfilled tt, Some d', st')
    /\ IDB.wf d'
    /\ Items.length st <= Items.length st'
    /\ Items.reading st' = Items.reading st
    /\ Items.known st' = Items.known st
    /\ (forall u, In u (map IDB.url_of (IDB.records d')) ->
                  In u (map Item.url l)
                  \/ In u (map IDB.url_of (IDB.records d))).
Proof.
  revert d st. induction l as [| it l IH]; intros d st Hd; simpl.
  - exists d, st. split; [reflexivity |]. split; [exact Hd |].
    split; [lia |]. auto.
  - rewrite pushItem_open.
    pose proof (wf_store_add d it Hd) as Hwf.
    pose proof (urls_store_add d it) as Hu.
    destruct (IDB.store_add d it) as [[k | e] d1] eqn:A; simpl in Hwf, Hu.
    + destruct (IH d1 (Items.mkState (Items.items st ++ [k])
                         (Items.reading st) (Items.known st)) Hwf)
        as (d' & st' & E & W & L & R & K & U).
      exists d', st'. rewrite E. split; [reflexivity |]. split; [exact W |].
      split; [| split; [exact R | split; [exact K |]]].
      * unfold Items.length in *. simpl in L. rewrite length_app in L.
        simpl in L. lia.
      * intros u Hin. destruct (U u Hin) as [H | H]; [auto |].
        destruct (Hu u H) as [-> | H']; auto.
    + destruct (store_add_rejected _ _ _ _ A) as [De ->]. rewrite De.
      destruct (IH d st Hd) as (d' & st' & E & W & L & R & K & U).
      exists d', st'. rewrite E. split; [reflexivity |]. split; [exact W |].
      split; [exact L | split; [exact R | split; [exact K |]]].
      intros u Hin. destruct (U u Hin); auto.
Qed.

Lemma find_feed_replace_same (id : Z) (g : Feed.t -> Feed.t)
      (fs : list (Z * Feed.t)) (f : Feed.t) :
  Feeds.find_feed id fs = Some f ->
  Feeds.find_feed id (Feeds.replace_feed id g fs) = Some (g f).
Proof.
  induction fs as [| [k f'] fs IH]; simpl; [discriminate |].
  destruct (k =? id) eqn:E; simpl; rewrite E; [congruence | exact IH].
Qed.

Lemma find_feed_replace_other (id id' : Z) (g : Feed.t -> Feed.t)
      (fs : list (Z * Feed.t)) :
  id <> id' ->
  Feeds.find_feed id (Feeds.replace_feed id' g fs) = Feeds.find_feed id fs.
Proof.
  intros N. induction fs as [| [k f'] fs IH]; simpl; [reflexivity |].
  destruct (k =? id') eqn:E; simpl.
  - apply Z.eqb_eq in E. subst k.
    destruct (id' =? id) eqn:E'; [apply Z.eqb_eq in E'; congruence |].
    reflexivity.
  - destruct (k =? id); [reflexivity | exact IH].
Qed.

(** ** The scheduler *)

Lemma loadFeed_within_wait (fetch : Feed.t -> list Item.t) (now : Z)
      (m : Model.model) (d : IDB.objectStore) (f : Feed.t) :
  Model.db m = Some d ->
  Feeds.find_feed (Feed.id f) (Feeds.stored (Model.feeds m)) = Some f ->
  Feed.lastLoadTime f > now - Model.MinReloadWait ->
  Model.loadFeed fetch now (Feed.id f) m = (Fulfilled Model.not_loaded, m).
Proof.
  intros Hd Hf Hw. unfold Model.loadFeed, Feeds.get. rewrite Hd, Hf.
  destruct (Feed.lastLoadTime f <=? _) eqn:E; [| reflexivity].
  apply Z.leb_le in E. lia.
Qed.

Lemma loadMore_front_within_wait (n : nat) (fetch : Feed.t -> list Item.t)
      (clock : nat -> Z) (m : Model.model) (d : IDB.objectStore)
      (f : Feed.t) :
  Model.db m = Some d ->
  Feeds.first (Model.feeds m) = Some (Feed.id f) ->
  Feed.id f <> 0 ->
  Feeds.find_feed (Feed.id f) (Feeds.stored (Model.feeds m)) = Some f ->
  Feed.lastLoadTime f > clock O - Model.MinReloadWait ->
  Model.loadMore (S n) fetch clock m = Some (Fulfilled tt, m).
Proof.
  intros Hd H1 H0 Hf Hw. simpl. rewrite H1. unfold Model.is_feedId.
  apply Z.eqb_neq in H0. rewrite H0. simpl.
  now rewrite (loadFeed_within_wait fetch (clock O) m d f Hd Hf Hw).
Qed.

Lemma loadMore_round (n : nat) (fetch : Feed.t -> list Item.t)
      (clock : nat -> Z) (m : Model.model) :
  Model.loadMore (S n) fetch clock m
  = let '(num, m') :=
      match Feeds.first (Model.feeds m) with
      | Some feedId =>
          if Model.is_feedId (Some feedId)
          then Model.loadFeed fetch (clock O) feedId m
          else (Fulfilled Model.no_candidate, m)
      | None => (Fulfilled Model.no_candidate, m)
      end in
    match num with
    | Rejected e => Some (Rejected e, m')
    | Fulfilled k =>
        if (k >=? 0) && Model.shouldLoadMore m'
        then Model.loadMore n fetch (fun i => clock (S i)) m'
        else Some (Fulfilled tt, m')
    end.
Proof. reflexivity. Qed.

Lemma loadFeed_eligible (fetch : Feed.t -> list Item.t) (now : Z)
      (m : Model.model) (d : IDB.objectStore) (f : Feed.t) :
  Model.db m = Some d -> IDB.wf d ->
  Feeds.find_feed (Feed.id f) (Feeds.stored (Model.feeds m)) = Some f ->
  Feed.lastLoadTime f <= now - Model.MinReloadWait ->
  exists (num : Z) (m1 : Model.model) (d1 : IDB.objectStore),
    Model.loadFeed fetch now (Feed.id f) m = (Fulfilled num, m1)
    /\ 0 <= num
    /\ Model.db m1 = Some d1
    /\ push_reverse (fetch f) (Model.db m) (Model.cursor m)
       = (Fulfilled tt, Model.db m1, Model.cursor m1)
    /\ Model.feeds m1
       = Feeds.rotate
           (Feeds.mkRegistry
              (Feeds.order (Model.feeds m))
              (Feeds.replace_feed (Feed.id f) (Feed.set_lastLoadTime now)
                                  (Feeds.stored (Model.feeds m)))).
Proof.
  intros Hd Hw Hf He. unfold Model.loadFeed, Feeds.get.
  rewrite Hd, Hf. apply Z.leb_le in He. rewrite He.
  unfold Feeds.loadItems, Feeds.touchFeed. cbn [Feed.id Feed.set_lastLoadTime
    Feed.lastLoadTime].
  unfold push_reverse.
  destruct (push_each_open (rev (fetch f)) d (Model.cursor m) Hw)
    as (d1 & st1 & E & _ & L & _).
  rewrite E.
  set (num := Items.length st1 - Items.length (Model.cursor m)).
  eexists num, _, d1. split; [reflexivity |].
  split; [unfold num; lia |].
  destruct (num >? 0); simpl; auto.
Qed.

(** C8, as the code has it.  With two feeds in the registry and fewer
    unread items than the watermark: when the feed in front is eligible
    and the one behind it is within its wait, a loadMore run polls the
    front feed only and moves it to the back; when the feed in front is
    within its wait, the run stops at once, nothing is polled and the
    order stays, eligible or not the feed behind it.  What loadFeed returns
    for a feed within its wait is the very value loadMore uses when there
    is no feed at all. *)
Theorem loadMore_two_feeds
        (n : nat) (fetch : Feed.t -> list Item.t) (clock : nat -> Z)
        (m : Model.model) (d : IDB.objectStore) (a b : Feed.t) :
  Model.db m = Some d -> IDB.wf d ->
  Feeds.order (Model.feeds m) = [Feed.id a; Feed.id b] ->
  Feeds.find_feed (Feed.id a) (Feeds.stored (Model.feeds m)) = Some a ->
  Feeds.find_feed (Feed.id b) (Feeds.stored (Model.feeds m)) = Some b ->
  Feed.id a <> 0 -> Feed.id b <> 0 -> Feed.id a <> Feed.id b ->
  Model.shouldLoadMore m = true ->
  (2 <= n)%nat ->
  (Feed.lastLoadTime a <= clock O - Model.MinReloadWait ->
   Feed.lastLoadTime b > clock 1%nat - Model.MinReloadWait ->
   exists m' : Model.model,
     Model.cb_loadMore n fetch clock (Fulfilled tt) m = Some (Fulfilled tt, m')
     /\ Feeds.order (Model.feeds m') = [Feed.id b; Feed.id a]
     /\ push_reverse (fetch a) (Model.db m) (Model.cursor m)
        = (Fulfilled tt, Model.db m', Model.cursor m')
     /\ Feeds.find_feed (Feed.id a) (Feeds.stored (Model.feeds m'))
        = Some (Feed.set_lastLoadTime (clock O) a)
     /\ Feeds.find_feed (Feed.id b) (Feeds.stored (Model.feeds m')) = Some b)
  /\ (Feed.lastLoadTime a > clock O - Model.MinReloadWait ->
      Model.cb_loadMore n fetch clock (Fulfilled tt) m = Some (Fulfilled tt, m))
  /\ Model.not_loaded = Model.no_candidate.
Proof.
  intros Hd Hw Ho Ha Hb Na Nb Nab Hs Hn.
  destruct n as [| [| n]]; try lia.
  assert (H1 : Feeds.first (Model.feeds m) = Some (Feed.id a))
    by (unfold Feeds.first; now rewrite Ho).
  split; [| split; [| reflexivity]].
  - intros Ea Wb. unfold Model.cb_loadMore. rewrite Hs, loadMore_round, H1.
    unfold Model.is_feedId at 1. apply Z.eqb_neq in Na. rewrite Na. simpl negb.
    cbv iota.
    destruct (loadFeed_eligible fetch (clock O) m d a Hd Hw Ha Ea)
      as (num & m1 & d1 & E & Hnum & Hd1 & Hp & Hr).
    rewrite E.
    assert (Ho1 : Feeds.order (Model.feeds m1) = [Feed.id b; Feed.id a])
      by (rewrite Hr; unfold Feeds.rotate; simpl; now rewrite Ho).
    assert (Hs1 : Feeds.stored (Model.feeds m1)
                  = Feeds.replace_feed (Feed.id a)
                      (Feed.set_lastLoadTime (clock O))
                      (Feeds.stored (Model.feeds m)))
      by (rewrite Hr; unfold Feeds.rotate; simpl; now rewrite Ho).
    assert (Ha1 : Feeds.find_feed (Feed.id a) (Feeds.stored (Model.feeds m1))
                  = Some (Feed.set_lastLoadTime (clock O) a))
      by (rewrite Hs1; now apply find_feed_replace_same).
    assert (Hb1 : Feeds.find_feed (Feed.id b) (Feeds.stored (Model.feeds m1))
                  = Some b)
      by (rewrite Hs1, find_feed_replace_other; [exact Hb | congruence]).
    exists m1. split; [| auto].
    destruct ((num >=? 0) && Model.shouldLoadMore m1); [| reflexivity].
    apply (loadMore_front_within_wait n fetch (fun i => clock (S i))
             m1 d1 b); auto.
    unfold Feeds.first. now rewrite Ho1.
  - intros Wa. unfold Model.cb_loadMore. rewrite Hs.
    now apply (loadMore_front_within_wait (S n) fetch clock m d a).
Qed.

Lemma loadMore_two_feeds_witness :
  exists m' : Model.model,
    Model.cb_loadMore 5 Sample.one_entry Sample.at_ten_million (Fulfilled tt)
                      (Model.init Sample.db_two Sample.reg_AB)
    = Some (Fulfilled tt, m')
    /\ Feeds.order (Model.feeds m') = [2; 1]
    /\ Items.items (Model.cursor m') = [1; 2; 3].
Proof.
  destruct (loadMore_two_feeds 5 Sample.one_entry Sample.at_ten_million
              (Model.init Sample.db_two Sample.reg_AB) Sample.db_two
              Sample.feedA Sample.feedB) as [H _];
    try reflexivity; try apply db_two_wf; try (simpl; lia).
  destruct H as (m' & E & Ho & Hp & _);
    [vm_compute; discriminate | vm_compute; reflexivity |].
  exists m'. split; [exact E |]. split; [exact Ho |].
  assert (X : Items.items
                (snd (push_reverse
                        (Sample.one_entry Sample.feedA)
                        (Model.db (Model.init Sample.db_two Sample.reg_AB))
                        (Model.cursor (Model.init Sample.db_two Sample.reg_AB))))
              = [1; 2; 3]) by reflexivity.
  rewrite Hp in X. exact X.
Defined.

(** C8, as stated, fails.  Feed B, in front, is within its wait, feed A
    behind it is eligible and fewer items are unread than the watermark:
    the loadMore run ends without polling A, leaving everything as it was.
    And the two signals are one value: loadFeed returns -1 for the skipped
    feed, the value loadMore takes for no feed at all; in the second
    variant cb_getLoadCandidate resolves to null in both cases. *)
Lemma loadMore_leaves_eligible_feed_unpolled :
  Feeds.order (Model.feeds Sample.m_BA)
  = [Feed.id Sample.feedB; Feed.id Sample.feedA]
  /\ Feed.lastLoadTime Sample.feedB > 10000000 - Model.MinReloadWait
  /\ Feed.lastLoadTime Sample.feedA <= 10000000 - Model.MinReloadWait
  /\ Model.shouldLoadMore Sample.m_BA = true
  /\ Model.cb_loadMore 5 Sample.one_entry Sample.at_ten_million (Fulfilled tt)
                       Sample.m_BA
     = Some (Fulfilled tt, Sample.m_BA)
  /\ Model.loadFeed Sample.one_entry 10000000 (Feed.id Sample.feedB) Sample.m_BA
     = (Fulfilled (-1), Sample.m_BA)
  /\ Model.no_candidate = -1
  /\ Model2.cb_getLoadCandidate Model2.default_config 10000000 (Fulfilled tt)
                                Sample.m_BA
     = (Fulfilled None, Sample.m_BA)
  /\ Model2.cb_getLoadCandidate Model2.default_config 10000000 (Fulfilled tt)
                                Sample.m_none
     = (Fulfilled None, Sample.m_none).
Proof. repeat split; vm_compute; congruence. Qed.

(** ** A feed whose fetch failed *)

Lemma find_key_insert_key (k : Z) (v : Item.t) (rs : list (Z * Item.t)) :
  ~ In k (map fst rs) -> IDB.find_key k (IDB.insert_key k v rs) = Some v.
Proof.
  induction rs as [| [k' v'] rs IH]; simpl; intros N.
  - now rewrite Z.eqb_refl.
  - destruct (k <? k'); simpl.
    + now rewrite Z.eqb_refl.
    + destruct (k' =? k) eqn:E; [apply Z.eqb_eq in E; tauto |].
      apply IH. tauto.
Qed.

Lemma store_add_fresh (d : IDB.objectStore) (it : Item.t) :
  IDB.wf d -> Item.id it = None ->
  ~ In (Item.url it) (map IDB.url_of (IDB.records d)) ->
  IDB.store_add d it
  = (Fulfilled (IDB.keyGen d),
     IDB.mkStore
       (IDB.insert_key (IDB.keyGen d) (Item.set_id (IDB.keyGen d) it)
                       (IDB.records d))
       (Z.max (IDB.keyGen d) (IDB.keyGen d + 1))).
Proof.
  intros Hd Hid Hu. unfold IDB.store_add, IDB.key_for. rewrite Hid.
  rewrite (wf_fresh_key d Hd).
  destruct (IDB.url_taken _ _ _) eqn:E; [| reflexivity].
  apply url_taken_In in E. contradiction.
Qed.

Lemma getLoadCandidate_within_wait
      (cfg : Model2.config) (now' : Z) (m : Model.model)
      (d : IDB.objectStore) (f : Feed.t) :
  Model.db m = Some d ->
  Feeds.first (Model.feeds m) = Some (Feed.id f) ->
  Feeds.find_feed (Feed.id f) (Feeds.stored (Model.feeds m)) = Some f ->
  now' - Model2.MinReloadWait cfg * 3600 * 1000 < Feed.lastLoadTime f ->
  Model2.cb_getLoadCandidate cfg now' (Fulfilled tt) m = (Fulfilled None, m).
Proof.
  intros Hd H1 Hf Hw. unfold Model2.cb_getLoadCandidate.
  destruct (_ >=? _); [reflexivity |].
  rewrite H1. destruct (negb _); [reflexivity |].
  unfold Feeds.get. rewrite Hd, Hf.
  destruct (Feed.lastLoadTime f >? _) eqn:E; [reflexivity |].
  rewrite Z.gtb_ltb in E. apply Z.ltb_ge in E. lia.
Qed.

(** C9, as the code has it.  When the loader hands back a registered feed
    with its error set, and the random url of the placeholder is not
    already stored nor among the entries handed back with the feed,
    cb_updateFeed pushes exactly one item of its own after the entries:
    the placeholder, whose content is a fixed notice naming the feed url
    and pointing to the console (it is the same whatever the error says)
    and whose tags are the single marker "_error".  The feed is persisted
    with lastLoadTime set to the time of the attempt and the error
    cleared, and as long as the minimum reload wait has not elapsed since,
    cb_getLoadCandidate resolves to null when that feed's turn comes. *)
Theorem cb_updateFeed_failed_fetch
        (cfg : Model2.config) (now later : Z) (rnd : string)
        (feed f0 : Feed.t) (items : list Item.t)
        (m : Model.model) (d : IDB.objectStore) :
  Model.db m = Some d -> IDB.wf d ->
  Items.truthy (Feed.error feed) = true ->
  Feeds.find_feed (Feed.id feed) (Feeds.stored (Model.feeds m)) = Some f0 ->
  ~ In rnd (map IDB.url_of (IDB.records d)) ->
  ~ In rnd (map Item.url items) ->
  exists (m' : Model.model) (d1 d2 : IDB.objectStore) (st1 : Items.state)
         (k : Z),
    push_reverse items (Model.db m) (Model.cursor m)
    = (Fulfilled tt, Some d1, st1)
    /\ Model2.cb_updateFeed cfg now later rnd (Fulfilled tt) feed items m
       = (Fulfilled tt, m')
    /\ Model.db m' = Some d2
    /\ Permutation (IDB.records d2)
         ((k, Item.set_id k (Model2.oopsItem later rnd feed)) :: IDB.records d1)
    /\ IDB.get (Some d2) k
       = Fulfilled (Some (Item.set_id k (Model2.oopsItem later rnd feed)))
    /\ Items.items (Model.cursor m') = Items.items st1 ++ [k]
    /\ Item.tags (Model2.oopsItem later rnd feed) = ["_error"%string]
    /\ Item.contentHtml (Model2.oopsItem later rnd feed)
       = String.append "If you see this, this feed '"
           (String.append (Feed.feedUrl feed)
              "' failed loading:Check the console for the detail error.")
    /\ Model2.oopsItem later rnd feed
       = Model2.oopsItem later rnd (Feed.delete_error feed)
    /\ Feeds.find_feed (Feed.id feed) (Feeds.stored (Model.feeds m'))
       = Some (Feed.set_lastLoadTime now (Feed.delete_error feed))
    /\ forall (now' : Z) (m2 : Model.model) (d' : IDB.objectStore),
        Model.db m2 = Some d' ->
        Feeds.stored (Model.feeds m2) = Feeds.stored (Model.feeds m') ->
        Feeds.first (Model.feeds m2) = Some (Feed.id feed) ->
        now' - Model2.MinReloadWait cfg * 3600 * 1000 < now ->
        Model2.cb_getLoadCandidate cfg now' (Fulfilled tt) m2
        = (Fulfilled None, m2).
Proof.
  intros Hd Hw Ht Hf Hu Hi.
  destruct (push_each_open (rev items) d (Model.cursor m) Hw)
    as (d1 & st1 & E & W1 & L & _ & _ & U).
  assert (Hu1 : ~ In (Item.url (Model2.oopsItem later rnd feed))
                  (map IDB.url_of (IDB.records d1))).
  { simpl. intros Hin. destruct (U _ Hin) as [H | H]; [| contradiction].
    apply Hi. rewrite map_rev in H. now apply in_rev in H. }
  pose proof (store_add_fresh d1 (Model2.oopsItem later rnd feed) W1 eq_refl Hu1)
    as A.
  set (k := IDB.keyGen d1) in *.
  set (oops := Model2.oopsItem later rnd feed) in *.
  set (d2 := IDB.mkStore (IDB.insert_key k (Item.set_id k oops) (IDB.records d1))
                         (Z.max k (k + 1))) in *.
  set (feed' := Feed.set_lastLoadTime now (Feed.delete_error feed)).
  assert (Hk : ~ In k (map fst (IDB.records d1))).
  { rewrite <- has_key_In. unfold k. now rewrite wf_fresh_key. }
  assert (Hnum : (Items.length st1 - Items.length (Model.cursor m) + 1 >? 0)
                 = true).
  { apply Z.gtb_lt. unfold Items.length in *. lia. }
  eexists _, d1, d2, st1, k.
  split; [unfold push_reverse; rewrite Hd; exact E |].
  split.
  { unfold Model2.cb_updateFeed, push_reverse. rewrite Hd, E, Ht.
    cbn [Model2.with_items Model2.emitModelError Model.emit Model.db
         Model.cursor Model.feeds Model.events].
    rewrite pushItem_open. fold oops. rewrite A.
    unfold Model2.stamp_feed. rewrite Hnum.
    cbn [Model2.with_items Model.db Model.cursor Model.feeds Model.events
         Feeds.updateFeed].
    reflexivity. }
  split; [reflexivity |].
  split; [symmetry; apply insert_key_perm |].
  split; [simpl; f_equal; now apply find_key_insert_key |].
  split; [reflexivity |].
  split; [reflexivity |].
  split; [reflexivity |].
  split; [reflexivity |].
  assert (Hs : Feeds.find_feed (Feed.id feed)
                 (Feeds.replace_feed (Feed.id feed') (fun _ => feed')
                    (Feeds.stored (Model.feeds m)))
               = Some feed')
    by (apply (find_feed_replace_same _ (fun _ => feed') _ f0); exact Hf).
  split; [exact Hs |].
  intros now' m2 d' Hd2 Hst H1 Hlt.
  apply (getLoadCandidate_within_wait cfg now' m2 d' feed' Hd2 H1).
  - rewrite Hst. exact Hs.
  - exact Hlt.
Qed.

Lemma cb_updateFeed_failed_fetch_witness :
  exists m' : Model.model,
    Model2.cb_updateFeed Model2.default_config 10000000 10000001 "k3j9x0a1b2c"
                         (Fulfilled tt) Sample.feedA_failed []
                         (Model.init Sample.db_two Sample.reg_AB)
    = (Fulfilled tt, m')
    /\ Feeds.find_feed 1 (Feeds.stored (Model.feeds m'))
       = Some (Feed.mk 1 "http://a/feed" "A" 10000000 None).
Proof.
  destruct (cb_updateFeed_failed_fetch
              Model2.default_config 10000000 10000001 "k3j9x0a1b2c"
              Sample.feedA_failed Sample.feedA []
              (Model.init Sample.db_two Sample.reg_AB) Sample.db_two)
    as (m' & d1 & d2 & st1 & k & _ & E & _ & _ & _ & _ & _ & _ & _ & F & _).
  - reflexivity.
  - apply db_two_wf.
  - reflexivity.
  - reflexivity.
  - simpl. intuition discriminate.
  - simpl. tauto.
  - exists m'. split; [exact E | exact F].
Defined.

(** C9, as stated, fails: the item pushed for a feed whose fetch failed
    does not carry the error text.  Feed A comes back with the error
    "NetworkError when attempting to fetch resource."; the one item pushed
    for it holds a fixed notice in which that text does not occur.  (The
    placeholder of items.js has the same kind of fixed notice, and no tag
    at all.) *)
Lemma oops_item_lacks_error_text :
  exists (m' : Model.model) (it : Item.t),
    Model2.cb_updateFeed Model2.default_config 10000000 10000001 "k3j9x0a1b2c"
                         (Fulfilled tt) Sample.feedA_failed []
                         (Model.init Sample.db_two Sample.reg_AB)
    = (Fulfilled tt, m')
    /\ Items.items (Model.cursor m') = [1; 2; 3]
    /\ IDB.get (Model.db m') 3 = Fulfilled (Some it)
    /\ Item.tags it = ["_error"%string]
    /\ Feed.error Sample.feedA_failed
       = Some "NetworkError when attempting to fetch resource."%string
    /\ Item.contentHtml it
       = "If you see this, this feed 'http://a/feed' failed loading:Check the console for the detail error."%string
    /\ contains "NetworkError when attempting to fetch resource."
                (Item.contentHtml it) = false
    /\ Item.contentHtml (Items.oopsItem 10000001 "k3j9x0a1b2c")
       = "If you see this, this feed failed loading"%string
    /\ Item.tags (Items.oopsItem 10000001 "k3j9x0a1b2c") = [].
Proof.
  eexists _, _. split; [vm_compute; reflexivity |].
  split; [reflexivity |]. split; [vm_compute; reflexivity |].
  repeat split.
Qed.

(* ================================================================== *)
(** * Further properties of the cursor store *)

Lemma find_key_stored (k : Z) (rs : list (Z * Item.t)) :
  In k (map fst rs) -> exists v, IDB.find_key k rs = Some v.
Proof.
  induction rs as [| [k' v'] rs IH]; simpl; [tauto |].
  intros [E | H].
  - subst k'. rewrite Z.eqb_refl. eauto.
  - destruct (k' =? k); eauto.
Qed.

Lemma state_eta (st : Items.state) :
  Items.mkState (Items.items st) (Items.reading st) (Items.known st) = st.
Proof. now destruct st. Qed.

Lemma deleteCurrentItem_cases (db : IDB.handle) (st : Items.state) :
  (exists db',
      Items.deleteCurrentItem db st
      = (Fulfilled true, db',
         Items.mkState
           (Items.slice (Items.items st) 0 (Items.reading st)
            ++ Items.slice_from (Items.items st) (Items.reading st + 1))
           (Items.reading st - 1) (Items.known st - 1))
      /\ 0 <= Items.reading st < Items.length st)
  \/ (exists r db',
         Items.deleteCurrentItem db st = (r, db', st) /\ r <> Fulfilled true).
Proof.
  unfold Items.deleteCurrentItem.
  destruct (Items.reading st <? 0) eqn:E.
  - right. eexists _, _. split; [reflexivity | discriminate].
  - apply Z.ltb_ge in E.
    destruct (Items.index _ _) as [k |] eqn:Hk.
    + destruct (IDB.delete db k) as [[[] | e] db'].
      * left. exists db'. split; [reflexivity |].
        destruct (index_split _ _ _ Hk) as [Hr _]. exact Hr.
      * right. eexists _, _. split; [reflexivity | discriminate].
    + right. eexists _, _. split; [reflexivity | discriminate].
Qed.

(** X1: the known cursor never falls except by the one step of a
    successful deleteCurrentItem: forwardCursor keeps or raises it,
    backwardCursor and pushItem leave it alone, and deleteCurrentItem either
    resolves to true and takes exactly one from both cursors, or leaves the
    whole module state as it was. *)
Theorem known_falls_only_on_delete
        (db : IDB.handle) (it : Item.t) (st : Items.state) :
  Items.known st <= Items.known (snd (Items.forwardCursor st))
  /\ Items.known (snd (Items.backwardCursor st)) = Items.known st
  /\ Items.known (snd (Items.pushItem db it st)) = Items.known st
  /\ ((fst (fst (Items.deleteCurrentItem db st)) = Fulfilled true
       /\ Items.known (snd (Items.deleteCurrentItem db st)) = Items.known st - 1
       /\ Items.reading (snd (Items.deleteCurrentItem db st))
          = Items.reading st - 1)
      \/ (fst (fst (Items.deleteCurrentItem db st)) <> Fulfilled true
          /\ snd (Items.deleteCurrentItem db st) = st)).
Proof.
  split; [| split; [| split]].
  - rewrite forwardCursor_spec. destruct (_ >=? _); simpl; lia.
  - unfold Items.backwardCursor. now destruct (_ <=? _).
  - unfold Items.pushItem. now destruct (IDB.add db it) as [[k | e] db'].
  - destruct (deleteCurrentItem_cases db st)
      as [(db' & E & _) | (r & db' & E & N)]; rewrite E; simpl; auto.
Qed.

(** X2: moving back and then forward is a round trip: when the cursors
    are in order and backwardCursor succeeds, forwardCursor on the result
    succeeds and gives back the very state one started from. *)
Theorem backward_then_forward (st : Items.state) :
  Cursor.cursors_ok st ->
  fst (Items.backwardCursor st) = true ->
  Items.forwardCursor (snd (Items.backwardCursor st)) = (true, st).
Proof.
  intros (H1 & H2 & H3). unfold Items.backwardCursor, Items.length in *.
  destruct (Items.reading st <=? 0) eqn:E; [discriminate |]. intros _.
  apply Z.leb_gt in E. unfold Items.forwardCursor. simpl.
  destruct (_ >=? _) eqn:G.
  - rewrite Z.geb_leb in G. apply Z.leb_le in G. lia.
  - destruct (Items.known st <? _) eqn:K; [apply Z.ltb_lt in K; lia |].
    f_equal. replace (Items.reading st - 1 + 1) with (Items.reading st) by lia.
    apply state_eta.
Qed.

Lemma backward_then_forward_witness :
  Items.forwardCursor
    (snd (Items.backwardCursor (Cursor.cur Sample.w_two)))
  = (true, Cursor.cur Sample.w_two).
Proof.
  apply (backward_then_forward (Cursor.cur Sample.w_two)).
  - apply reachable_cursors_ok, w_two_reachable.
  - reflexivity.
Defined.

(** X3: moving forward and then back restores reading only when there
    was an item under the cursor: from reading >= 0 a successful
    forwardCursor is undone by backwardCursor (known keeps the value
    forwardCursor gave it), but after the first move from reading = -1
    backwardCursor refuses, so the cursor never returns to -1 by moving. *)
Theorem forward_then_backward (st : Items.state) :
  fst (Items.forwardCursor st) = true ->
  let st1 := snd (Items.forwardCursor st) in
  (0 <= Items.reading st ->
   Items.backwardCursor st1
   = (true, Items.mkState (Items.items st) (Items.reading st)
              (Items.known st1)))
  /\ (Items.reading st = -1 -> Items.backwardCursor st1 = (false, st1)).
Proof.
  unfold Items.forwardCursor.
  destruct (_ >=? _); [discriminate |]. intros _. simpl.
  unfold Items.backwardCursor. simpl. split; intros H.
  - destruct (_ <=? 0) eqn:E; [apply Z.leb_le in E; lia |].
    do 2 f_equal. lia.
  - rewrite H. reflexivity.
Qed.

Lemma forward_then_backward_witness :
  Items.backwardCursor
    (snd (Items.forwardCursor (Cursor.loaded Sample.db_gap)))
  = (true, Items.mkState [1; 2] 0 1)
  /\ Items.backwardCursor
       (snd (Items.forwardCursor (Items.mkState [1; 2] (-1) (-1))))
     = (false, Items.mkState [1; 2] 0 0).
Proof.
  split.
  - apply (forward_then_backward (Cursor.loaded Sample.db_gap) eq_refl).
    vm_compute. discriminate.
  - apply (forward_then_backward (Items.mkState [1; 2] (-1) (-1)) eq_refl).
    reflexivity.
Defined.

(** X4: how the unread count moves, for cursors in order: a successful
    forwardCursor takes one from it when reading was at known and leaves
    it otherwise; backwardCursor and deleteCurrentItem never change it;
    pushItem adds one when the item is stored and nothing when it is
    refused. *)
Theorem unreadCount_accounting
        (db : IDB.handle) (it : Item.t) (st : Items.state) :
  Cursor.cursors_ok st ->
  (fst (Items.forwardCursor st) = true ->
   Items.unreadCount (snd (Items.forwardCursor st))
   = if Items.reading st =? Items.known st
     then Items.unreadCount st - 1 else Items.unreadCount st)
  /\ Items.unreadCount (snd (Items.backwardCursor st)) = Items.unreadCount st
  /\ Items.unreadCount (snd (Items.deleteCurrentItem db st))
     = Items.unreadCount st
  /\ Items.unreadCount (snd (Items.pushItem db it st))
     = if is_rejected (fst (fst (Items.pushItem db it st)))
       then Items.unreadCount st else Items.unreadCount st + 1.
Proof.
  intros (H1 & H2 & H3). unfold Items.length in *.
  split; [| split; [| split]].
  - rewrite forwardCursor_spec. unfold Items.length, Items.unreadCount.
    destruct (_ >=? _); [discriminate |]. intros _. simpl.
    destruct (Items.reading st =? Items.known st) eqn:E.
    + apply Z.eqb_eq in E. lia.
    + apply Z.eqb_neq in E. lia.
  - unfold Items.backwardCursor. now destruct (_ <=? _).
  - destruct (deleteCurrentItem_cases db st)
      as [(db' & E & Hr) | (r & db' & E & N)]; rewrite E; simpl; [| reflexivity].
    unfold Items.unreadCount, Items.length in *. simpl.
    destruct (index_some (Items.items st) (Items.reading st) Hr) as [k Hk].
    rewrite slice_upto, slice_from_at by lia.
    rewrite (length_without _ _ _ Hk). lia.
  - unfold Items.pushItem. destruct (IDB.add db it) as [[k | e] db']; simpl;
      [| reflexivity].
    unfold Items.unreadCount. simpl. rewrite length_app. simpl. lia.
Qed.

Lemma unreadCount_accounting_witness :
  Items.unreadCount
    (snd (Items.forwardCursor (Cursor.loaded Sample.db_two)))
  = Items.unreadCount (Cursor.loaded Sample.db_two) - 1.
Proof.
  apply (unreadCount_accounting (Some Sample.db_two) (Sample.fresh "http://a/3")
           (Cursor.loaded Sample.db_two)).
  - apply cursors_ok_load, cursors_ok_init.
  - reflexivity.
Defined.

(** X5: in every reachable state getCurrentItem is fulfilled: with null
    when nothing is under the cursor (reading = -1), and otherwise with
    the stored item whose key is items[reading]; it never comes back
    empty-handed or rejected for a cursor on an item. *)
Theorem getCurrentItem_reachable (w : Cursor.world) :
  Cursor.reachable w ->
  let db := Cursor.db w in
  let st := Cursor.cur w in
  (Items.reading st < 0 -> Items.getCurrentItem db st = Fulfilled None)
  /\ (0 <= Items.reading st ->
      exists k it,
        Items.index (Items.items st) (Items.reading st) = Some k
        /\ IDB.get db k = Fulfilled (Some it)
        /\ Items.getCurrentItem db st = Fulfilled (Some it)).
Proof.
  intros Hw db st. apply reachable_world_ok in Hw.
  destruct Hw as (d & Hd & Hwf & [Hn Hi] & Hc).
  fold db in Hd. fold st in Hn, Hi, Hc. rewrite Hd.
  unfold Items.getCurrentItem. split; intros H.
  - destruct (_ >=? 0) eqn:E; [| reflexivity].
    rewrite Z.geb_leb in E. apply Z.leb_le in E. lia.
  - destruct (_ >=? 0) eqn:E;
      [| rewrite Z.geb_leb in E; apply Z.leb_gt in E; lia].
    unfold Cursor.cursors_ok, Items.length in Hc.
    destruct (index_some (Items.items st) (Items.reading st)) as [k Hk];
      [lia |].
    rewrite Hk.
    assert (Hin : In k (Items.items st)).
    { destruct (index_split _ _ _ Hk) as [_ Es]. rewrite Es.
      apply in_or_app. right. now left. }
    destruct (find_key_stored k (IDB.records d) (Hi k Hin)) as [v Hv].
    exists k, v. simpl. rewrite Hv. auto.
Qed.

Lemma getCurrentItem_reachable_witness :
  exists k it,
    Items.index (Items.items (Cursor.cur Sample.w_two))
                (Items.reading (Cursor.cur Sample.w_two)) = Some k
    /\ IDB.get (Cursor.db Sample.w_two) k = Fulfilled (Some it)
    /\ Items.getCurrentItem (Cursor.db Sample.w_two) (Cursor.cur Sample.w_two)
       = Fulfilled (Some it).
Proof.
  apply (getCurrentItem_reachable Sample.w_two w_two_reachable).
  vm_compute. discriminate.
Defined.

(** ** Pushing new items *)

Lemma insert_key_last (k : Z) (v : Item.t) (rs : list (Z * Item.t)) :
  Forall (fun k' => k' < k) (map fst rs) ->
  IDB.insert_key k v rs = rs ++ [(k, v)].
Proof.
  induction rs as [| [k' v'] rs IH]; simpl; intros H; [reflexivity |].
  inversion H as [| x xs Hx Hxs]; subst.
  destruct (k <? k') eqn:E; [apply Z.ltb_lt in E; lia |].
  now rewrite IH.
Qed.

Lemma find_key_app_other (k k' : Z) (v : Item.t) (rs : list (Z * Item.t)) :
  k <> k' -> IDB.find_key k (rs ++ [(k', v)]) = IDB.find_key k rs.
Proof.
  intros N. induction rs as [| [k0 v0] rs IH]; simpl.
  - destruct (k' =? k) eqn:E; [apply Z.eqb_eq in E; congruence | reflexivity].
  - now rewrite IH.
Qed.

Lemma store_add_appends (d : IDB.objectStore) (it : Item.t) :
  IDB.wf d -> Item.id it = None ->
  ~ In (Item.url it) (map IDB.url_of (IDB.records d)) ->
  IDB.store_add d it
  = (Fulfilled (IDB.keyGen d),
     IDB.mkStore (IDB.records d ++ [(IDB.keyGen d, Item.set_id (IDB.keyGen d) it)])
                 (IDB.keyGen d + 1)).
Proof.
  intros Hd Hid Hu. rewrite (store_add_fresh d it Hd Hid Hu).
  destruct Hd as [_ Hk _].
  rewrite insert_key_last by exact Hk.
  do 2 f_equal. lia.
Qed.

(** X6: what goes in comes out.  On an open, well-formed store, pushing
    an item that has no id and a url not yet stored succeeds; the store
    hands out its next key, which is appended at the end of the id list
    (cursors untouched); db.get with that key returns the item with the
    key written into its id, and every other key reads as before. *)
Theorem pushItem_then_get (d : IDB.objectStore) (it : Item.t) (st : Items.state) :
  IDB.wf d ->
  Item.id it = None ->
  ~ In (Item.url it) (map IDB.url_of (IDB.records d)) ->
  exists d' : IDB.objectStore,
    Items.pushItem (Some d) it st
    = (Fulfilled tt, Some d',
       Items.mkState (Items.items st ++ [IDB.keyGen d]) (Items.reading st)
                     (Items.known st))
    /\ IDB.get (Some d') (IDB.keyGen d)
       = Fulfilled (Some (Item.set_id (IDB.keyGen d) it))
    /\ IDB.keys d' = IDB.keys d ++ [IDB.keyGen d]
    /\ IDB.keyGen d' = IDB.keyGen d + 1
    /\ forall k, k <> IDB.keyGen d -> IDB.get (Some d') k = IDB.get (Some d) k.
Proof.
  intros Hd Hid Hu. eexists. rewrite pushItem_open.
  rewrite (store_add_appends d it Hd Hid Hu).
  split; [reflexivity |]. simpl.
  assert (Hk : ~ In (IDB.keyGen d) (map fst (IDB.records d)))
    by (rewrite <- has_key_In; now rewrite wf_fresh_key).
  split; [| split; [| split]].
  - f_equal. rewrite <- insert_key_last by (now destruct Hd).
    now apply find_key_insert_key.
  - unfold IDB.keys. simpl. now rewrite map_app.
  - reflexivity.
  - intros k N. f_equal. now apply find_key_app_other.
Qed.

Lemma pushItem_then_get_witness :
  exists d' : IDB.objectStore,
    Items.pushItem (Some Sample.db_two) (Sample.fresh "http://a/3")
                   (Cursor.loaded Sample.db_two)
    = (Fulfilled tt, Some d', Items.mkState [1; 2; 3] 0 0)
    /\ IDB.get (Some d') 3
       = Fulfilled (Some (Item.set_id 3 (Sample.fresh "http://a/3"))).
Proof.
  destruct (pushItem_then_get Sample.db_two (Sample.fresh "http://a/3")
              (Cursor.loaded Sample.db_two) db_two_wf eq_refl)
    as (d' & E & G & _).
  - simpl. intuition discriminate.
  - exists d'. split; [exact E | exact G].
Defined.

Lemma push_each_grows (l : list Item.t) (d : IDB.objectStore) (st : Items.state) :
  IDB.wf d ->
  Items.length (snd (push_each l (Some d) st))
  <= Items.length st + Z.of_nat (List.length l).
Proof.
  revert d st. induction l as [| it l IH]; intros d st Hd; simpl; [lia |].
  rewrite pushItem_open.
  pose proof (wf_store_add d it Hd) as Hwf.
  destruct (IDB.store_add d it) as [[k | e] d1] eqn:A; simpl in Hwf.
  - specialize (IH d1 (Items.mkState (Items.items st ++ [k])
                         (Items.reading st) (Items.known st)) Hwf).
    unfold Items.length in *. simpl in IH. rewrite length_app in IH.
    simpl in IH. lia.
  - destruct (store_add_rejected _ _ _ _ A) as [De ->]. rewrite De.
    specialize (IH d st Hd). lia.
Qed.

(** X7: the push loop of the loaders cannot fail on an open, well-formed
    store, whatever items it is given: every refusal of the store is a
    DOMException and is swallowed.  It leaves both cursors where they
    were, and the list grows by at least nothing and at most the number of
    items offered; the store stays well-formed. *)
Theorem push_reverse_never_rejects
        (newItems : list Item.t) (d : IDB.objectStore) (st : Items.state) :
  IDB.wf d ->
  exists (d' : IDB.objectStore) (st' : Items.state),
    push_reverse newItems (Some d) st = (Fulfilled tt, Some d', st')
    /\ IDB.wf d'
    /\ Items.reading st' = Items.reading st
    /\ Items.known st' = Items.known st
    /\ Items.length st <= Items.length st'
    /\ Items.length st' <= Items.length st + Z.of_nat (List.length newItems).
Proof.
  intros Hd. unfold push_reverse.
  destruct (push_each_open (rev newItems) d st Hd)
    as (d' & st' & E & W & L & R & K & _).
  exists d', st'. rewrite E.
  split; [reflexivity |]. split; [exact W |]. split; [exact R |].
  split; [exact K |]. split; [exact L |].
  pose proof (push_each_grows (rev newItems) d st Hd) as G.
  rewrite E in G. simpl in G. now rewrite length_rev in G.
Qed.

Lemma push_reverse_never_rejects_witness :
  exists (d' : IDB.objectStore) (st' : Items.state),
    push_reverse [Sample.fresh "http://a/2"; Sample.fresh "http://a/3"]
                 (Some Sample.db_two) (Cursor.loaded Sample.db_two)
    = (Fulfilled tt, Some d', st')
    /\ Items.length st' <= 2 + 2.
Proof.
  destruct (push_reverse_never_rejects
              [Sample.fresh "http://a/2"; Sample.fresh "http://a/3"]
              Sample.db_two (Cursor.loaded Sample.db_two) db_two_wf)
    as (d' & st' & E & _ & _ & _ & _ & G).
  exists d', st'. split; [exact E | exact G].
Defined.

Lemma push_each_fresh (l : list Item.t) (d : IDB.objectStore) (st : Items.state) :
  IDB.wf d ->
  Forall (fun it => Item.id it = None) l ->
  NoDup (map Item.url l) ->
  (forall it, In it l -> ~ In (Item.url it) (map IDB.url_of (IDB.records d))) ->
  push_each l (Some d) st
  = (Fulfilled tt,
     Some (IDB.mkStore (IDB.records d ++ Persist.stamped (IDB.keyGen d) l)
                       (IDB.keyGen d + Z.of_nat (List.length l))),
     Items.mkState
       (Items.items st ++ map fst (Persist.stamped (IDB.keyGen d) l))
       (Items.reading st) (Items.known st)).
Proof.
  revert d st. induction l as [| it l IH]; intros d st Hd Hid Hn Hf.
  - simpl. rewrite !app_nil_r, Z.add_0_r, state_eta. now destruct d.
  - inversion Hid as [| x xs Hx Hxs]; subst.
    inversion Hn as [| u us Hu Hus]; subst.
    cbn [push_each]. rewrite pushItem_open.
    rewrite (store_add_appends d it Hd Hx (Hf it (or_introl eq_refl))).
    pose proof (wf_store_add d it Hd) as Hwf.
    rewrite (store_add_appends d it Hd Hx (Hf it (or_introl eq_refl))) in Hwf.
    simpl in Hwf.
    rewrite IH; try assumption.
    + cbn [IDB.records IDB.keyGen Items.items Items.reading Items.known
           Persist.stamped map List.length].
      rewrite <- !app_assoc. cbn [app].
      replace (IDB.keyGen d + 1 + Z.of_nat (List.length l))
        with (IDB.keyGen d + Z.of_nat (S (List.length l))) by lia.
      reflexivity.
    + intros y Hy. cbn [IDB.records]. rewrite map_app, in_app_iff. simpl.
      intros [H | [H | []]].
      * now apply (Hf y (or_intror Hy)).
      * apply Hu. unfold IDB.url_of in H. simpl in H. rewrite H.
        now apply in_map.
Qed.

(** X8: newest last.  When the entries handed to the push loop carry no
    id and have urls that are pairwise different and not yet stored, all
    of them are stored, and in reverse order of the array: the last entry
    of the array gets the store's next key, the first entry the highest,
    so that the keys, which are appended to the id list in ascending
    order, run from the oldest entry of the feed document to the newest. *)
Theorem push_reverse_oldest_first
        (newItems : list Item.t) (d : IDB.objectStore) (st : Items.state) :
  IDB.wf d ->
  Forall (fun it => Item.id it = None) newItems ->
  NoDup (map Item.url newItems) ->
  (forall it, In it newItems ->
              ~ In (Item.url it) (map IDB.url_of (IDB.records d))) ->
  push_reverse newItems (Some d) st
  = (Fulfilled tt,
     Some (IDB.mkStore
             (IDB.records d ++ Persist.stamped (IDB.keyGen d) (rev newItems))
             (IDB.keyGen d + Z.of_nat (List.length newItems))),
     Items.mkState
       (Items.items st
        ++ map fst (Persist.stamped (IDB.keyGen d) (rev newItems)))
       (Items.reading st) (Items.known st)).
Proof.
  intros Hd Hid Hn Hf. unfold push_reverse.
  rewrite push_each_fresh; try assumption.
  - now rewrite length_rev.
  - now apply Forall_rev.
  - rewrite map_rev. now apply NoDup_rev.
  - intros it Hin. apply Hf. now apply in_rev.
Qed.

Lemma push_reverse_oldest_first_witness :
  push_reverse [Sample.fresh "http://a/new"; Sample.fresh "http://a/old"]
               (Some Sample.db_two) (Cursor.loaded Sample.db_two)
  = (Fulfilled tt,
     Some (IDB.mkStore
             (IDB.records Sample.db_two
              ++ [(3, Item.set_id 3 (Sample.fresh "http://a/old"));
                  (4, Item.set_id 4 (Sample.fresh "http://a/new"))])
             5),
     Items.mkState [1; 2; 3; 4] 0 0).
Proof.
  apply (push_reverse_oldest_first
           [Sample.fresh "http://a/new"; Sample.fresh "http://a/old"]
           Sample.db_two (Cursor.loaded Sample.db_two) db_two_wf).
  - repeat constructor.
  - repeat constructor; simpl; intuition discriminate.
  - simpl. intros it [<- | [<- | []]]; simpl; intuition discriminate.
Defined.

(* ================================================================== *)
(** * Further properties of the normalizers *)

Lemma truthy_text (s : option string) :
  Items.truthy s = true -> s = Some (Items.text_of s) /\ Items.text_of s <> ""%string.
Proof.
  destruct s as [s |]; simpl; [| discriminate].
  intros H. split; [reflexivity |].
  intros E. subst s. discriminate.
Qed.

Lemma strip_white_space (w s : string) :
  In w Items.white_space ->
  Items.strip_one Items.white_space (String.append w s) = Some s
  /\ (String.length s < String.length (String.append w s))%nat.
Proof.
  intros H. unfold Items.white_space in H. simpl in H.
  repeat (destruct H as [<- | H];
          [split; [vm_compute; reflexivity | simpl; lia] |]).
  contradiction.
Qed.

Lemma strip_all_blank (s : string) :
  Items.blank s ->
  forall n, (String.length s <= n)%nat ->
            Items.strip_all n Items.white_space s = EmptyString.
Proof.
  induction 1 as [| w s Hw Hs IH]; intros n Hn.
  - destruct n; reflexivity.
  - destruct (strip_white_space w s Hw) as [E L].
    destruct n as [| n]; [lia |].
    cbn [Items.strip_all]. rewrite E. apply IH. lia.
Qed.

Lemma trim_blank (s : string) : Items.blank s -> Items.trim s = EmptyString.
Proof.
  intros H. unfold Items.trim, Items.trim_start.
  now rewrite (strip_all_blank s H (String.length s) (le_n _)).
Qed.

(** X9: whatever one of the three normalizers returns as an item is fit
    to be pushed: it has no id (the store assigns it), it is not flagged
    read, and its url is not empty. *)
Theorem normalized_items_are_new :
  (forall (json : Items.json_entry) (it : Item.t),
      Items.parseJSONItem json = Fulfilled (Some it) ->
      Persist.brand_new it /\ Item.url it <> ""%string)
  /\ (forall (elem : Items.xml_elem) (it : Item.t),
         Items.parseRSS2Item elem = Fulfilled (Some it) ->
         Persist.brand_new it /\ Item.url it <> ""%string)
  /\ (forall (elem : Items.xml_elem) (it : Item.t),
         Items.parseATOMItem elem = Fulfilled (Some it) ->
         Persist.brand_new it /\ Item.url it <> ""%string).
Proof.
  split; [| split].
  - intros json it. unfold Items.parseJSONItem.
    assert (G : forall c, (if Items.truthy (Items.json_url json)
                           then Fulfilled
                                  (Some (Item.mk None false None None
                                           (Some (DateOf (Items.date_published json)))
                                           c
                                           (match Items.json_url json with
                                            | Some u => u
                                            | None => ""%string
                                            end)
                                           (Items.image json)
                                           (Items.json_title json)
                                           (match Items.json_tags json with
                                            | Some ts => ts
                                            | None => []
                                            end)))
                           else Fulfilled None) = Fulfilled (Some it) ->
                          Persist.brand_new it /\ Item.url it <> ""%string).
    { intros c. destruct (Items.truthy (Items.json_url json)) eqn:U;
        [| discriminate].
      intros H. inversion H; subst. simpl.
      destruct (truthy_text _ U) as [E N]. rewrite E. simpl.
      repeat split. exact N. }
    destruct (Items.content_html json) as [html |]; [apply G |].
    destruct (Items.content_text json) as [text |]; [apply G | discriminate].
  - intros elem it. unfold Items.parseRSS2Item.
    destruct (if Items.truthy _ then _ else _); [| discriminate].
    destruct (Items.truthy (Items.getXMLTextContent elem (Items.Tag "link")))
      eqn:U; [| discriminate].
    intros H. inversion H; subst. simpl.
    repeat split. now apply truthy_text.
  - intros elem it. unfold Items.parseATOMItem.
    destruct (if Items.truthy (Items.getXMLTextContent elem (Items.Tag "content"))
              then _ else _); [| discriminate].
    destruct (Items.truthy (Items.getXMLTextAttribute elem
                              (Items.TagRel "link" "alternate") "href")) eqn:A.
    + intros H. inversion H; subst. simpl. repeat split.
      now apply truthy_text.
    + destruct (Items.truthy (Items.getXMLTextAttribute elem
                                (Items.Tag "link") "href")) eqn:L;
        [| discriminate].
      intros H. inversion H; subst. simpl. repeat split.
      now apply truthy_text.
Qed.

Lemma normalized_items_are_new_witness :
  exists it : Item.t,
    Items.parseATOMItem Sample.atom_summary = Fulfilled (Some it)
    /\ Persist.brand_new it /\ Item.url it <> ""%string.
Proof.
  destruct normalized_items_are_new as (_ & _ & H).
  eexists. split; [reflexivity |].
  apply (H Sample.atom_summary). reflexivity.
Defined.

(** X10: where the body of an item comes from.  In an item returned by
    parseJSONItem contentHtml is content_html as it stands whenever that
    property is present (even empty), and otherwise content_text inside a
    paragraph tag.  In an item returned by parseRSS2Item it is the trimmed
    content:encoded when that is not empty, and otherwise the trimmed
    description as it stands, without a paragraph tag.  In an item
    returned by parseATOMItem it is the trimmed content when that is not
    empty, and otherwise the trimmed summary inside a paragraph tag. *)
Theorem normalized_content_precedence :
  (forall (json : Items.json_entry) (it : Item.t),
      Items.parseJSONItem json = Fulfilled (Some it) ->
      Item.contentHtml it
      = match Items.content_html json with
        | Some html => html
        | None => Items.paragraph (Items.text_of (Items.content_text json))
        end)
  /\ (forall (elem : Items.xml_elem) (it : Item.t),
         Items.parseRSS2Item elem = Fulfilled (Some it) ->
         Item.contentHtml it
         = if Items.truthy (Items.getXMLTextContent elem (Items.Tag "encoded"))
           then Items.text_of (Items.getXMLTextContent elem (Items.Tag "encoded"))
           else Items.text_of
                  (Items.getXMLTextContent elem (Items.Tag "description")))
  /\ (forall (elem : Items.xml_elem) (it : Item.t),
         Items.parseATOMItem elem = Fulfilled (Some it) ->
         Item.contentHtml it
         = if Items.truthy (Items.getXMLTextContent elem (Items.Tag "content"))
           then Items.text_of (Items.getXMLTextContent elem (Items.Tag "content"))
           else Items.paragraph
                  (Items.text_of
                     (Items.getXMLTextContent elem (Items.Tag "summary")))).
Proof.
  split; [| split].
  - intros json it. unfold Items.parseJSONItem.
    destruct (Items.content_html json) as [html |].
    + destruct (Items.truthy _); [| discriminate].
      intros H. now inversion H.
    + destruct (Items.content_text json) as [text |]; [| discriminate].
      destruct (Items.truthy _); [| discriminate].
      intros H. now inversion H.
  - intros elem it. unfold Items.parseRSS2Item.
    destruct (Items.truthy (Items.getXMLTextContent elem (Items.Tag "encoded"))).
    + destruct (Items.truthy _); [| discriminate].
      intros H. now inversion H.
    + destruct (Items.truthy
                  (Items.getXMLTextContent elem (Items.Tag "description")));
        [| discriminate].
      destruct (Items.truthy _); [| discriminate].
      intros H. now inversion H.
  - intros elem it. unfold Items.parseATOMItem.
    destruct (Items.truthy (Items.getXMLTextContent elem (Items.Tag "content"))).
    + destruct (if Items.truthy _ then _ else _); [| discriminate].
      intros H. now inversion H.
    + destruct (Items.truthy
                  (Items.getXMLTextContent elem (Items.Tag "summary")));
        [| discriminate].
      destruct (if Items.truthy _ then _ else _); [| discriminate].
      intros H. now inversion H.
Qed.

Lemma normalized_content_precedence_witness :
  (exists it, Items.parseJSONItem Sample.json_both = Fulfilled (Some it)
              /\ Item.contentHtml it = ""%string)
  /\ (exists it, Items.parseRSS2Item Sample.rss_blank_content = Fulfilled (Some it)
                 /\ Item.contentHtml it = "plain words"%string)
  /\ (exists it, Items.parseATOMItem Sample.atom_summary = Fulfilled (Some it)
                 /\ Item.contentHtml it = "<p>hello</p>"%string).
Proof.
  destruct normalized_content_precedence as (H1 & H2 & H3).
  split; [| split]; eexists; (split; [reflexivity |]).
  - apply (H1 Sample.json_both). reflexivity.
  - apply (H2 Sample.rss_blank_content). reflexivity.
  - apply (H3 Sample.atom_summary). reflexivity.
Defined.

(** X11: the three outcomes of parseATOMItem, and where the url comes
    from.  The entry point throws exactly when both content and summary
    are missing or empty after trimming; it returns null exactly when
    there is a body but no link element with a non-empty href; otherwise
    it returns an item whose url is the href of the link with
    rel="alternate" when there is one, and the href of the first link
    element if not. *)
Theorem parseATOMItem_outcomes (elem : Items.xml_elem) :
  let body :=
    Items.truthy (Items.getXMLTextContent elem (Items.Tag "content"))
    || Items.truthy (Items.getXMLTextContent elem (Items.Tag "summary")) in
  let alternate :=
    Items.getXMLTextAttribute elem (Items.TagRel "link" "alternate") "href" in
  let link := Items.getXMLTextAttribute elem (Items.Tag "link") "href" in
  (Items.parseATOMItem elem = Rejected ThrownNull <-> body = false)
  /\ (Items.parseATOMItem elem = Fulfilled None <->
      body = true /\ Items.truthy alternate = false /\ Items.truthy link = false)
  /\ (forall it : Item.t,
         Items.parseATOMItem elem = Fulfilled (Some it) ->
         Item.url it = if Items.truthy alternate then Items.text_of alternate
                       else Items.text_of link).
Proof.
  unfold Items.parseATOMItem.
  destruct (Items.truthy (Items.getXMLTextContent elem (Items.Tag "content")));
    destruct (Items.truthy (Items.getXMLTextContent elem (Items.Tag "summary")));
    destruct (Items.truthy (Items.getXMLTextAttribute elem
                              (Items.TagRel "link" "alternate") "href"));
    destruct (Items.truthy (Items.getXMLTextAttribute elem
                              (Items.Tag "link") "href"));
    simpl; repeat split; try discriminate; try tauto;
    try (intros (? & ? & ?); discriminate);
    try (intros it H; now inversion H).
Qed.

Lemma parseATOMItem_outcomes_witness :
  exists it : Item.t,
    Items.parseATOMItem Sample.atom_two_links = Fulfilled (Some it)
    /\ Item.url it = "http://a/page"%string.
Proof.
  eexists. split; [reflexivity |].
  apply (parseATOMItem_outcomes Sample.atom_two_links). reflexivity.
Defined.

(** X12: a body of white space is no body.  When the text of an element
    consists only of characters that trim strips (spaces, tabs, line
    ends, no-break spaces and the other white space of the language),
    getXMLTextContent returns the empty string, which the normalizers
    treat like a missing element: an RSS item whose content:encoded is
    blank takes its description, and is dropped if the description is
    blank or missing too. *)
Theorem blank_text_counts_as_missing
        (elem : Items.xml_elem) (sel : Items.selector) (sub : Items.xml_node) :
  Items.querySelector elem sel = Some sub ->
  Items.blank (Items.textContent sub) ->
  Items.getXMLTextContent elem sel = Some ""%string
  /\ Items.truthy (Items.getXMLTextContent elem sel) = false
  /\ (sel = Items.Tag "encoded" ->
      Items.truthy (Items.getXMLTextContent elem (Items.Tag "description"))
      = false ->
      Items.parseRSS2Item elem = Fulfilled None)
  /\ (sel = Items.Tag "encoded" ->
      forall it : Item.t,
        Items.parseRSS2Item elem = Fulfilled (Some it) ->
        Item.contentHtml it
        = Items.text_of
            (Items.getXMLTextContent elem (Items.Tag "description"))).
Proof.
  intros Hq Hb.
  assert (E : Items.getXMLTextContent elem sel = Some ""%string).
  { unfold Items.getXMLTextContent. rewrite Hq.
    now rewrite trim_blank. }
  split; [exact E |]. split; [now rewrite E |]. split.
  - intros -> Hd. unfold Items.parseRSS2Item. now rewrite E, Hd.
  - intros -> it. unfold Items.parseRSS2Item. rewrite E. simpl.
    destruct (Items.truthy
                (Items.getXMLTextContent elem (Items.Tag "description")));
      [| discriminate].
    destruct (Items.truthy _); [| discriminate].
    intros H. now inversion H.
Qed.

Lemma blank_text_counts_as_missing_witness :
  Items.getXMLTextContent Sample.rss_blank_content (Items.Tag "encoded")
  = Some ""%string.
Proof.
  apply (blank_text_counts_as_missing Sample.rss_blank_content
           (Items.Tag "encoded") (Items.mkNode "encoded" [] "  ") eq_refl).
  apply (Items.blank_more " " " "); [simpl; tauto |].
  apply (Items.blank_more " " ""); [simpl; tauto |].
  apply Items.blank_empty.
Defined.

(** White space that is not ASCII is stripped like any other: a summary
    edged by no-break spaces comes out bare inside its paragraph tag, and
    an entry whose only body is a no-break space has no body. *)
Example parseATOMItem_no_break_space :
  (exists it,
      Items.parseATOMItem Sample.atom_nbsp_summary = Fulfilled (Some it)
      /\ Item.contentHtml it = "<p>hello</p>"%string)
  /\ Items.parseATOMItem Sample.atom_nbsp_content = Rejected ThrownNull.
Proof. split; [eexists; split; reflexivity | reflexivity]. Qed.

(** X13: the enclosure rule of the two XML normalizers.  In a returned
    item imageUrl is the url of the enclosure when the enclosure's type,
    read up to its first slash, is exactly "image", as in "image/png";
    with any other type, or none, imageUrl is left unset. *)
Theorem enclosure_becomes_image :
  (forall (elem : Items.xml_elem) (it : Item.t),
      Items.parseRSS2Item elem = Fulfilled (Some it) ->
      Item.imageUrl it
      = match Items.getXMLTextAttribute elem (Items.Tag "enclosure") "type" with
        | Some ty =>
            if String.eqb (Items.before_slash ty) "image"
            then Items.getXMLTextAttribute elem (Items.Tag "enclosure") "url"
            else None
        | None => None
        end)
  /\ (forall (elem : Items.xml_elem) (it : Item.t),
         Items.parseATOMItem elem = Fulfilled (Some it) ->
         Item.imageUrl it
         = match Items.getXMLTextAttribute elem
                   (Items.TagRel "link" "enclosure") "type" with
           | Some ty =>
               if String.eqb (Items.before_slash ty) "image"
               then Items.getXMLTextAttribute elem
                      (Items.TagRel "link" "enclosure") "href"
               else None
           | None => None
           end)
  /\ (forall sub : string,
         Items.before_slash (String.append "image/" sub) = "image"%string)
  /\ (forall sub : string,
         Items.before_slash (String.append "audio/" sub) = "audio"%string).
Proof.
  assert (G : forall e t,
             Items.image_of e t
             = match t with
               | Some ty => if String.eqb (Items.before_slash ty) "image"
                            then e else None
               | None => None
               end).
  { intros e [ty |]; [| reflexivity]. unfold Items.image_of, Items.truthy.
    destruct ty as [| c ty]; [reflexivity |]. reflexivity. }
  split; [| split; [| split]].
  - intros elem it. unfold Items.parseRSS2Item.
    destruct (if Items.truthy _ then _ else _); [| discriminate].
    destruct (Items.truthy _); [| discriminate].
    intros H. inversion H; subst. simpl. apply G.
  - intros elem it. unfold Items.parseATOMItem.
    destruct (if Items.truthy (Items.getXMLTextContent elem (Items.Tag "content"))
              then _ else _); [| discriminate].
    destruct (if Items.truthy _ then _ else _); [| discriminate].
    intros H. inversion H; subst. simpl. apply G.
  - reflexivity.
  - reflexivity.
Qed.

Lemma enclosure_becomes_image_witness :
  exists it : Item.t,
    Items.parseRSS2Item Sample.rss_blank_content = Fulfilled (Some it)
    /\ Item.imageUrl it = Some "http://a/9.png"%string.
Proof.
  destruct enclosure_becomes_image as (H & _).
  eexists. split; [reflexivity |].
  apply (H Sample.rss_blank_content). reflexivity.
Defined.

(* ================================================================== *)
(** * What the store holds after the operations *)

Lemma ascending_app_inv (a b : list Z) (k : Z) :
  IDB.ascending (a ++ k :: b) ->
  Forall (fun x => x < k) a /\ Forall (fun x => k < x) b.
Proof.
  induction a as [| x a IH]; simpl.
  - intros [H _]. split; [constructor | exact H].
  - intros [H1 H2]. destruct (IH H2) as [Ha Hb]. split; [| exact Hb].
    constructor; [| exact Ha].
    rewrite Forall_forall in H1. apply H1. apply in_or_app. right. now left.
Qed.

Lemma remove_key_absent (k : Z) (rs : list (Z * Item.t)) :
  ~ In k (map fst rs) -> IDB.remove_key k rs = rs.
Proof.
  induction rs as [| [k' v'] rs IH]; simpl; intros N; [reflexivity |].
  destruct (k' =? k) eqn:E; [apply Z.eqb_eq in E; tauto |].
  rewrite IH; tauto.
Qed.

Lemma remove_key_middle (k : Z) (v0 : Item.t) (a b : list (Z * Item.t)) :
  IDB.ascending (map fst (a ++ (k, v0) :: b)) ->
  IDB.remove_key k (a ++ (k, v0) :: b) = a ++ b.
Proof.
  rewrite map_app. simpl. intros H.
  destruct (ascending_app_inv _ _ _ H) as [Ha Hb]. clear H.
  induction a as [| [k' v'] a IH]; simpl in *.
  - rewrite Z.eqb_refl. apply remove_key_absent.
    intros Hin. rewrite Forall_forall in Hb. specialize (Hb _ Hin). lia.
  - inversion Ha as [| x xs Hx Hxs]; subst.
    destruct (k' =? k) eqn:E; [apply Z.eqb_eq in E; lia |].
    now rewrite IH.
Qed.

Lemma insert_key_middle (k : Z) (v : Item.t) (a b : list (Z * Item.t)) :
  Forall (fun x => x < k) (map fst a) ->
  Forall (fun x => k < x) (map fst b) ->
  IDB.insert_key k v (a ++ b) = a ++ (k, v) :: b.
Proof.
  intros Ha Hb. induction a as [| [k' v'] a IH]; simpl in *.
  - destruct b as [| [k' v'] b]; [reflexivity |]. simpl.
    inversion Hb as [| x xs Hx Hxs]; subst.
    destruct (k <? k') eqn:E; [reflexivity | apply Z.ltb_ge in E; lia].
  - inversion Ha as [| x xs Hx Hxs]; subst.
    destruct (k <? k') eqn:E; [apply Z.ltb_lt in E; lia |].
    now rewrite IH.
Qed.

Lemma put_middle (k : Z) (v0 v : Item.t) (a b : list (Z * Item.t)) :
  IDB.ascending (map fst (a ++ (k, v0) :: b)) ->
  IDB.insert_key k v (IDB.remove_key k (a ++ (k, v0) :: b)) = a ++ (k, v) :: b.
Proof.
  intros H. rewrite (remove_key_middle _ _ _ _ H).
  rewrite map_app in H. simpl in H.
  destruct (ascending_app_inv _ _ _ H) as [Ha Hb].
  now apply insert_key_middle.
Qed.

Lemma index_records (rs : list (Z * Item.t)) (i k : Z) :
  Items.index (map fst rs) i = Some k ->
  exists v0,
    rs = firstn (Z.to_nat i) rs ++ (k, v0) :: skipn (Z.to_nat (i + 1)) rs
    /\ 0 <= i < Z.of_nat (List.length rs).
Proof.
  intros H.
  assert (R : 0 <= i < Z.of_nat (List.length rs)).
  { destruct (index_split _ _ _ H) as [R _]. now rewrite length_map in R. }
  destruct (index_some rs i R) as [[k' v0] Hx].
  destruct (index_split _ _ _ Hx) as [_ E].
  exists v0. split; [| exact R].
  assert (k' = k).
  { unfold Items.index in H, Hx. destruct (i <? 0); [discriminate |].
    rewrite nth_error_map, Hx in H. simpl in H. congruence. }
  subst k'. exact E.
Qed.

Lemma url_free_for_own_key (k : Z) (v0 : Item.t) (a b : list (Z * Item.t)) :
  NoDup (map IDB.url_of (a ++ (k, v0) :: b)) ->
  IDB.url_taken (Item.url v0) (Some k) (a ++ (k, v0) :: b) = false.
Proof.
  intros Hn. destruct (IDB.url_taken _ _ _) eqn:E; [| reflexivity].
  unfold IDB.url_taken in E. apply existsb_exists in E.
  destruct E as ([k' v'] & Hin & Hc). simpl in Hc.
  apply andb_true_iff in Hc. destruct Hc as [Hu Hk].
  apply String.eqb_eq in Hu. apply negb_true_iff, Z.eqb_neq in Hk.
  rewrite map_app in Hn. simpl in Hn.
  pose proof (NoDup_remove_2 _ _ _ Hn) as N.
  exfalso. apply N. apply in_app_or in Hin.
  apply in_or_app. destruct Hin as [Hin | [Hin | Hin]].
  - left. apply in_map_iff. exists (k', v'). auto.
  - inversion Hin. congruence.
  - right. apply in_map_iff. exists (k', v'). auto.
Qed.

Lemma keyed_app (a b : list (Z * Item.t)) (g : IDB.objectStore) :
  IDB.records g = a ++ b ->
  Persist.keyed g <->
  Forall (fun r => Item.id (snd r) = Some (fst r)) a
  /\ Forall (fun r => Item.id (snd r) = Some (fst r)) b.
Proof. intros E. unfold Persist.keyed. rewrite E. apply Forall_app. Qed.

(** Marking a stored, unread item: the record is rewritten in place. *)
Lemma store_put_read (d : IDB.objectStore) (k : Z) (v0 : Item.t)
      (a b : list (Z * Item.t)) :
  IDB.wf d -> Persist.keyed d ->
  IDB.records d = a ++ (k, v0) :: b ->
  IDB.store_put d (Item.set_read true v0)
  = (Fulfilled k,
     IDB.mkStore (a ++ (k, Item.set_read true v0) :: b) (IDB.keyGen d)).
Proof.
  intros [Ha Hk Hu] Hkd E.
  assert (Hid : Item.id v0 = Some k).
  { unfold Persist.keyed in Hkd. rewrite E in Hkd.
    apply Forall_app in Hkd. destruct Hkd as [_ Hkd].
    now inversion Hkd. }
  unfold IDB.store_put, IDB.key_for. simpl. rewrite Hid.
  unfold IDB.keys in *. rewrite E in *.
  change (Item.url (Item.set_read true v0)) with (Item.url v0).
  rewrite (url_free_for_own_key k v0 a b Hu).
  rewrite (put_middle k v0 _ a b Ha).
  f_equal. f_equal.
  - do 2 f_equal. destruct v0; simpl in *. now rewrite Hid.
  - rewrite Forall_forall in Hk.
    assert (k < IDB.keyGen d)
      by (apply Hk; rewrite map_app; apply in_or_app; right; now left).
    lia.
Qed.

(** X14: marking is a round trip through the store.  On an open,
    well-formed store whose items carry their keys, markRead of a stored
    unread item never fails; afterwards db.get with the item's key returns
    the item with read set, the keys and all other records are as before,
    and marking the returned item again changes nothing. *)
Theorem markRead_then_get
        (d : IDB.objectStore) (k : Z) (v0 : Item.t) (a b : list (Z * Item.t)) :
  IDB.wf d -> Persist.keyed d ->
  IDB.records d = a ++ (k, v0) :: b ->
  Item.read v0 = false ->
  let d' := IDB.mkStore (a ++ (k, Item.set_read true v0) :: b) (IDB.keyGen d) in
  Items.markRead (Some d) v0 = (Fulfilled tt, Some d')
  /\ IDB.get (Some d) k = Fulfilled (Some v0)
  /\ IDB.get (Some d') k = Fulfilled (Some (Item.set_read true v0))
  /\ IDB.keys d' = IDB.keys d
  /\ (forall k', k' <> k -> IDB.get (Some d') k' = IDB.get (Some d) k')
  /\ Items.markRead (Some d') (Item.set_read true v0) = (Fulfilled tt, Some d').
Proof.
  intros Hd Hkd E Hr d'.
  assert (Hasc : IDB.ascending (map fst (a ++ (k, v0) :: b)))
    by (destruct Hd as [Ha _ _]; unfold IDB.keys in Ha; now rewrite E in Ha).
  assert (Hfind : forall v k',
             IDB.find_key k' (a ++ (k, v) :: b)
             = if k' =? k then Some v else IDB.find_key k' (a ++ b)).
  { intros v k'. rewrite map_app in Hasc. simpl in Hasc.
    destruct (ascending_app_inv _ _ _ Hasc) as [Ha _]. clear - Ha.
    induction a as [| [k0 w0] a IH]; simpl in *.
    - now rewrite (Z.eqb_sym k k').
    - inversion Ha as [| x xs Hx Hxs]; subst.
      destruct (k0 =? k') eqn:E0; [| now apply IH].
      apply Z.eqb_eq in E0. subst k0.
      destruct (k' =? k) eqn:E1; [apply Z.eqb_eq in E1; lia | reflexivity]. }
  split; [| split; [| split; [| split; [| split]]]].
  - unfold Items.markRead. rewrite Hr. cbn [IDB.put].
    now rewrite (store_put_read d k v0 a b Hd Hkd E).
  - simpl. rewrite E, Hfind, Z.eqb_refl. reflexivity.
  - simpl. rewrite Hfind, Z.eqb_refl. reflexivity.
  - unfold IDB.keys. simpl. rewrite E, !map_app. reflexivity.
  - intros k' N. simpl. rewrite E, !Hfind.
    apply Z.eqb_neq in N. now rewrite N.
  - reflexivity.
Qed.

Lemma markRead_then_get_witness :
  Items.markRead (Some Sample.db_two) (Sample.stored 2 false "http://a/2")
  = (Fulfilled tt,
     Some (IDB.mkStore [(1, Sample.stored 1 true "http://a/1");
                        (2, Sample.stored 2 true "http://a/2")] 3)).
Proof.
  apply (markRead_then_get Sample.db_two 2 (Sample.stored 2 false "http://a/2")
           [(1, Sample.stored 1 true "http://a/1")] []).
  - apply db_two_wf.
  - repeat constructor.
  - reflexivity.
  - reflexivity.
Defined.

(** ** The read flags stay a prefix *)

Lemma flags_true_at (la lb : list bool) (x : bool) (n m : nat) :
  la ++ x :: lb = repeat true n ++ repeat false m ->
  (List.length la < n)%nat -> x = true.
Proof.
  revert n. induction la as [| y la IH]; intros [| n] E L; simpl in *;
    try lia.
  - congruence.
  - inversion E. apply (IH n); [assumption | lia].
Qed.

Lemma flags_drop_true (la lb : list bool) (n m : nat) :
  la ++ true :: lb = repeat true (S n) ++ repeat false m ->
  (List.length la <= n)%nat ->
  la ++ lb = repeat true n ++ repeat false m.
Proof.
  revert n. induction la as [| y la IH]; intros n E L; simpl in *.
  - now inversion E.
  - destruct n as [| n]; [lia |]. inversion E as [[Ey E']]. simpl.
    f_equal. apply IH; [exact E' | lia].
Qed.

Lemma flags_set_true (la lb : list bool) (x : bool) (n m : nat) :
  la ++ x :: lb = repeat true n ++ repeat false m ->
  List.length la = n ->
  x = false /\ (1 <= m)%nat
  /\ la ++ true :: lb = repeat true (S n) ++ repeat false (m - 1).
Proof.
  revert n. induction la as [| y la IH]; intros n E L; simpl in *.
  - subst n. simpl in E. destruct m as [| m]; [discriminate |].
    simpl in E. inversion E. simpl. rewrite Nat.sub_0_r.
    repeat split; lia.
  - destruct n as [| n]; [discriminate |]. simpl in E.
    inversion E as [[Ey E']].
    destruct (IH n E') as (Hx & Hm & Hs); [lia |].
    repeat split; try assumption. simpl. now rewrite Hs.
Qed.

Lemma flags_read_first (rs : list (Z * Item.t)) :
  Cursor.read_first rs ->
  map (fun r => Item.read (snd r)) rs
  = repeat true (Cursor.count_read rs)
    ++ repeat false (List.length rs - Cursor.count_read rs).
Proof.
  induction rs as [| [k v] rs IH]; simpl; [reflexivity |].
  intros [H1 H2]. unfold Cursor.count_read in *. simpl.
  destruct (Item.read v); simpl.
  - f_equal. now apply IH.
  - rewrite IH by exact H2. rewrite H1. simpl. now rewrite Nat.sub_0_r.
Qed.

Lemma read_first_flags (rs : list (Z * Item.t)) (n m : nat) :
  map (fun r => Item.read (snd r)) rs = repeat true n ++ repeat false m ->
  Cursor.read_first rs /\ Cursor.count_read rs = n.
Proof.
  revert n m. induction rs as [| [k v] rs IH]; intros n m E; simpl in *.
  - destruct n; [split; [exact I | reflexivity] | discriminate].
  - unfold Cursor.count_read in *. simpl.
    destruct n as [| n]; simpl in E.
    + destruct m as [| m]; [discriminate |]. simpl in E.
      injection E as Ev E'. rewrite Ev.
      destruct (IH O m) as [Hf Hc]; [exact E' |].
      simpl. repeat split; assumption.
    + injection E as Ev E'. rewrite Ev.
      destruct (IH n m E') as [Hf Hc]. simpl. rewrite Hc. repeat split.
      exact Hf.
Qed.

Lemma find_key_middle (k : Z) (v : Item.t) (a b : list (Z * Item.t)) :
  IDB.ascending (map fst (a ++ (k, v) :: b)) ->
  IDB.find_key k (a ++ (k, v) :: b) = Some v.
Proof.
  rewrite map_app. simpl. intros H.
  destruct (ascending_app_inv _ _ _ H) as [Ha _]. clear H.
  induction a as [| [k0 w0] a IH]; simpl in *.
  - now rewrite Z.eqb_refl.
  - inversion Ha as [| x xs Hx Hxs]; subst.
    destruct (k0 =? k) eqn:E0; [apply Z.eqb_eq in E0; lia | now apply IH].
Qed.

Lemma mirrors_load (d : IDB.objectStore) (st0 : Items.state) :
  IDB.wf d -> Persist.keyed d -> Cursor.read_first (IDB.records d) ->
  Persist.mirrors d (snd (Items.load (Some d) st0)).
Proof.
  intros Hd Hk Hf. rewrite load_open. simpl.
  split; [exact Hd |]. split; [exact Hk |]. split; [reflexivity |].
  split.
  - assert (C' : Cursor.cursors_ok (snd (Items.load (Some d) Items.init)))
      by (apply cursors_ok_load, cursors_ok_init).
    rewrite load_open in C'. exact C'.
  - unfold Persist.flags. rewrite (flags_read_first _ Hf).
    unfold Items.length, IDB.keys. simpl. rewrite length_map.
    pose proof (count_read_le (IDB.records d)).
    f_equal; f_equal; lia.
Qed.

Lemma mirrors_reload (d : IDB.objectStore) (st : Items.state) :
  Persist.mirrors d st ->
  Cursor.read_first (IDB.records d)
  /\ Items.load (Some d) st
     = (Fulfilled tt,
        Items.mkState (Items.items st) (Items.known st) (Items.known st))
  /\ IDB.ascending (Items.items st).
Proof.
  intros (Hd & Hk & Hi & (C1 & C2 & C3) & Hf).
  destruct (read_first_flags _ _ _ Hf) as [R Hc].
  split; [exact R |]. split.
  - rewrite load_open, Hc, <- Hi. do 2 f_equal; lia.
  - rewrite Hi. now destruct Hd.
Qed.

Lemma mirrors_moved (d : IDB.objectStore) (st : Items.state) (r : Z) :
  Persist.mirrors d st ->
  -1 <= r <= Items.known st ->
  Persist.mirrors d (Items.mkState (Items.items st) r (Items.known st)).
Proof.
  intros (Hd & Hk & Hi & (C1 & C2 & C3) & Hf) Hr.
  split; [exact Hd |]. split; [exact Hk |]. split; [exact Hi |].
  split; [| exact Hf].
  unfold Cursor.cursors_ok, Items.length in *. simpl. lia.
Qed.

(** Forward and mark, as [cb_forwardItem] and [cb_markRead] do one after
    the other. *)
Lemma mirrors_forward_mark (d : IDB.objectStore) (st st' : Items.state) :
  Persist.mirrors d st ->
  Items.forwardCursor st = (true, st') ->
  exists (v0 : Item.t) (d' : IDB.objectStore) (k : Z),
    Items.getCurrentItem (Some d) st' = Fulfilled (Some v0)
    /\ Items.markRead (Some d) v0 = (Fulfilled tt, Some d')
    /\ Persist.mirrors d' st'
    /\ Items.index (Items.items st) (Items.reading st + 1) = Some k
    /\ Item.read v0 = negb (Items.known st <? Items.reading st + 1)
    /\ IDB.get (Some d') k = Fulfilled (Some (Item.set_read true v0)).
Proof.
  intros M F. pose proof M as (Hd & Hk & Hi & (C1 & C2 & C3) & Hf).
  unfold Items.forwardCursor in F.
  destruct (_ >=? _) eqn:G; [discriminate |].
  rewrite Z.geb_leb in G. apply Z.leb_gt in G.
  inversion F as [F']. clear F. unfold Items.length in *.
  assert (Hr : 0 <= Items.reading st + 1 < Z.of_nat (List.length (Items.items st)))
    by lia.
  destruct (index_some _ _ Hr) as [k Hx].
  pose proof Hx as Hx'. rewrite Hi in Hx'. unfold IDB.keys in Hx'.
  destruct (index_records _ _ _ Hx') as (v0 & E & _).
  set (a := firstn (Z.to_nat (Items.reading st + 1)) (IDB.records d)) in *.
  set (b := skipn (Z.to_nat (Items.reading st + 1 + 1)) (IDB.records d)) in *.
  assert (La : List.length a = Z.to_nat (Items.reading st + 1)).
  { unfold a. rewrite length_firstn. rewrite Hi in Hr. unfold IDB.keys in Hr.
    rewrite length_map in Hr. lia. }
  assert (Hasc : IDB.ascending (map fst (a ++ (k, v0) :: b)))
    by (rewrite <- E; now destruct Hd).
  assert (Hget : Items.getCurrentItem (Some d)
                   (Items.mkState (Items.items st) (Items.reading st + 1)
                      (if Items.known st <? Items.reading st + 1
                       then Items.reading st + 1 else Items.known st))
                 = Fulfilled (Some v0)).
  { unfold Items.getCurrentItem. simpl.
    destruct (_ >=? 0) eqn:G0;
      [| rewrite Z.geb_leb in G0; apply Z.leb_gt in G0; lia].
    rewrite Hx. simpl. rewrite E. now rewrite find_key_middle. }
  unfold Persist.flags in Hf. rewrite E, map_app in Hf. simpl in Hf.
  destruct (Items.known st <? Items.reading st + 1) eqn:K.
  - (* the cursor passes known: the item is unread and gets marked *)
    apply Z.ltb_lt in K. assert (Ek : Items.reading st = Items.known st) by lia.
    destruct (flags_set_true _ _ _ _ _ Hf) as (Hx0 & Hm & Hs).
    { rewrite length_map, La. f_equal. lia. }
    exists v0, (IDB.mkStore (a ++ (k, Item.set_read true v0) :: b) (IDB.keyGen d)), k.
    split; [exact Hget |]. split.
    { unfold Items.markRead. rewrite Hx0. cbn [IDB.put].
      now rewrite (store_put_read d k v0 a b Hd Hk E). }
    pose proof (wf_store_put d (Item.set_read true v0) Hd) as W.
    rewrite (store_put_read d k v0 a b Hd Hk E) in W. simpl in W.
    assert (Hnew : IDB.get
                     (Some (IDB.mkStore (a ++ (k, Item.set_read true v0) :: b)
                                        (IDB.keyGen d))) k
                   = Fulfilled (Some (Item.set_read true v0))).
    { simpl. f_equal. apply find_key_middle.
      rewrite map_app in *. exact Hasc. }
    split; [| split; [exact Hx | split; [exact Hx0 | exact Hnew]]].
    split; [exact W |]. split.
    { unfold Persist.keyed in *. simpl. rewrite E in Hk.
      apply Forall_app in Hk. destruct Hk as [Hk1 Hk2].
      apply Forall_app. split; [exact Hk1 |].
      inversion Hk2; subst. constructor; assumption. }
    split.
    { simpl. rewrite Hi. unfold IDB.keys. simpl. rewrite E at 1.
      now rewrite !map_app. }
    split; [unfold Cursor.cursors_ok, Items.length; simpl; lia |].
    unfold Persist.flags, Items.length. simpl. rewrite map_app. simpl.
    rewrite Hs. f_equal; f_equal; lia.
  - (* the cursor stays within known: the item is read already *)
    apply Z.ltb_ge in K.
    assert (Hx0 : Item.read v0 = true).
    { apply (flags_true_at _ _ _ _ _ Hf). rewrite length_map, La. lia. }
    exists v0, d, k. split; [exact Hget |]. split.
    { unfold Items.markRead. now rewrite Hx0. }
    split; [apply mirrors_moved; [exact M | lia] |].
    split; [exact Hx |]. split; [exact Hx0 |].
    simpl. rewrite E, find_key_middle by exact Hasc.
    do 2 f_equal. destruct v0; simpl in *. now rewrite Hx0.
Qed.

Lemma mirrors_delete (d : IDB.objectStore) (st : Items.state) :
  Persist.mirrors d st ->
  exists (r : settled bool) (d' : IDB.objectStore) (st' : Items.state),
    Items.deleteCurrentItem (Some d) st = (r, Some d', st')
    /\ Persist.mirrors d' st'.
Proof.
  intros M. pose proof M as (Hd & Hk & Hi & (C1 & C2 & C3) & Hf).
  destruct (Z.ltb_spec (Items.reading st) 0) as [Hneg | Hpos].
  - exists (Fulfilled false), d, st. split; [| exact M].
    unfold Items.deleteCurrentItem.
    destruct (_ <? 0) eqn:E; [reflexivity | apply Z.ltb_ge in E; lia].
  - unfold Items.length in *.
    assert (Hr : 0 <= Items.reading st < Z.of_nat (List.length (Items.items st)))
      by lia.
    destruct (index_some _ _ Hr) as [k Hx].
    rewrite (deleteCurrentItem_at d st k Hpos Hx).
    eexists _, _, _. split; [reflexivity |].
    pose proof Hx as Hx'. rewrite Hi in Hx'. unfold IDB.keys in Hx'.
    destruct (index_records _ _ _ Hx') as (v0 & E & _).
    set (a := firstn (Z.to_nat (Items.reading st)) (IDB.records d)) in *.
    set (b := skipn (Z.to_nat (Items.reading st + 1)) (IDB.records d)) in *.
    assert (La : List.length a = Z.to_nat (Items.reading st)).
    { unfold a. rewrite length_firstn. rewrite Hi in Hr. unfold IDB.keys in Hr.
      rewrite length_map in Hr. lia. }
    assert (Hasc : IDB.ascending (map fst (a ++ (k, v0) :: b)))
      by (rewrite <- E; now destruct Hd).
    assert (Er : IDB.remove_key k (IDB.records d) = a ++ b)
      by (rewrite E; now apply remove_key_middle).
    split; [now apply wf_store_delete |]. split.
    { unfold Persist.keyed in *. simpl. rewrite Er. rewrite E in Hk.
      apply Forall_app in Hk. destruct Hk as [Hk1 Hk2].
      apply Forall_app. split; [exact Hk1 | now inversion Hk2]. }
    split.
    { simpl. unfold IDB.keys. simpl. rewrite Er, Hi. unfold IDB.keys.
      rewrite map_app. unfold a, b. now rewrite !firstn_map, !skipn_map. }
    split.
    { pose proof (cursors_ok_delete (Some d) st (conj C1 (conj C2 C3))) as C.
      now rewrite (deleteCurrentItem_at d st k Hpos Hx) in C. }
    unfold Persist.flags in *. simpl. rewrite Er, map_app.
    rewrite E, map_app in Hf. simpl in Hf.
    assert (Hx0 : Item.read v0 = true).
    { apply (flags_true_at _ _ _ _ _ Hf). rewrite length_map, La. lia. }
    rewrite Hx0 in Hf.
    replace (Z.to_nat (Items.known st + 1))
      with (S (Z.to_nat (Items.known st - 1 + 1))) in Hf by lia.
    apply flags_drop_true in Hf; [| rewrite length_map, La; lia].
    rewrite Hf. unfold Items.length. simpl.
    rewrite (length_without _ _ _ Hx). f_equal; f_equal; lia.
Qed.

Lemma mirrors_push_each (l : list Item.t) (d : IDB.objectStore)
      (st : Items.state) :
  Persist.mirrors d st ->
  Forall Persist.brand_new l ->
  exists (d' : IDB.objectStore) (st' : Items.state),
    push_each l (Some d) st = (Fulfilled tt, Some d', st')
    /\ Persist.mirrors d' st'.
Proof.
  revert d st. induction l as [| it l IH]; intros d st M Hl.
  - exists d, st. split; [reflexivity | exact M].
  - inversion Hl as [| x xs [Hid Hrd] Hxs]; subst.
    cbn [push_each]. rewrite pushItem_open.
    destruct (IDB.url_taken (Item.url it) None (IDB.records d)) eqn:U.
    + apply url_taken_In in U. rewrite (store_add_url_taken d it U).
      simpl. now apply IH.
    + pose proof M as (Hd & Hk & Hi & (C1 & C2 & C3) & Hf).
      assert (N : ~ In (Item.url it) (map IDB.url_of (IDB.records d)))
        by (rewrite <- url_taken_In; congruence).
      pose proof (wf_store_add d it Hd) as W.
      rewrite (store_add_appends d it Hd Hid N) in *. simpl in W.
      apply IH; [| exact Hxs].
      split; [exact W |]. split.
      { unfold Persist.keyed in *. simpl. apply Forall_app.
        split; [exact Hk |]. repeat constructor. }
      split.
      { simpl. unfold IDB.keys. simpl. rewrite map_app. simpl.
        now rewrite Hi. }
      split.
      { unfold Cursor.cursors_ok, Items.length in *. simpl.
        rewrite length_app. simpl. lia. }
      unfold Persist.flags, Items.length in *. simpl.
      rewrite map_app, Hf. simpl. rewrite Hrd, length_app. simpl.
      rewrite <- app_assoc. f_equal.
      replace (Z.to_nat (Z.of_nat (List.length (Items.items st) + 1)
                         - Items.known st - 1))
        with (S (Z.to_nat (Z.of_nat (List.length (Items.items st))
                           - Items.known st - 1))) by lia.
      simpl. now rewrite repeat_cons.
Qed.

Lemma model_mirrors_forward (m : Model.model) :
  Persist.model_mirrors m ->
  Persist.model_mirrors
    (snd (Model.cb_markRead (fst (Model.cb_forwardItem (Fulfilled tt) m))
                            (snd (Model.cb_forwardItem (Fulfilled tt) m))))
  /\ fst (Model.cb_markRead (fst (Model.cb_forwardItem (Fulfilled tt) m))
                            (snd (Model.cb_forwardItem (Fulfilled tt) m)))
     = Fulfilled tt.
Proof.
  intros (d & Hd & M). unfold Model.cb_forwardItem.
  destruct (Items.forwardCursor (Model.cursor m)) as [[] st'] eqn:F.
  - destruct (mirrors_forward_mark d _ _ M F) as (v0 & d' & k & G & R & M' & _).
    rewrite Hd, G. simpl. rewrite R. simpl.
    split; [| reflexivity]. exists d'. split; [reflexivity | exact M'].
  - simpl. split; [| reflexivity]. exists d. split; assumption.
Qed.

Lemma model_mirrors_loadFeed (fetch : Feed.t -> list Item.t) (now id : Z)
      (m : Model.model) :
  (forall f, Forall Persist.brand_new (fetch f)) ->
  Persist.model_mirrors m ->
  Persist.model_mirrors (snd (Model.loadFeed fetch now id m)).
Proof.
  intros Hf (d & Hd & M). unfold Model.loadFeed, Feeds.get. rewrite Hd.
  destruct (Feeds.find_feed id _) as [feed |];
    [| exists d; split; assumption].
  destruct (_ <=? _); [| exists d; split; assumption].
  unfold Feeds.loadItems, Feeds.touchFeed, push_reverse.
  destruct (mirrors_push_each (rev (fetch feed)) d (Model.cursor m) M)
    as (d' & st' & E & M'); [apply Forall_rev, Hf |].
  rewrite E. simpl. destruct (_ >? 0); exists d'; split; auto.
Qed.

Lemma model_mirrors_loadMore (n : nat) (fetch : Feed.t -> list Item.t) :
  (forall f, Forall Persist.brand_new (fetch f)) ->
  forall (clock : nat -> Z) (m m' : Model.model) (r : settled unit),
    Persist.model_mirrors m ->
    Model.loadMore n fetch clock m = Some (r, m') ->
    Persist.model_mirrors m'.
Proof.
  intros Hf. induction n as [| n IH]; intros clock m m' r M E;
    [discriminate |].
  rewrite loadMore_round in E.
  assert (G : forall id, Persist.model_mirrors
                           (snd (Model.loadFeed fetch (clock O) id m)))
    by (intros id; now apply model_mirrors_loadFeed).
  destruct (Feeds.first (Model.feeds m)) as [id |].
  - destruct (Model.is_feedId (Some id)).
    + specialize (G id).
      destruct (Model.loadFeed fetch (clock O) id m) as [[k | e] m1].
      * simpl in G. destruct ((k >=? 0) && Model.shouldLoadMore m1).
        -- exact (IH _ m1 m' r G E).
        -- now inversion E; subst.
      * now inversion E; subst.
    + simpl in E. now inversion E; subst.
  - simpl in E. now inversion E; subst.
Qed.

Lemma model_mirrors_cb_loadMore {A} (n : nat) (fetch : Feed.t -> list Item.t)
      (clock : nat -> Z) (prev : settled A) (m m' : Model.model)
      (r : settled unit) :
  (forall f, Forall Persist.brand_new (fetch f)) ->
  Persist.model_mirrors m ->
  Model.cb_loadMore n fetch clock prev m = Some (r, m') ->
  Persist.model_mirrors m'.
Proof.
  intros Hf M. unfold Model.cb_loadMore.
  destruct prev as [a | e]; [| now intros E; inversion E; subst].
  destruct (Model.shouldLoadMore m); [| now intros E; inversion E; subst].
  now apply model_mirrors_loadMore.
Qed.

Lemma model_mirrors_do_call (E : Model.env) (k : Model.call)
      (c c' : Model.client) (v : settled unit) :
  (forall f, Forall Persist.brand_new (Model.fetch E f)) ->
  k <> Model.Shutdown ->
  Persist.model_mirrors (Model.world c) ->
  Model.do_call E k c = Some (v, c') ->
  Persist.model_mirrors (Model.world c').
Proof.
  intros Hf Hk M. destruct c as [[[] | e] m]; simpl in M.
  2:{ rewrite do_call_rejected. intros H. now inversion H; subst. }
  destruct k; cbn [Model.do_call]; try congruence.
  - (* forwardItem *)
    unfold Model.forwardItem. cbn [Model.state Model.world Model.fuel].
    destruct (model_mirrors_forward m M) as [M2 S2].
    destruct (Model.cb_forwardItem (Fulfilled tt) m) as [value m1].
    simpl in M2, S2.
    destruct (Model.cb_markRead value m1) as [s2 m2]. simpl in M2, S2.
    destruct (Model.cb_loadMore _ _ _ s2 m2) as [[s3 m3] |] eqn:L;
      [| discriminate].
    intros H. inversion H; subst. cbn [Model.world].
    now apply (model_mirrors_cb_loadMore _ _ _ _ _ _ _ Hf M2 L).
  - (* backwardItem *)
    unfold Model.backwardItem, Model.cb_backwardItem.
    cbn [Model.state Model.world].
    destruct M as (d & Hd & M).
    unfold Items.backwardCursor.
    destruct (_ <=? 0) eqn:B; intros H; inversion H; subst; simpl.
    + exists d. split; assumption.
    + exists d. split; [exact Hd |]. apply Z.leb_gt in B.
      pose proof M as (_ & _ & _ & (C1 & C2 & C3) & _).
      apply mirrors_moved; [exact M | lia].
  - (* deleteItem *)
    unfold Model.deleteItem, Model.cb_deleteItem.
    cbn [Model.state Model.world].
    destruct M as (d & Hd & M). rewrite Hd.
    destruct (mirrors_delete d _ M) as (r & d' & st' & D & M').
    rewrite D. intros H. inversion H; subst. simpl.
    exists d'. split; [reflexivity | exact M'].
  - (* currentItem *)
    unfold Model.currentItem, Model.cb_currentItem.
    cbn [Model.state Model.world].
    destruct (Model.cb_loadMore _ _ _ _ m) as [[s2 m2] |] eqn:L;
      [| discriminate].
    intros H. inversion H; subst. cbn [Model.world].
    now apply (model_mirrors_cb_loadMore _ _ _ _ _ _ _ Hf M L).
  - (* unsubscribe *)
    unfold Model.unsubscribe, Model.cb_unsubscribe.
    cbn [Model.state Model.world].
    destruct M as (d & Hd & M).
    destruct (Feeds.removeFeed (Model.db m) (Model.feeds m) id)
      as [[[] | e] r'];
      [| destruct (is_DOMException e)];
      intros H; inversion H; subst; simpl; exists d; split; assumption.
Qed.

Lemma model_mirrors_do_calls (E : Model.env) (ks : list Model.call) :
  (forall f, Forall Persist.brand_new (Model.fetch E f)) ->
  ~ In Model.Shutdown ks ->
  forall (c c' : Model.client) (vs : list (settled unit)),
    Persist.model_mirrors (Model.world c) ->
    Model.do_calls E ks c = Some (vs, c') ->
    Persist.model_mirrors (Model.world c').
Proof.
  intros Hf. induction ks as [| k ks IH]; intros Hn c c' vs M H.
  - simpl in H. now inversion H; subst.
  - simpl in H.
    destruct (Model.do_call E k c) as [[v c1] |] eqn:D; [| discriminate].
    destruct (Model.do_calls E ks c1) as [[vs' c2] |] eqn:D'; [| discriminate].
    inversion H; subst.
    apply (IH (fun X => Hn (or_intror X)) c1 c' vs'); [| exact D'].
    apply (model_mirrors_do_call E k c c1 v Hf); auto.
    intros ->. apply Hn. now left.
Qed.

Lemma db_two_keyed : Persist.keyed Sample.db_two.
Proof. repeat constructor. Qed.

Lemma one_entry_brand_new (f : Feed.t) :
  Forall Persist.brand_new (Sample.one_entry f).
Proof. repeat constructor. Qed.

(** X15: a restart finds what the session left.  Start the model layer
    over a well-formed store whose items carry their keys and whose read
    items come first, and let polls yield items as the normalizers make
    them.  After any run of forwardItem, backwardItem, deleteItem,
    currentItem and unsubscribe calls that has come to its end (the
    polling loops within their fuel) the database is open and
    well-formed, its read items still come first, the id list is in
    ascending order, and load over that database would rebuild exactly the
    id list and the known cursor the session holds (with reading put
    back on known). *)
Theorem restart_finds_the_session
        (E : Model.env) (d : IDB.objectStore) (r : Feeds.registry)
        (ks : list Model.call) (vs : list (settled unit))
        (c' : Model.client) :
  IDB.wf d -> Persist.keyed d -> Cursor.read_first (IDB.records d) ->
  (forall f, Forall Persist.brand_new (Model.fetch E f)) ->
  ~ In Model.Shutdown ks ->
  Model.do_calls E ks (Model.mkClient (Fulfilled tt) (Model.init d r))
  = Some (vs, c') ->
  exists d' : IDB.objectStore,
    Model.db (Model.world c') = Some d'
    /\ IDB.wf d'
    /\ Cursor.read_first (IDB.records d')
    /\ IDB.ascending (Items.items (Model.cursor (Model.world c')))
    /\ Items.load (Some d') (Model.cursor (Model.world c'))
       = (Fulfilled tt,
          Items.mkState (Items.items (Model.cursor (Model.world c')))
                        (Items.known (Model.cursor (Model.world c')))
                        (Items.known (Model.cursor (Model.world c')))).
Proof.
  intros Hd Hk Hr Hf Hn H.
  assert (M0 : Persist.model_mirrors (Model.init d r)).
  { exists d. split; [reflexivity |]. simpl. now apply mirrors_load. }
  pose proof (model_mirrors_do_calls E ks Hf Hn
                (Model.mkClient (Fulfilled tt) (Model.init d r)) c' vs M0 H)
    as (d' & Hd' & M).
  destruct (mirrors_reload d' _ M) as (R & L & A).
  exists d'. split; [exact Hd' |]. split; [now destruct M |].
  split; [exact R |]. split; [exact A | exact L].
Qed.

Lemma restart_finds_the_session_witness :
  exists (vs : list (settled unit)) (c' : Model.client)
         (d' : IDB.objectStore),
    Model.do_calls Sample.E [Model.ForwardItem; Model.DeleteItem]
                   (Model.mkClient (Fulfilled tt)
                                   (Model.init Sample.db_two Sample.reg_AB))
    = Some (vs, c')
    /\ Model.db (Model.world c') = Some d'
    /\ Cursor.read_first (IDB.records d').
Proof.
  destruct (Model.do_calls Sample.E [Model.ForwardItem; Model.DeleteItem]
              (Model.mkClient (Fulfilled tt)
                              (Model.init Sample.db_two Sample.reg_AB)))
    as [[vs c'] |] eqn:H; [| exfalso; vm_compute in H; discriminate].
  destruct (restart_finds_the_session Sample.E Sample.db_two Sample.reg_AB
              [Model.ForwardItem; Model.DeleteItem] vs c')
    as (d' & Hd' & _ & R & _).
  - apply db_two_wf.
  - apply db_two_keyed.
  - simpl. repeat split; reflexivity.
  - apply one_entry_brand_new.
  - simpl. intros [X | [X | []]]; discriminate.
  - exact H.
  - exists vs, c', d'. split; [reflexivity |]. split; assumption.
Defined.

(* ================================================================== *)
(** * Further properties of the callbacks *)

(** X16: moving on to an item not seen before persists its read flag.
    When the module state mirrors the store and the reading cursor stands
    on known with more items behind it, cb_forwardItem resolves to the
    stored item at the next index, which is not yet flagged read; the
    cb_markRead chained behind it succeeds, after which db.get returns
    that item with read set, both cursors stand on its index and the
    unread count is one less. *)
Theorem forwardItem_marks_read (m : Model.model) :
  Persist.model_mirrors m ->
  Items.reading (Model.cursor m) = Items.known (Model.cursor m) ->
  Items.known (Model.cursor m) < Items.length (Model.cursor m) - 1 ->
  exists (k : Z) (v0 : Item.t) (m1 m2 : Model.model),
    Items.index (Items.items (Model.cursor m))
                (Items.reading (Model.cursor m) + 1) = Some k
    /\ Model.cb_forwardItem (Fulfilled tt) m = (Fulfilled (Some v0), m1)
    /\ Item.read v0 = false
    /\ Model.cb_markRead (Fulfilled (Some v0)) m1 = (Fulfilled tt, m2)
    /\ IDB.get (Model.db m2) k = Fulfilled (Some (Item.set_read true v0))
    /\ Items.reading (Model.cursor m2) = Items.reading (Model.cursor m) + 1
    /\ Items.known (Model.cursor m2) = Items.reading (Model.cursor m) + 1
    /\ Items.unreadCount (Model.cursor m2)
       = Items.unreadCount (Model.cursor m) - 1.
Proof.
  intros (d & Hd & M) Hrk Hlt.
  destruct (Items.forwardCursor (Model.cursor m)) as [b st'] eqn:F.
  pose proof F as F'. rewrite forwardCursor_spec in F'.
  destruct (_ >=? _) eqn:G;
    [rewrite Z.geb_leb in G; apply Z.leb_le in G; lia |].
  inversion F'; subst b st'. clear F'.
  destruct (mirrors_forward_mark d _ _ M F)
    as (v0 & d' & k & Hg & Hm & _ & Hx & Hr & Hn).
  exists k, v0. eexists _, _.
  split; [exact Hx |]. split.
  { unfold Model.cb_forwardItem. rewrite F, Hd, Hg. reflexivity. }
  split.
  { rewrite Hr. destruct (_ <? _) eqn:K; [reflexivity |].
    apply Z.ltb_ge in K. lia. }
  split.
  { unfold Model.cb_markRead. cbn [Model.db Model.cursor Model.feeds
                                   Model.events]. now rewrite Hm. }
  split; [exact Hn |].
  unfold Items.unreadCount, Items.length in *. simpl. repeat split; lia.
Qed.

Lemma forwardItem_marks_read_witness :
  exists (k : Z) (v0 : Item.t) (m1 m2 : Model.model),
    Model.cb_forwardItem (Fulfilled tt) (Model.init Sample.db_two Sample.reg_AB)
    = (Fulfilled (Some v0), m1)
    /\ Model.cb_markRead (Fulfilled (Some v0)) m1 = (Fulfilled tt, m2)
    /\ IDB.get (Model.db m2) k = Fulfilled (Some (Item.set_read true v0)).
Proof.
  destruct (forwardItem_marks_read (Model.init Sample.db_two Sample.reg_AB))
    as (k & v0 & m1 & m2 & _ & F & _ & R & G & _).
  - exists Sample.db_two. split; [reflexivity |].
    apply mirrors_load; [apply db_two_wf | apply db_two_keyed |].
    simpl. repeat split; reflexivity.
  - reflexivity.
  - vm_compute. reflexivity.
  - exists k, v0, m1, m2. repeat split; assumption.
Defined.

(** X17: what shutdown leaves behind.  On an open database cb_shutdown
    nulls the handle and posts the shutdown event, keeping the cursors.
    From then on a second shutdown, and currentItem or deleteItem with an
    item under the cursor, are rejected with a TypeError and change
    nothing, while the cursor moves that are refused at the ends of the
    list still resolve to null with their warning. *)
Theorem after_shutdown (m : Model.model) (d : IDB.objectStore) :
  Model.db m = Some d ->
  let m' := Model.emit AirSSModelShutDown
              (Model.mkModel None (Model.cursor m) (Model.feeds m)
                             (Model.events m)) in
  Model.cb_shutdown (Fulfilled tt) m = (Fulfilled tt, m')
  /\ Model.cb_shutdown (Fulfilled tt) m' = (Rejected IDB.null_db, m')
  /\ (0 <= Items.reading (Model.cursor m) ->
      Model.cb_currentItem (Fulfilled tt) m' = (Rejected IDB.null_db, m')
      /\ Model.cb_deleteItem (Fulfilled tt) m' = (Rejected IDB.null_db, m'))
  /\ (Items.reading (Model.cursor m) < 0 ->
      Model.cb_currentItem (Fulfilled tt) m' = (Fulfilled None, m')
      /\ Model.cb_deleteItem (Fulfilled tt) m' = (Fulfilled false, m'))
  /\ (Items.reading (Model.cursor m) <= 0 ->
      Model.cb_backwardItem (Fulfilled tt) m'
      = (Fulfilled None,
         Model.emitModelWarning "Already at the beginning" m'))
  /\ (Items.reading (Model.cursor m) >= Items.length (Model.cursor m) - 1 ->
      Model.cb_forwardItem (Fulfilled tt) m'
      = (Fulfilled None, Model.emitModelWarning "Already at the end" m')).
Proof.
  intros Hd m'.
  split; [unfold Model.cb_shutdown; now rewrite Hd |].
  split; [reflexivity |].
  unfold Model.cb_currentItem, Model.cb_deleteItem, Model.cb_backwardItem,
    Model.cb_forwardItem, Items.getCurrentItem, Items.deleteCurrentItem,
    Items.backwardCursor, Items.forwardCursor, Items.length.
  cbn [m' Model.emit Model.db Model.cursor Model.feeds Model.events].
  split; [| split; [| split]]; intros H.
  - destruct (_ >=? 0) eqn:G;
      [| rewrite Z.geb_leb in G; apply Z.leb_gt in G; lia].
    destruct (_ <? 0) eqn:L; [apply Z.ltb_lt in L; lia |].
    destruct (Items.index _ _); now split.
  - destruct (_ >=? 0) eqn:G;
      [rewrite Z.geb_leb in G; apply Z.leb_le in G; lia |].
    destruct (_ <? 0) eqn:L; [| apply Z.ltb_ge in L; lia].
    now split.
  - destruct (_ <=? 0) eqn:L; [reflexivity | apply Z.leb_gt in L; lia].
  - destruct (_ >=? _) eqn:G; [reflexivity |].
    rewrite Z.geb_leb in G. apply Z.leb_gt in G. lia.
Qed.

Lemma after_shutdown_witness :
  Model.cb_shutdown (Fulfilled tt) (Model.world Sample.c_faulted)
  = (Rejected IDB.null_db, Model.world Sample.c_faulted)
  /\ Model.cb_deleteItem (Fulfilled tt) (Model.world Sample.c_faulted)
     = (Rejected IDB.null_db, Model.world Sample.c_faulted).
Proof.
  destruct (after_shutdown (Model.init Sample.db_two Sample.reg_AB)
              Sample.db_two eq_refl) as (_ & S & D & _).
  split; [exact S |]. apply D. vm_compute. discriminate.
Defined.

Lemma stamp_feed_open (now : Z) (feed : Feed.t) (num : Z) (m : Model.model)
      (d : IDB.objectStore) :
  Model.db m = Some d ->
  exists m' : Model.model,
    Model2.stamp_feed now feed num m = (Fulfilled tt, m')
    /\ Model.db m' = Model.db m
    /\ Model.cursor m' = Model.cursor m
    /\ Model.events m'
       = if num >? 0
         then Model.events m
              ++ [AirSSModelItemsLoaded (Items.length (Model.cursor m))
                                        (Items.readingCursor (Model.cursor m))]
         else Model.events m.
Proof.
  intros Hd. unfold Model2.stamp_feed, Feeds.updateFeed, Feeds.touchFeed.
  rewrite Hd. destruct (num >? 0); eexists;
    (split; [reflexivity |]); (split; [simpl; congruence |]);
    (split; reflexivity).
Qed.

(** X18: cb_updateFeed for a feed that came back without an error, on an
    open, well-formed store.  The entries are pushed first.  If any was
    new, no placeholder is made and one items-loaded event is posted with
    the new length and the reading cursor.  If none was new and the feed
    was last loaded less than MaxKeptPeriod days ago, nothing else is
    stored and no event is posted.  If none was new and the last load is
    more than MaxKeptPeriod days back, one placeholder item tagged
    "_error" is stored under the next key (its random url being free) and
    the event is posted.  The cursors never move. *)
Theorem cb_updateFeed_without_error
        (cfg : Model2.config) (now later : Z) (rnd : string)
        (feed : Feed.t) (items : list Item.t)
        (m : Model.model) (d : IDB.objectStore) :
  Model.db m = Some d -> IDB.wf d ->
  Items.truthy (Feed.error feed) = false ->
  exists (d1 : IDB.objectStore) (st1 : Items.state),
    push_reverse items (Some d) (Model.cursor m) = (Fulfilled tt, Some d1, st1)
    /\ (Items.length (Model.cursor m) < Items.length st1 ->
        exists m' : Model.model,
          Model2.cb_updateFeed cfg now later rnd (Fulfilled tt) feed items m
          = (Fulfilled tt, m')
          /\ Model.db m' = Some d1 /\ Model.cursor m' = st1
          /\ Model.events m'
             = Model.events m
               ++ [AirSSModelItemsLoaded (Items.length st1)
                                         (Items.reading st1)])
    /\ (Items.length st1 = Items.length (Model.cursor m) ->
        now - Model2.MaxKeptPeriod cfg * 24 * 3600 * 1000
        <= Feed.lastLoadTime feed ->
        exists m' : Model.model,
          Model2.cb_updateFeed cfg now later rnd (Fulfilled tt) feed items m
          = (Fulfilled tt, m')
          /\ Model.db m' = Some d1 /\ Model.cursor m' = st1
          /\ Model.events m' = Model.events m)
    /\ (Items.length st1 = Items.length (Model.cursor m) ->
        Feed.lastLoadTime feed
        < now - Model2.MaxKeptPeriod cfg * 24 * 3600 * 1000 ->
        ~ In rnd (map IDB.url_of (IDB.records d1)) ->
        exists m' : Model.model,
          Model2.cb_updateFeed cfg now later rnd (Fulfilled tt) feed items m
          = (Fulfilled tt, m')
          /\ Items.items (Model.cursor m') = Items.items st1 ++ [IDB.keyGen d1]
          /\ Items.reading (Model.cursor m') = Items.reading (Model.cursor m)
          /\ Items.known (Model.cursor m') = Items.known (Model.cursor m)
          /\ IDB.get (Model.db m') (IDB.keyGen d1)
             = Fulfilled
                 (Some (Item.set_id (IDB.keyGen d1)
                          (Model2.dummyItem cfg later rnd feed)))
          /\ Item.tags (Model2.dummyItem cfg later rnd feed) = ["_error"%string]
          /\ Model.events m'
             = Model.events m
               ++ [AirSSModelItemsLoaded (Items.length st1 + 1)
                                         (Items.reading st1)]).
Proof.
  intros Hd Hw Ht.
  destruct (push_each_open (rev items) d (Model.cursor m) Hw)
    as (d1 & st1 & E & W1 & L & R & K & _).
  exists d1, st1. split; [exact E |].
  unfold Model2.cb_updateFeed, push_reverse. rewrite Hd, E, Ht.
  set (m1 := Model2.with_items (Some d1) st1 m).
  split; [| split].
  - intros Hgr.
    destruct (_ =? 0) eqn:Z0; [apply Z.eqb_eq in Z0; lia |]. simpl.
    destruct (stamp_feed_open now feed
                (Items.length st1 - Items.length (Model.cursor m)) m1 d1 eq_refl)
      as (m' & S & A & B & C).
    exists m'. rewrite S. split; [reflexivity |].
    split; [exact A |]. split; [exact B |].
    rewrite C. destruct (_ >? 0) eqn:G; [reflexivity |].
    rewrite Z.gtb_ltb in G. apply Z.ltb_ge in G. lia.
  - intros Heq Hrecent. rewrite Heq, Z.sub_diag. simpl.
    destruct (_ <? _) eqn:Q; [apply Z.ltb_lt in Q; lia |].
    destruct (stamp_feed_open now feed 0 m1 d1 eq_refl)
      as (m' & S & A & B & C).
    exists m'. rewrite S. auto.
  - intros Heq Hquiet Hfree. rewrite Heq, Z.sub_diag. simpl.
    destruct (_ <? _) eqn:Q; [| apply Z.ltb_ge in Q; lia].
    cbn [m1 Model2.with_items Model.db Model.cursor].
    rewrite pushItem_open.
    rewrite (store_add_appends d1 (Model2.dummyItem cfg later rnd feed)
               W1 eq_refl Hfree).
    match goal with
    | |- context [Model2.stamp_feed now feed 1 ?mm] =>
        destruct (stamp_feed_open now feed 1 mm
                    (IDB.mkStore
                       (IDB.records d1
                        ++ [(IDB.keyGen d1,
                             Item.set_id (IDB.keyGen d1)
                               (Model2.dummyItem cfg later rnd feed))])
                       (IDB.keyGen d1 + 1)) eq_refl)
          as (m' & S & A & B & C)
    end.
    exists m'. rewrite S. split; [reflexivity |].
    rewrite A, B, C. simpl.
    split; [reflexivity |]. split; [exact R |]. split; [exact K |].
    split.
    { f_equal. rewrite <- insert_key_last by (now destruct W1).
      apply find_key_insert_key.
      rewrite <- has_key_In. now rewrite wf_fresh_key. }
    split; [reflexivity |].
    assert (Hl : Items.length
                   (Items.mkState (Items.items st1 ++ [IDB.keyGen d1])
                                  (Items.reading st1) (Items.known st1))
                 = Items.length (Model.cursor m) + 1).
    { rewrite <- Heq. unfold Items.length. simpl. rewrite length_app.
      simpl. lia. }
    now rewrite Hl.
Qed.

Lemma cb_updateFeed_without_error_witness :
  exists m' : Model.model,
    Model2.cb_updateFeed Model2.default_config 10000000 10000001 "k3j9x0a1b2c"
                         (Fulfilled tt) Sample.feedB
                         [Sample.fresh "http://b/1"]
                         (Model.init Sample.db_two Sample.reg_AB)
    = (Fulfilled tt, m')
    /\ Items.items (Model.cursor m') = [1; 2; 3]
    /\ Model.events m'
       = [AirSSModelItemsLoaded 2 0; AirSSModelInitDone;
          AirSSModelItemsLoaded 3 0].
Proof.
  destruct (cb_updateFeed_without_error
              Model2.default_config 10000000 10000001 "k3j9x0a1b2c"
              Sample.feedB [Sample.fresh "http://b/1"]
              (Model.init Sample.db_two Sample.reg_AB) Sample.db_two
              eq_refl db_two_wf eq_refl)
    as (d1 & st1 & E & H & _).
  vm_compute in E. inversion E; subst. clear E.
  destruct H as (m' & U & _ & C & V); [vm_compute; reflexivity |].
  exists m'. split; [exact U |]. split; [now rewrite C | exact V].
Defined.

(** X19: what cb_getLoadCandidate hands out.  A feed it resolves to is
    the feed in front of the registry, its last load lies at least
    MinReloadWait hours back, fewer items are unread than the watermark,
    and the registry has been rotated; the store, the cursors and the
    events are untouched.  When it resolves to null or is rejected,
    nothing at all has changed; and it resolves to null whenever the
    watermark is reached. *)
Theorem getLoadCandidate_outcomes
        (cfg : Model2.config) (now : Z) (m : Model.model) :
  (forall (f : Feed.t) (m' : Model.model),
      Model2.cb_getLoadCandidate cfg now (Fulfilled tt) m
      = (Fulfilled (Some f), m') ->
      Items.unreadCount (Model.cursor m) < Model2.WaterMark cfg
      /\ Feed.lastLoadTime f <= now - Model2.MinReloadWait cfg * 3600 * 1000
      /\ (exists id, Feeds.first (Model.feeds m) = Some id
                     /\ Feeds.get (Model.db m) (Model.feeds m) id
                        = Fulfilled (Some f))
      /\ m' = Model2.with_feeds (Feeds.rotate (Model.feeds m)) m)
  /\ (forall (m' : Model.model),
         Model2.cb_getLoadCandidate cfg now (Fulfilled tt) m
         = (Fulfilled None, m') -> m' = m)
  /\ (forall (e : error) (m' : Model.model),
         Model2.cb_getLoadCandidate cfg now (Fulfilled tt) m
         = (Rejected e, m') -> m' = m)
  /\ (Model2.WaterMark cfg <= Items.unreadCount (Model.cursor m) ->
      Model2.cb_getLoadCandidate cfg now (Fulfilled tt) m = (Fulfilled None, m)).
Proof.
  unfold Model2.cb_getLoadCandidate.
  destruct (_ >=? _) eqn:W.
  - repeat split; try (intros; congruence); try discriminate.
  - rewrite Z.geb_leb in W. apply Z.leb_gt in W.
    destruct (Feeds.first (Model.feeds m)) as [id |];
      [destruct (negb _);
       [| destruct (Feeds.get _ _ id) as [[f0 |] | e] eqn:G;
          [destruct (_ >? _) eqn:T |..]] |];
      try (repeat split; try (intros; congruence); try discriminate;
           try lia; fail).
    rewrite Z.gtb_ltb in T. apply Z.ltb_ge in T.
    split; [| repeat split; try (intros; congruence); try discriminate;
              try lia].
    intros f m' H. inversion H; subst.
    split; [lia |]. split; [exact T |].
    split; [| reflexivity]. exists id. auto.
Qed.

Lemma getLoadCandidate_outcomes_witness :
  exists m' : Model.model,
    Model2.cb_getLoadCandidate Model2.default_config 50000000 (Fulfilled tt)
                               (Model.init Sample.db_two Sample.reg_AB)
    = (Fulfilled (Some Sample.feedA), m')
    /\ Feeds.order (Model.feeds m') = [2; 1].
Proof.
  eexists. split; [reflexivity |].
  destruct (getLoadCandidate_outcomes Model2.default_config 50000000
              (Model.init Sample.db_two Sample.reg_AB)) as (H & _).
  destruct (H Sample.feedA _ eq_refl) as (_ & _ & _ & E).
  reflexivity.
Defined.

(** X20: the alerts of cb_subscribe.  A url that Feeds.sanitize refuses
    by throwing a string or a TypeError costs one error alert; nothing
    else changes and the callback is fulfilled.  A feed that
    Feeds.addFeed refuses with a DOMException gets the error alert
    "already subscribed" and, right after it, the info alert "now
    subscribed", and the callback is fulfilled.  Any other error of
    either call rejects the callback with that error and posts nothing. *)
Theorem cb_subscribe_alerts
        (sanitize : string -> Subscribe.sanitized)
        (addFeed : IDB.handle -> Feeds.registry -> Feed.t
                   -> settled Z * Feeds.registry)
        (url : string) (m : Model.model) :
  let out := Subscribe.cb_subscribe sanitize addFeed (Fulfilled tt) url m in
  (forall s, sanitize url = Subscribe.ThrewString s ->
             out = (Fulfilled tt,
                    Model.emitModelError
                      (Subscribe.quoted url
                         (String.append "' is not valid: " s)) m))
  /\ (forall msg, sanitize url = Subscribe.Threw (TypeError msg) ->
                  fst out = Fulfilled tt
                  /\ exists text,
                      snd out = Model.emitModelError text m)
  /\ (forall e, sanitize url = Subscribe.Threw e ->
                (forall msg, e <> TypeError msg) ->
                out = (Rejected e, m))
  /\ (forall feed e r',
         sanitize url = Subscribe.Sanitized feed ->
         addFeed (Model.db m) (Model.feeds m) feed = (Rejected e, r') ->
         if is_DOMException e
         then fst out = Fulfilled tt
              /\ Model.events (snd out)
                 = Model.events m
                   ++ [AirSSModelAlert "error"
                         (Subscribe.quoted url "' is already subscribed");
                       AirSSModelAlert "info"
                         (Subscribe.quoted url "' is now subscribed")]
         else fst out = Rejected e
              /\ Model.events (snd out) = Model.events m)
  /\ (forall feed k r',
         sanitize url = Subscribe.Sanitized feed ->
         addFeed (Model.db m) (Model.feeds m) feed = (Fulfilled k, r') ->
         fst out = Fulfilled tt
         /\ Model.feeds (snd out) = r'
         /\ Model.events (snd out)
            = Model.events m
              ++ [AirSSModelAlert "info"
                    (Subscribe.quoted url "' is now subscribed")]).
Proof.
  unfold Subscribe.cb_subscribe. cbv zeta.
  split; [| split; [| split; [| split]]].
  - intros s ->. reflexivity.
  - intros msg ->. split; [reflexivity | eexists; reflexivity].
  - intros e -> N. destruct e; try reflexivity. exfalso. now apply (N msg).
  - intros feed e r' -> ->. destruct (is_DOMException e); simpl.
    + split; [reflexivity |]. now rewrite <- app_assoc.
    + split; reflexivity.
  - intros feed k r' -> ->. simpl. repeat split.
Qed.

Lemma cb_subscribe_alerts_witness :
  Model.events
    (snd (Subscribe.cb_subscribe SampleSubscribe.sanitize_fine
            SampleSubscribe.addFeed_taken (Fulfilled tt) "http://a/feed"
            (Model.init Sample.db_two Sample.reg_AB)))
  = Model.events (Model.init Sample.db_two Sample.reg_AB)
    ++ [AirSSModelAlert "error" "The feed 'http://a/feed' is already subscribed";
        AirSSModelAlert "info" "The feed 'http://a/feed' is now subscribed"].
Proof.
  destruct (cb_subscribe_alerts SampleSubscribe.sanitize_fine
              SampleSubscribe.addFeed_taken "http://a/feed"
              (Model.init Sample.db_two Sample.reg_AB))
    as (_ & _ & _ & H & _).
  apply (H (Feed.mk 0 "http://a/feed" "A" 0 None)
           (DOMException "ConstraintError")
           (Model.feeds (Model.init Sample.db_two Sample.reg_AB))
           eq_refl eq_refl).
Defined.
